(** * django_extensions.management.shells

    A shallow embedding of [django_extensions/management/shells.py]: the
    application-name derivation [get_app_name], the import-directive
    interpreter [import_items] and the orchestrator [import_objects] with
    its closures, followed by the properties of the specification.

    Conventions.
    - A Python [str] is a [string]; a [dict] whose iteration order is never
      observed through the result is a [gmap]; a [dict] that is iterated is
      an association list in insertion order.
    - A Python exception is a constructor of [exn]; code that may raise
      lives in the monad [M F], whose frame [F] holds the mutable locals and
      survives a raise, exactly as an in-place mutated dict does.
    - The interpreter's collaborators (the parser [ast.parse], the import
      system, [dir]/[getattr], Django's [import_string], the collision
      resolver and the subclass finder) are the variables of section
      [Shells]; [Demo] instantiates them with a small concrete world. *)

From Stdlib Require Import Ascii.
From stdpp Require Import gmap strings list fin_maps sorting.

#[global] Set Warnings "-level-tolerance,-clear-no-such-hyp".

(* ===================================================================== *)
(** ** Python built-ins *)
(* ===================================================================== *)

Module Py.

(** [s.split(sep)] for a one-character separator: never empty, and an empty
    field is kept on either side of every separator. *)
Fixpoint split (sep : ascii) (s : string) : list string :=
  match s with
  | EmptyString => [EmptyString]
  | String c s' =>
      if Ascii.eqb c sep then EmptyString :: split sep s'
      else match split sep s' with
           | [] => [String c EmptyString]
           | w :: ws => String c w :: ws
           end
  end.

(** [str.isspace] on the ASCII range: TAB..CR, FS..US and the space. *)
Definition isspace (c : ascii) : bool :=
  let n := nat_of_ascii c in
  ((9 <=? n) && (n <=? 13)) || ((28 <=? n) && (n <=? 32)).

Fixpoint lstrip (s : string) : string :=
  match s with
  | EmptyString => EmptyString
  | String c s' => if isspace c then lstrip s' else s
  end.

Fixpoint rstrip (s : string) : string :=
  match s with
  | EmptyString => EmptyString
  | String c s' =>
      match rstrip s' with
      | EmptyString => if isspace c then EmptyString else String c EmptyString
      | r => String c r
      end
  end.

(** [s.strip()] *)
Definition strip (s : string) : string := rstrip (lstrip s).

(** [s.startswith(p)] *)
Definition startswith (p s : string) : bool := String.prefix p s.

(** [l.index(x)]: the first position of [x]; [None] stands for the
    [ValueError] of a missing element. *)
Fixpoint index (x : string) (l : list string) : option nat :=
  match l with
  | [] => None
  | y :: l' => if String.eqb y x then Some 0 else S <$> index x l'
  end.

(** [x in l] for a list of strings. *)
Definition contains (x : string) (l : list string) : bool :=
  bool_decide (x ∈ l).

(** [sorted(l)]: a stable insertion sort over the order [le]. *)
Fixpoint insert_sorted {A} (le : A → A → bool) (x : A) (l : list A) : list A :=
  match l with
  | [] => [x]
  | y :: l' => if le x y then x :: l else y :: insert_sorted le x l'
  end.

Definition sorted {A} (le : A → A → bool) (l : list A) : list A :=
  foldr (insert_sorted le) [] l.

(** Order of [str] and of pairs of [str] (tuples compare lexicographically). *)
Definition str_le (a b : string) : bool := String.leb a b.

Definition pair_le (a b : string * string) : bool :=
  String.ltb a.1 b.1 || (String.eqb a.1 b.1 && String.leb a.2 b.2).

(** Order used for [sorted(d.items())]: the keys of a dict are distinct, so
    the comparison is settled on the key. *)
Definition key_le {V} (a b : string * V) : bool := String.leb a.1 b.1.

(** [", ".join(l)] *)
Fixpoint join (sep : string) (l : list string) : string :=
  match l with
  | [] => ""
  | [x] => x
  | x :: l' => x +:+ sep +:+ join sep l'
  end.

(** [d.setdefault(k, []); d[k].append(v)] on an insertion-ordered dict. *)
Fixpoint setdefault_append {V} (k : string) (v : V)
    (d : list (string * list V)) : list (string * list V) :=
  match d with
  | [] => [(k, [v])]
  | (k', vs) :: d' =>
      if String.eqb k' k then (k', vs ++ [v]) :: d'
      else (k', vs) :: setdefault_append k v d'
  end.

(** [d.get(k)] on an insertion-ordered dict. *)
Fixpoint get {V} (k : string) (d : list (string * V)) : option V :=
  match d with
  | [] => None
  | (k', v) :: d' => if String.eqb k' k then Some v else get k d'
  end.

End Py.

(* ===================================================================== *)
(** ** get_app_name *)
(* ===================================================================== *)

(** [django.apps.config.MODELS_MODULE_NAME] *)
Definition MODELS_MODULE_NAME : string := "models".

(** [rparts[i]] is [rparts !! i]; [None] is the [IndexError] that the outer
    handler turns into [mod_name], [Py.index ... = None] the [ValueError]
    that the inner handler turns into [rparts[1]]. *)
Definition get_app_name (mod_name : string) : string :=
  let rparts := rev (Py.split "."%char mod_name) in
  match Py.index MODELS_MODULE_NAME rparts with
  | Some i =>
      match rparts !! (i + 1) with
      | Some r => r
      | None => mod_name
      end
  | None =>
      match rparts !! 1 with
      | Some r => r
      | None => mod_name
      end
  end.


(* ===================================================================== *)
(** ** Values, exceptions, output *)
(* ===================================================================== *)

(** The Python values an import directive can be made of.  [PObject] is any
    value that is neither a [str], a [tuple] nor a [list] (identified by its
    [repr]). *)
#[local] Set Warnings "-register-all".
Inductive pyval :=
| PStr (s : string)
| PTuple (items : list pyval)
| PList (items : list pyval)
| PObject (repr : string).

(** [isinstance(v, str)] with the string it holds. *)
Definition as_str (v : pyval) : option string :=
  match v with PStr s => Some s | _ => None end.

(** [isinstance(v, (list, tuple))] with its items. *)
Definition as_sequence (v : pyval) : option (list pyval) :=
  match v with PTuple l | PList l => Some l | _ => None end.

(** [isinstance(v, (list, tuple)) and all(isinstance(e, str) for e in v)] *)
Definition as_str_sequence (v : pyval) : option (list string) :=
  l ← as_sequence v; mapM as_str l.

(** [isinstance(v, (list, tuple)) and len(v) == 2] with [v[0]] and [v[1]]. *)
Definition as_pair (v : pyval) : option (pyval * pyval) :=
  match as_sequence v with
  | Some [d0; d1] => Some (d0, d1)
  | _ => None
  end.

(** The exception classes that the module raises, catches or lets through.
    [OtherError] is any class that none of the handlers names. *)
Inductive exn :=
| ImportError | AttributeError | UnboundLocalError | TypeError | ValueError
| OtherError.

Definition is_ImportError (e : exn) : bool :=
  match e with ImportError => true | _ => false end.

Definition is_AttributeError (e : exn) : bool :=
  match e with AttributeError => true | _ => false end.

Inductive outcome (A : Type) :=
| Ok (a : A)
| Raise (e : exn).
Arguments Ok {A} a.
Arguments Raise {A} e.

(** The colour functions of the [style] argument. *)
Inductive style := ERROR | SQL_COLTYPE | SQL_TABLE | PLAIN.

(** One constructor per format string of the module, with its arguments. *)
Inductive message :=
| Error_parsing (directive : string)
| Only_specify_import_statements (directive : string)
| Statement (directive : string)
| Couldnt_find (name : string) (module : option string) (found : list string)
| Import_echo (directive : string)
| Module_name_must_be_string (module : pyval)
| Does_not_exist (name module : string)
| From_import_echo (module names : string)
| Names_must_be_strings_in (names module : pyval)
| Names_must_be_strings (directive : pyval)
| Unable_to_import (directive : pyval)
| Failed_to_import (model_name full_module_path : string) (reason : exn)
| Header (title : string).

(** What reaches the outside: [print], [warnings.warn] and
    [traceback.print_exc]. *)
Inductive event :=
| Print (st : style) (text : message)
| Warn_deprecated
| Print_exc (e : exn).

(** The statements [ast.parse] can return, as far as the interpreter looks
    at them: [ast.Import], [ast.ImportFrom], and anything else. *)
Record alias := Alias { a_name : string; a_asname : option string }.

Inductive stmt :=
| Import (names : list alias)
| ImportFrom (module : option string) (names : list alias) (level : nat)
| OtherStmt.

(** [isinstance(body, (ast.Import, ast.ImportFrom))] *)
Definition is_import (body : stmt) : bool :=
  match body with OtherStmt => false | _ => true end.

(** [a or b] on an optional string: [None] and [''] are false. *)
Definition py_or (a : option string) (b : string) : string :=
  match a with
  | Some EmptyString | None => b
  | Some s => s
  end.

(** A directive that the interpreter reads as a statement: a string that,
    once stripped, starts with ["from "] or ["import "]. *)
Definition is_statement (s : string) : Prop :=
  Py.startswith "from " (Py.strip s) || Py.startswith "import " (Py.strip s)
  = true.

(** [name.split(".")[0]] *)
Definition top_level (name : string) : string :=
  default name (head (Py.split "."%char name)).

(* ===================================================================== *)
(** ** The monad of frames, exceptions and output *)
(* ===================================================================== *)

(** A run ends in a value or a raised exception, leaves the frame of
    mutable locals as it was at that point, and has printed some events. *)
Record run (F A : Type) := Run {
  result : outcome A;
  frame : F;
  printed : list event
}.
Arguments Run {F A} result frame printed.
Arguments result {F A} r.
Arguments frame {F A} r.
Arguments printed {F A} r.

Definition M (F A : Type) : Type := F → run F A.

Definition ret {F A} (a : A) : M F A := λ f, Run (Ok a) f [].

Definition raise {F A} (e : exn) : M F A := λ f, Run (Raise e) f [].

Definition bind {F A B} (m : M F A) (k : A → M F B) : M F B :=
  λ f, match m f with
       | Run (Ok a) f1 p1 =>
           match k a f1 with
           | Run r f2 p2 => Run r f2 (p1 ++ p2)
           end
       | Run (Raise e) f1 p1 => Run (Raise e) f1 p1
       end.

Notation "'let*' x := m 'in' k" := (bind m (λ x, k))
  (at level 10, x name, m at level 100, k at level 200).
Notation "m ;; k" := (bind m (λ _, k))
  (at level 100, k at level 200, right associativity).

(** Lift the outcome of a collaborator's call. *)
Definition lift {F A} (o : outcome A) : M F A := λ f, Run o f [].

Definition emit {F} (e : event) : M F unit := λ f, Run (Ok tt) f [e].

Definition print {F} (st : style) (text : message) : M F unit :=
  emit (Print st text).

Definition get_frame {F} : M F F := λ f, Run (Ok f) f [].

Definition modify {F} (g : F → F) : M F unit := λ f, Run (Ok tt) (g f) [].

(** [if c: m] *)
Definition when {F} (c : bool) (m : M F unit) : M F unit :=
  if c then m else ret tt.

(** [try: m except <catches> as e: h e]; a raise inside [h] escapes. *)
Definition try_except {F A} (m : M F A) (catches : exn → bool)
    (h : exn → M F A) : M F A :=
  λ f, match m f with
       | Run (Raise e) f1 p1 =>
           if catches e then
             match h e f1 with
             | Run r f2 p2 => Run r f2 (p1 ++ p2)
             end
           else Run (Raise e) f1 p1
       | r => r
       end.

(** [for x in l: body x], where [continue] is the end of [body]. *)
Fixpoint for_each {F A} (l : list A) (body : A → M F unit) : M F unit :=
  match l with
  | [] => ret tt
  | x :: l' => body x ;; for_each l' body
  end.

(** [fmt % v] for a format string with one conversion: a tuple operand is
    the argument list itself, so it has to hold exactly one item; any other
    operand is the single argument. *)
Definition percent {F} (v : pyval) : M F pyval :=
  match v with
  | PTuple [x] => ret x
  | PTuple _ => raise TypeError
  | _ => ret v
  end.

(** [m] keeps the invariant [I] of the frame, whether it returns or raises,
    and the values it returns satisfy [R]. *)
Definition keeps {F A} (I : F → Prop) (R : A → Prop) (m : M F A) : Prop :=
  ∀ f, I f → I (frame (m f)) ∧ ∀ a, result (m f) = Ok a → R a.

(** What [c] returns is the frame it leaves. *)
Definition returns_frame {F} (c : M F F) : Prop :=
  ∀ f a, result (c f) = Ok a → a = frame (c f).

(* ===================================================================== *)
(** ** The module *)
(* ===================================================================== *)

(** [SHELL_PLUS_DJANGO_IMPORTS], the module constant. *)
Definition SHELL_PLUS_DJANGO_IMPORTS : list pyval := [
  PStr "from django.core.cache import cache";
  PStr "from django.conf import settings";
  PStr "from django.contrib.auth import get_user_model";
  PStr "from django.db import transaction";
  PStr "from django.db.models import Avg, Case, Count, F, Max, Min, Prefetch, Q, Sum, When";
  PStr "from django.utils import timezone";
  PStr "from django.urls import reverse";
  PStr "from django.db.models import Exists, OuterRef, Subquery"
].

Section Shells.

(** *** Collaborators *)

(** Live Python objects. *)
Variable obj : Type.

(** [ast.parse]: the statements of the body, or [None] when it raises. *)
Variable ast_parse : string → option (list stmt).

(** The import system, taken as a fixed world: the module a dotted name
    resolves to, or the exception its import raises. *)
Variable find_module : string → outcome obj.

(** [dir(o)], and [getattr(o, k)] with [None] for [AttributeError].  The
    attributes of a module are those it has once its import, submodules of
    the from-list included, is complete. *)
Variable dir : obj → list string.
Variable getattr : obj → string → option obj.

(** [django.utils.module_loading.import_string] *)
Variable import_string : string → outcome obj.

(** [CollisionResolvingRunner().run_collision_resolver] *)
Variable run_collision_resolver :
  list (string * list string) → list (string * list (string * string)).

(** [SubclassesFinder(bases).collect_subclasses()] *)
Variable collect_subclasses : list pyval → list (string * list (string * string)).

(** *** Import primitives *)

(** [importlib.import_module(name)] *)
Definition import_module {F} (name : string) : M F obj :=
  lift (find_module name).

(** [__import__(name, {}, {}, fromlist)], which is [importlib.__import__]:
    a name that is not a [str] is a [TypeError]; the whole dotted path is
    imported; the result is the top-level package when the from-list is
    empty and the named module otherwise. *)
Definition __import__ {F} (name : option string) (fromlist : list string)
    : M F obj :=
  match name with
  | None => raise TypeError
  | Some name =>
      let* module := lift (find_module name) in
      match fromlist with
      | [] => lift (find_module (top_level name))
      | _ => ret module
      end
  end.

Definition py_getattr {F} (o : obj) (k : string) : M F obj :=
  match getattr o k with
  | Some v => ret v
  | None => raise AttributeError
  end.

(** *** import_items *)

(** The locals of [import_items] that outlive one iteration of its loop:
    the result dict, and [node], unbound until a directive has parsed. *)
Record items_frame := Items_frame {
  imported_objects : gmap string obj;
  node : option (list stmt)
}.

(** [imported_objects[k] = v] *)
Definition set_item (k : string) (v : obj) : M items_frame unit :=
  modify (λ f, Items_frame (<[k := v]> (imported_objects f)) (node f)).

(** [node = n] *)
Definition set_node (n : list stmt) : M items_frame unit :=
  modify (λ f, Items_frame (imported_objects f) (Some n)).

(** Reading [node]: an unbound local raises [UnboundLocalError]. *)
Definition read_node : M items_frame (list stmt) :=
  let* f := get_frame in
  match node f with
  | Some n => ret n
  | None => raise UnboundLocalError
  end.

(** [for k in dir(imported_object):
       imported_objects[k] = getattr(imported_object, k)] *)
Definition import_star (imported_object : obj) : M items_frame unit :=
  for_each (dir imported_object)
    (λ k, let* v := py_getattr imported_object k in set_item k v).

(** One [name] of an [ast.Import]. *)
Definition exec_import_name (name : alias) : M items_frame unit :=
  match a_asname name with
  | Some (String _ _ as asname) =>
      let* m := import_module (a_name name) in
      set_item asname m
  | _ =>
      let* _ := import_module (a_name name) in
      let top_level_name := top_level (a_name name) in
      let* m := import_module top_level_name in
      set_item top_level_name m
  end.

(** One [name] of an [ast.ImportFrom]. *)
Definition exec_from_name (module : option string) (imported_object : obj)
    (name : alias) : M items_frame unit :=
  let asname := py_or (a_asname name) (a_name name) in
  try_except
    (if String.eqb (a_name name) "*" then import_star imported_object
     else
       let* v := py_getattr imported_object (a_name name) in
       set_item asname v)
    is_AttributeError
    (λ exc,
       print PLAIN (Couldnt_find (a_name name) module (dir imported_object)) ;;
       raise ImportError).

(** [for body in node.body: ...] *)
Definition exec_stmt (body : stmt) : M items_frame unit :=
  match body with
  | Import names => for_each names exec_import_name
  | ImportFrom module names level =>
      let* imported_object := __import__ module (a_name <$> names) in
      for_each names (exec_from_name module imported_object)
  | OtherStmt => ret tt
  end.

(** A directive that starts with ["from "] or ["import "].  The [continue]
    of the parse handler is inside [if not quiet_load]: in quiet mode
    control falls through to the code that reads [node]. *)
Definition run_statement (quiet_load : bool) (directive : string)
    : M items_frame unit :=
  let after_parse : M items_frame unit :=
    let* n := read_node in
    if negb (forallb is_import n) then
      when (negb quiet_load)
        (print ERROR (Only_specify_import_statements directive))
    else
      when (negb quiet_load) (print SQL_COLTYPE (Statement directive)) ;;
      for_each n exec_stmt
  in
  match ast_parse directive with
  | Some n => set_node n ;; after_parse
  | None =>
      if negb quiet_load then print ERROR (Error_parsing directive)
      else after_parse
  end.

(** The loop over [directive[1]] of the form
    [('module.submodule', ('classname1', 'classname2'))]; the value is
    [imported_names]. *)
Fixpoint import_names (quiet_load : bool) (module : string)
    (imported_object : obj) (names : list string)
    : M items_frame (list string) :=
  match names with
  | [] => ret []
  | name :: names' =>
      let* found :=
        try_except
          (let* v := py_getattr imported_object name in
           set_item name v ;;
           ret true)
          is_AttributeError
          (λ _,
             when (negb quiet_load) (print ERROR (Does_not_exist name module)) ;;
             ret false)
      in
      let* imported_names := import_names quiet_load module imported_object names' in
      ret (if found : bool then name :: imported_names else imported_names)
  end.

(** The old-style directives. *)
Definition run_legacy (quiet_load : bool) (directive : pyval)
    : M items_frame unit :=
  emit Warn_deprecated ;;
  match directive with
  | PStr d =>
      let* imported_object := __import__ (Some d) [] in
      set_item (top_level d) imported_object ;;
      when (negb quiet_load) (print SQL_COLTYPE (Import_echo d))
  | _ =>
      match as_pair directive with
      | Some (d0, d1) =>
          match d0 with
          | PStr module =>
              match as_str_sequence d1 with
              | Some names =>
                  let* imported_object := __import__ (Some module) names in
                  let* imported_names :=
                    import_names quiet_load module imported_object names in
                  when (negb quiet_load)
                    (print SQL_COLTYPE
                       (From_import_echo module (Py.join ", " imported_names)))
              | None =>
                  match d1 with
                  | PStr name =>
                      if String.eqb name "*" then
                        let* imported_object := __import__ (Some module) ["*"] in
                        import_star imported_object ;;
                        when (negb quiet_load)
                          (print SQL_COLTYPE (From_import_echo module "*"))
                      else
                        let* m := __import__ (Some module) [name] in
                        let* imported_object := py_getattr m name in
                        set_item name imported_object ;;
                        when (negb quiet_load)
                          (print SQL_COLTYPE (From_import_echo module name))
                  | _ =>
                      when (negb quiet_load)
                        (print ERROR (Names_must_be_strings_in d1 d0))
                  end
              end
          | _ =>
              when (negb quiet_load)
                (let* shown := percent d0 in
                 print ERROR (Module_name_must_be_string shown))
          end
      | None =>
          when (negb quiet_load)
            (let* shown := percent directive in
             print ERROR (Names_must_be_strings shown))
      end
  end.

(** The body of [for directive in import_directives]. *)
Definition run_directive (quiet_load : bool) (directive : pyval)
    : M items_frame unit :=
  let directive :=
    match directive with
    | PStr s => PStr (Py.strip s)
    | _ => directive
    end in
  try_except
    (match directive with
     | PStr d =>
         if Py.startswith "from " d || Py.startswith "import " d
         then run_statement quiet_load d
         else run_legacy quiet_load directive
     | _ => run_legacy quiet_load directive
     end)
    is_ImportError
    (λ _,
       when (negb quiet_load)
         (let* shown := percent directive in
          print ERROR (Unable_to_import shown))).

(** [import_items(import_directives, style, quiet_load)]: the returned dict
    when the call returns, the exception when it raises. *)
Definition import_items (import_directives : list pyval) (quiet_load : bool)
    : run items_frame (gmap string obj) :=
  (for_each import_directives (run_directive quiet_load) ;;
   let* f := get_frame in
   ret (imported_objects f))
  (Items_frame ∅ None).

(** *** import_objects *)

(** ["%s.%s" % (a, b)] *)
Definition dotted (a b : string) : string := a +:+ "." +:+ b.

(** A model class, as far as discovery reads it. *)
Record model_class := Model_class { __name__ : string; __module__ : string }.

(** An [AppConfig]: the name of [app.models_module] ([None] when the
    application has no models module) and [app.get_models()]. *)
Record app_config := App_config {
  models_module : option string;
  get_models : list model_class
}.

(** The entries of [options] that the module reads. *)
Record options := Options {
  dont_load : list string;
  quiet_load : bool;
  traceback : bool
}.

(** The settings that the module reads; [SHELL_PLUS_DJANGO_IMPORTS_setting]
    is the truth value of the setting [SHELL_PLUS_DJANGO_IMPORTS]. *)
Record settings := Settings {
  SHELL_PLUS_DONT_LOAD : list string;
  SHELL_PLUS_MODEL_ALIASES : gmap string (gmap string string);
  SHELL_PLUS_APP_PREFIXES : gmap string string;
  SHELL_PLUS_PRE_IMPORTS : list pyval;
  SHELL_PLUS_SUBCLASSES_IMPORT : list pyval;
  SHELL_PLUS_DJANGO_IMPORTS_setting : bool;
  SHELL_PLUS_IMPORTS : list pyval;
  SHELL_PLUS_POST_IMPORTS : list pyval
}.

(** [apps.get_app_configs()] *)
Variable apps : list app_config.

(** [mongoengine.base._document_registry.items()], [None] when mongoengine
    cannot be imported. *)
Variable _document_registry : option (list (string * model_class)).

(** The body of [for name, mod in _document_registry.items()]. *)
Definition add_document (dont_load : list string)
    (load_models : list (string * list string))
    (item : string * model_class) : list (string * list string) :=
  let mod_ := item.2 in
  let name := default item.1 (last (Py.split "."%char item.1)) in
  let app_name := get_app_name (__module__ mod_) in
  if Py.contains app_name dont_load
     || Py.contains (dotted app_name name) dont_load
  then load_models
  else Py.setdefault_append (__module__ mod_) name load_models.

(** The body of [for mod in app_models]. *)
Definition add_model (dont_load : list string) (app_name : string)
    (load_models : list (string * list string))
    (mod_ : model_class) : list (string * list string) :=
  if Py.contains (dotted app_name (__name__ mod_)) dont_load then load_models
  else
    match __module__ mod_ with
    | EmptyString => load_models
    | String _ _ =>
        Py.setdefault_append (__module__ mod_) (__name__ mod_) load_models
    end.

(** The body of [for app_mod, app_models in get_apps_and_models()]; the
    generator yields only the applications that have a models module. *)
Definition add_app (dont_load : list string)
    (load_models : list (string * list string))
    (app : app_config) : list (string * list string) :=
  match models_module app with
  | None => load_models
  | Some app_mod =>
      match get_models app with
      | [] => load_models
      | app_models =>
          let app_name := get_app_name app_mod in
          if Py.contains app_name dont_load then load_models
          else foldl (add_model dont_load app_name) load_models app_models
      end
  end.

(** [load_models] as it stands after both discovery loops. *)
Definition discover (dont_load : list string) : list (string * list string) :=
  let dont_load_any_models := Py.contains "*" dont_load in
  let load_models := [] in
  let load_models :=
    match _document_registry with
    | Some registry =>
        if negb dont_load_any_models
        then foldl (add_document dont_load) load_models registry
        else load_models
    | None => load_models
    end in
  if negb dont_load_any_models
  then foldl (add_app dont_load) load_models apps
  else load_models.

(** The alias chosen for a model: the configured alias, else the prefixed
    name, else the name. *)
Definition alias_of (app_aliases : gmap string string) (prefix : option string)
    (model_name : string) : string :=
  match app_aliases !! model_name with
  | Some (String _ _ as alias) => alias
  | _ =>
      match prefix with
      | Some (String _ _ as prefix) => prefix +:+ "_" +:+ model_name
      | _ => model_name
      end
  end.

Definition get_dict_from_names_to_possible_models (dont_load : list string)
    (model_aliases : gmap string (gmap string string))
    (app_prefixes : gmap string string)
    (load_models : list (string * list string)) : list (string * list string) :=
  foldl
    (λ models_to_import item,
       let app_mod := item.1 in
       let app_name := get_app_name app_mod in
       let app_aliases := default ∅ (model_aliases !! app_name) in
       let prefix := app_prefixes !! app_name in
       foldl
         (λ models_to_import model_name,
            if Py.contains (dotted app_name model_name) dont_load
            then models_to_import
            else
              let alias := alias_of app_aliases prefix model_name in
              Py.setdefault_append alias (dotted app_mod model_name)
                models_to_import)
         models_to_import (Py.sorted Py.str_le item.2))
    [] (Py.sorted Py.key_le load_models).

(** The loop [for model_name, alias in sorted(models)]; the value is
    [model_labels]. *)
Fixpoint import_classes (opts : options) (full_module_path : string)
    (models : list (string * string)) : M (gmap string obj) (list string) :=
  match models with
  | [] => ret []
  | (model_name, alias) :: models' =>
      let* label :=
        try_except
          (let* v := lift (import_string (dotted full_module_path model_name)) in
           modify (insert alias v) ;;
           ret (Some (if String.eqb model_name alias then model_name
                      else model_name +:+ " (as " +:+ alias +:+ ")")))
          is_ImportError
          (λ e,
             when (traceback opts) (emit (Print_exc e)) ;;
             when (negb (quiet_load opts))
               (print ERROR (Failed_to_import model_name full_module_path e)) ;;
             ret None)
      in
      let* model_labels := import_classes opts full_module_path models' in
      ret (match label with
           | Some l => l :: model_labels
           | None => model_labels
           end)
  end.

Definition perform_automatic_imports (opts : options)
    (modules_to_classes : list (string * list (string * string)))
    : M (gmap string obj) unit :=
  for_each modules_to_classes
    (λ item,
       let full_module_path := item.1 in
       let* model_labels :=
         import_classes opts full_module_path (Py.sorted Py.pair_le item.2) in
       when (negb (quiet_load opts))
         (print SQL_COLTYPE
            (From_import_echo full_module_path (Py.join ", " model_labels)))).

Definition import_subclasses (opts : options) (conf : settings)
    : M (gmap string obj) unit :=
  match SHELL_PLUS_SUBCLASSES_IMPORT conf with
  | [] => ret tt
  | base_classes_to_import =>
      when (negb (quiet_load opts))
        (print SQL_TABLE (Header "# Shell Plus Subclasses Imports")) ;;
      perform_automatic_imports opts (collect_subclasses base_classes_to_import)
  end.

Definition import_models (opts : options) (conf : settings)
    (dont_load : list string) (load_models : list (string * list string))
    : M (gmap string obj) unit :=
  let modules_to_models :=
    run_collision_resolver
      (get_dict_from_names_to_possible_models dont_load
         (SHELL_PLUS_MODEL_ALIASES conf) (SHELL_PLUS_APP_PREFIXES conf)
         load_models) in
  perform_automatic_imports opts modules_to_models.

(** [imports = import_items(directives, style, quiet_load=quiet_load)
     for k, v in imports.items(): imported_objects[k] = v]
    preceded by the title of the phase. *)
Definition import_phase (quiet_load : bool) (title : string)
    (directives : list pyval) : M (gmap string obj) unit :=
  when (negb quiet_load) (print SQL_TABLE (Header title)) ;;
  let* imports :=
    (λ imported_objects,
       let r := import_items directives quiet_load in
       Run (result r) imported_objects (printed r)) in
  modify (λ imported_objects,
            map_fold (λ k v acc, <[k := v]> acc) imported_objects imports).

(** [if directives: ...] *)
Definition when_nonempty {A F} (l : list A) (m : M F unit) : M F unit :=
  match l with
  | [] => ret tt
  | _ => m
  end.

Definition import_objects (opts : options) (conf : settings)
    : run (gmap string obj) (gmap string obj) :=
  (let dont_load := dont_load opts ++ SHELL_PLUS_DONT_LOAD conf in
   let dont_load_any_models := Py.contains "*" dont_load in
   let quiet_load := quiet_load opts in
   when_nonempty (SHELL_PLUS_PRE_IMPORTS conf)
     (import_phase quiet_load "# Shell Plus User Pre Imports"
        (SHELL_PLUS_PRE_IMPORTS conf)) ;;
   let load_models := discover dont_load in
   import_subclasses opts conf ;;
   when (negb quiet_load)
     (print SQL_TABLE
        (Header ("# Shell Plus Model Imports"
                 +:+ (if dont_load_any_models then " SKIPPED" else "")))) ;;
   import_models opts conf dont_load load_models ;;
   when (SHELL_PLUS_DJANGO_IMPORTS_setting conf)
     (import_phase quiet_load "# Shell Plus Django Imports"
        SHELL_PLUS_DJANGO_IMPORTS) ;;
   when_nonempty (SHELL_PLUS_IMPORTS conf)
     (import_phase quiet_load "# Shell Plus User Imports"
        (SHELL_PLUS_IMPORTS conf)) ;;
   when_nonempty (SHELL_PLUS_POST_IMPORTS conf)
     (import_phase quiet_load "# Shell Plus User Post Imports"
        (SHELL_PLUS_POST_IMPORTS conf)) ;;
   let* imported_objects := get_frame in
   ret imported_objects)
  ∅.

(** *** Vocabulary of the properties *)

(** The objects that a successful import produces: a module the import
    system resolves, an attribute of such an object, and what
    [import_string] returns. *)
Inductive imported : obj → Prop :=
| imported_module name o :
    find_module name = Ok o → imported o
| imported_attribute o k v :
    imported o → getattr o k = Some v → imported v
| imported_string dotted_path o :
    import_string dotted_path = Ok o → imported o.

(** [names] bound, in order, to those attributes of [o] that exist. *)
Definition bind_attrs (o : obj) (names : list string)
    (m : gmap string obj) : gmap string obj :=
  foldl
    (λ m k, match getattr o k with Some v => <[k := v]> m | None => m end)
    m names.

(** The aliases of [models] bound, in order, to the classes of
    [full_module_path] that [import_string] returns. *)
Definition bind_classes (full_module_path : string)
    (models : list (string * string))
    (m : gmap string obj) : gmap string obj :=
  foldl
    (λ m model,
       match import_string (dotted full_module_path model.1) with
       | Ok v => <[model.2 := v]> m
       | Raise _ => m
       end)
    m models.

(** The same over every module of [modules_to_classes], each with its
    models in sorted order. *)
Definition bind_modules
    (modules_to_classes : list (string * list (string * string)))
    (m : gmap string obj) : gmap string obj :=
  foldl
    (λ m item, bind_classes item.1 (Py.sorted Py.pair_le item.2) m)
    m modules_to_classes.

(** The failures that the handler of the loop catches. *)
Definition failures_are_import_errors
    (modules_to_classes : list (string * list (string * string))) : Prop :=
  ∀ full_module_path models model_name alias e,
    (full_module_path, models) ∈ modules_to_classes →
    (model_name, alias) ∈ models →
    import_string (dotted full_module_path model_name) = Raise e →
    e = ImportError.

(** What a failed model leaves in the output. *)
Definition failure_shown (opts : options) (events : list event)
    (full_module_path model_name : string) (e : exn) : Prop :=
  (traceback opts = true → Print_exc e ∈ events)
  ∧ (quiet_load opts = false →
     Print ERROR (Failed_to_import model_name full_module_path e) ∈ events).

(** What each phase of [import_objects] is given to import. *)
Definition subclasses_to_import (conf : settings)
    : list (string * list (string * string)) :=
  match SHELL_PLUS_SUBCLASSES_IMPORT conf with
  | [] => []
  | base_classes_to_import => collect_subclasses base_classes_to_import
  end.

Definition models_to_import (opts : options) (conf : settings)
    : list (string * list (string * string)) :=
  let dont_load := dont_load opts ++ SHELL_PLUS_DONT_LOAD conf in
  run_collision_resolver
    (get_dict_from_names_to_possible_models dont_load
       (SHELL_PLUS_MODEL_ALIASES conf) (SHELL_PLUS_APP_PREFIXES conf)
       (discover dont_load)).

Definition django_imports (conf : settings) : list pyval :=
  if SHELL_PLUS_DJANGO_IMPORTS_setting conf then SHELL_PLUS_DJANGO_IMPORTS
  else [].

(** The invariant of the result dict, on both kinds of frame. *)
Definition all_imported (m : gmap string obj) : Prop :=
  map_Forall (λ _ v, imported v) m.

Definition items_imported (f : items_frame) : Prop :=
  all_imported (imported_objects f).

(** Where the bindings of [perform_automatic_imports] come from. *)
Definition provenance
    (modules_to_classes : list (string * list (string * string)))
    (m0 m : gmap string obj) : Prop :=
  ∀ k v,
    m !! k = Some v →
    m0 !! k = Some v
    ∨ ∃ full_module_path models model_name,
        (full_module_path, models) ∈ modules_to_classes
        ∧ (model_name, k) ∈ models
        ∧ import_string (dotted full_module_path model_name) = Ok v.

(** A computation that only adds bindings does the same over any dict
    put underneath. *)
Definition layered {A} (c : M (gmap string obj) A) : Prop :=
  ∀ m m0,
    c (m ∪ m0) = Run (result (c m)) (frame (c m) ∪ m0) (printed (c m)).

(** A model of the application registry that passes the denylist. *)
Definition admitted_model (dont_load : list string) (apps : list app_config)
    (module name : string) : Prop :=
  ∃ app app_mod model,
    app ∈ apps ∧ models_module app = Some app_mod ∧ model ∈ get_models app
    ∧ get_app_name app_mod ∉ dont_load
    ∧ dotted (get_app_name app_mod) (__name__ model) ∉ dont_load
    ∧ __module__ model ≠ ""
    ∧ module = __module__ model ∧ name = __name__ model.

(** A document of the document registry that passes the denylist. *)
Definition admitted_document (dont_load : list string)
    (registry : option (list (string * model_class)))
    (module name : string) : Prop :=
  ∃ documents key doc,
    registry = Some documents ∧ (key, doc) ∈ documents
    ∧ name = default key (last (Py.split "."%char key))
    ∧ get_app_name (__module__ doc) ∉ dont_load
    ∧ dotted (get_app_name (__module__ doc)) name ∉ dont_load
    ∧ module = __module__ doc.

(** [name in load_models[module]] *)
Definition in_load_models (load_models : list (string * list string))
    (module name : string) : Prop :=
  ∃ names, (module, names) ∈ load_models ∧ name ∈ names.

(** The statement that the docstring of [import_items] gives for each
    old-style directive:
    ['module.submodule'] is [import module.submodule],
    [('module', 'name')] is [from module import name],
    [('module', '*')] is [from module import *],
    [('module', ('name1', 'name2'))] is [from module import name1, name2];
    an empty sequence of names has no statement. *)
Definition equivalent_statement (directive : pyval) : option stmt :=
  match directive with
  | PStr module => Some (Import [Alias (Py.strip module) None])
  | _ =>
      match as_pair directive with
      | Some (PStr module, PStr name) =>
          Some (ImportFrom (Some module) [Alias name None] 0)
      | Some (PStr module, names) =>
          match as_str_sequence names with
          | Some ((_ :: _) as names) =>
              Some (ImportFrom (Some module) ((λ n, Alias n None) <$> names) 0)
          | _ => None
          end
      | _ => None
      end
  end.

(** A directive that the interpreter reads as old-style. *)
Definition old_style (directive : pyval) : Prop :=
  match directive with
  | PStr d => ¬ is_statement d
  | _ => True
  end.

(** An old-style pair whose module imports and whose requested names are
    all there: for ['*'] the names [dir] lists, for a sequence of names
    each of them, ['*'] not being one. *)
Definition resolvable (directive : pyval) : Prop :=
  match directive with
  | PStr _ => True
  | _ =>
      match as_pair directive with
      | Some (PStr module, d1) =>
          ∃ o, find_module module = Ok o ∧
               match as_str_sequence d1 with
               | Some names =>
                   "*" ∉ names ∧ Forall (λ k, is_Some (getattr o k)) names
               | None =>
                   match d1 with
                   | PStr name =>
                       if String.eqb name "*"
                       then Forall (λ k, is_Some (getattr o k)) (dir o)
                       else is_Some (getattr o name)
                   | _ => False
                   end
               end
      | _ => False
      end
  end.

(** *** Vocabulary of the further properties *)

(** A computation of [import_items] that leaves [node] alone and whose
    only use of the result dict is to add bindings: over a dict with more
    bindings underneath, and whatever [node] is, it does the same. *)
Definition oblivious {A} (c : M items_frame A) : Prop :=
  ∀ m m0 n n',
    c (Items_frame (m ∪ m0) n')
    = Run (result (c (Items_frame m n)))
        (Items_frame (imported_objects (frame (c (Items_frame m n))) ∪ m0) n')
        (printed (c (Items_frame m n))).

(** The same for a computation that may also assign [node]. *)
Definition stacks {A} (c : M items_frame A) : Prop :=
  ∀ m m0 n n',
    result (c (Items_frame (m ∪ m0) n')) = result (c (Items_frame m n))
    ∧ printed (c (Items_frame (m ∪ m0) n')) = printed (c (Items_frame m n))
    ∧ imported_objects (frame (c (Items_frame (m ∪ m0) n')))
      = imported_objects (frame (c (Items_frame m n))) ∪ m0.

(** A directive that cannot reach the read of a stale [node]: the mode is
    not quiet, or the directive is no statement, or it parses. *)
Definition parses_or_reports (quiet_load : bool) (directive : pyval) : Prop :=
  quiet_load = false
  ∨ match directive with
    | PStr s => is_statement s → is_Some (ast_parse (Py.strip s))
    | _ => True
    end.

(** An old-style directive of a shape that no branch imports from: no
    string, and no pair of a module string with a name, a [*] or a
    sequence of names. *)
Definition malformed (directive : pyval) : Prop :=
  as_str directive = None
  ∧ match as_pair directive with
    | Some (d0, d1) =>
        as_str d0 = None ∨ (as_str_sequence d1 = None ∧ as_str d1 = None)
    | None => True
    end.

(** The name under which a from-import binds: [name.asname or name.name]. *)
Definition target (name : alias) : string :=
  py_or (a_asname name) (a_name name).

(** The targets of [names] bound, in order, to the attributes of [o]
    that exist. *)
Definition bind_targets (o : obj) (names : list alias)
    (m : gmap string obj) : gmap string obj :=
  foldl
    (λ m name,
       match getattr o (a_name name) with
       | Some v => <[target name := v]> m
       | None => m
       end)
    m names.

(** The names that a from-import over [o] resolves without the star. *)
Definition plain_resolved (o : obj) (names : list alias) : Prop :=
  Forall (λ name, a_name name ≠ "*" ∧ is_Some (getattr o (a_name name))) names.

(** What the output of a quiet run may hold: the deprecation warning, the
    unconditional line of a missing from-import name, and tracebacks when
    they are asked for. *)
Definition quiet_event (traceback : bool) (e : event) : Prop :=
  e = Warn_deprecated
  ∨ (∃ name module found, e = Print PLAIN (Couldnt_find name module found))
  ∨ (traceback = true ∧ ∃ exc, e = Print_exc exc).

(** Every event that [c] prints satisfies [P]. *)
Definition emits {F A} (P : event → Prop) (c : M F A) : Prop :=
  ∀ f, Forall P (printed (c f)).

(** Every exception that [c] raises satisfies [P]. *)
Definition raises_only {F A} (P : exn → Prop) (c : M F A) : Prop :=
  ∀ f e, result (c f) = Raise e → P e.

(** The pairs of a key and one of its values that a dict of lists holds. *)
Definition entries (d : list (string * list string)) : list (string * string) :=
  d ≫= λ item, (λ v, (item.1, v)) <$> item.2.

(** A registry in which every model is defined in the models module of
    its application. *)
Definition standard_layout (apps : list app_config) : Prop :=
  ∀ app app_mod model,
    app ∈ apps → models_module app = Some app_mod →
    model ∈ get_models app → __module__ model = app_mod.

End Shells.

Arguments imported_objects {obj} i.
Arguments node {obj} i.
Arguments Items_frame {obj} imported_objects node.

(* ===================================================================== *)
(** ** A concrete world *)
(* ===================================================================== *)

(** A small installation on which the functions above can be run: a table
    of modules with their attributes, a parser for the import statements of
    Python's grammar, and two applications with their models. *)
Module Demo.

Inductive obj :=
| Module (name : string)
| Value (qualname : string).

(** The modules that exist, each with its namespace in [dir] order. *)
Definition modules : list (string * list (string * obj)) := [
  ("os", [("getcwd", Value "os.getcwd"); ("path", Module "os.path");
          ("sep", Value "os.sep")]);
  ("os.path", [("join", Value "os.path.join"); ("sep", Value "os.path.sep")]);
  ("json", [("dumps", Value "json.dumps"); ("loads", Value "json.loads")]);
  ("library", [("models", Module "library.models")]);
  ("library.models", [("Author", Value "library.models.Author");
                      ("Book", Value "library.models.Book")]);
  ("helpers", [("Book", Value "helpers.Book")])
].

Definition find_module (name : string) : outcome obj :=
  match name with
  | EmptyString => Raise ValueError
  | _ =>
      match Py.get name modules with
      | Some _ => Ok (Module name)
      | None => Raise ImportError
      end
  end.

Definition namespace (o : obj) : list (string * obj) :=
  match o with
  | Module name => default [] (Py.get name modules)
  | Value _ => []
  end.

Definition dir (o : obj) : list string := (namespace o).*1.

Definition getattr (o : obj) (k : string) : option obj := Py.get k (namespace o).

(** Django's [import_string]: split at the last dot, import the module,
    fetch the attribute; every failure is an [ImportError]. *)
Definition import_string (dotted_path : string) : outcome obj :=
  match rev (Py.split "."%char dotted_path) with
  | class_name :: ((_ :: _) as rmodule) =>
      match find_module (Py.join "." (rev rmodule)) with
      | Ok m =>
          match getattr m class_name with
          | Some v => Ok v
          | None => Raise ImportError
          end
      | Raise _ => Raise ImportError
      end
  | _ => Raise ImportError
  end.

(** **** A parser for import statements *)

Definition is_name_char (c : ascii) : bool :=
  let n := nat_of_ascii c in
  ((48 <=? n) && (n <=? 57)) || ((65 <=? n) && (n <=? 90))
  || ((97 <=? n) && (n <=? 122)) || (n =? 95).

Definition is_digit (c : ascii) : bool :=
  let n := nat_of_ascii c in (48 <=? n) && (n <=? 57).

Definition is_identifier (s : string) : bool :=
  match s with
  | EmptyString => false
  | String c _ =>
      negb (is_digit c) && forallb is_name_char (String.list_ascii_of_string s)
      && negb (bool_decide (s ∈ ["as"; "from"; "import"]))
  end.

Definition is_dotted_name (s : string) : bool :=
  forallb is_identifier (Py.split "."%char s).

(** Words, with [,] and [;] as words of their own. *)
Fixpoint tokens (word : string) (s : string) : list string :=
  let flush := match word with EmptyString => [] | _ => [String.rev word] end in
  match s with
  | EmptyString => flush
  | String c s' =>
      if Py.isspace c then flush ++ tokens "" s'
      else if Ascii.eqb c ","%char then flush ++ "," :: tokens "" s'
      else if Ascii.eqb c ";"%char then flush ++ ";" :: tokens "" s'
      else tokens (String c word) s'
  end.

(** [name], [name as asname], separated by commas. *)
Fixpoint parse_aliases (is_name : string → bool) (fuel : nat)
    (ts : list string) : option (list alias) :=
  match fuel with
  | 0 => None
  | S fuel =>
      match ts with
      | [n] => if is_name n then Some [Alias n None] else None
      | [n; "as"; a] =>
          if is_name n && is_identifier a then Some [Alias n (Some a)] else None
      | n :: "," :: ts' =>
          if is_name n then (Alias n None ::.) <$> parse_aliases is_name fuel ts'
          else None
      | n :: "as" :: a :: "," :: ts' =>
          if is_name n && is_identifier a
          then (Alias n (Some a) ::.) <$> parse_aliases is_name fuel ts'
          else None
      | _ => None
      end
  end.

(** The leading dots of a relative module and the rest. *)
Fixpoint relative (s : string) : nat * string :=
  match s with
  | String "." s' => let '(n, r) := relative s' in (S n, r)
  | _ => (0, s)
  end.

Definition parse_statement (ts : list string) : option stmt :=
  match ts with
  | "import" :: ts' => Import <$> parse_aliases is_dotted_name (length ts) ts'
  | "from" :: m :: "import" :: ts' =>
      let '(level, name) := relative m in
      let module := match name with EmptyString => None | _ => Some name end in
      if match module with
         | Some name => is_dotted_name name
         | None => negb (level =? 0)
         end
      then
        match ts' with
        | ["*"] => Some (ImportFrom module [Alias "*" None] level)
        | _ =>
            names ← parse_aliases is_identifier (length ts) ts';
            Some (ImportFrom module names level)
        end
      else None
  | [] => None
  | w :: _ => if is_identifier w then Some OtherStmt else None
  end.

(** Statements separated by [;]. *)
Fixpoint split_statements (cur : list string) (ts : list string)
    : list (list string) :=
  match ts with
  | [] => [rev cur]
  | ";" :: ts' => rev cur :: split_statements [] ts'
  | t :: ts' => split_statements (t :: cur) ts'
  end.

Definition ast_parse (source : string) : option (list stmt) :=
  mapM parse_statement (split_statements [] (tokens "" source)).

(** **** Registry and collaborators *)

Definition apps : list app_config := [
  App_config (Some "library.models")
    [Model_class "Author" "library.models"; Model_class "Book" "library.models"];
  App_config (Some "helpers.models") [Model_class "Book" "helpers"];
  App_config None []
].

(** A resolver that keeps the first candidate of every name. *)
Definition run_collision_resolver (names : list (string * list string))
    : list (string * list (string * string)) :=
  foldl
    (λ acc item,
       match item.2 with
       | path :: _ =>
           match rev (Py.split "."%char path) with
           | model_name :: rmodule =>
               Py.setdefault_append (Py.join "." (rev rmodule))
                 (model_name, item.1) acc
           | [] => acc
           end
       | [] => acc
       end)
    [] names.

Definition collect_subclasses (bases : list pyval)
    : list (string * list (string * string)) := [].

Definition import_items :=
  import_items obj ast_parse find_module dir getattr.

Definition import_objects :=
  import_objects obj ast_parse find_module dir getattr import_string
    run_collision_resolver collect_subclasses.

Definition perform_automatic_imports :=
  perform_automatic_imports obj import_string.

Definition no_settings : settings :=
  Settings [] ∅ ∅ [] [] false [] [].

End Demo.

(* ===================================================================== *)
(** ** Properties of [get_app_name] *)
(* ===================================================================== *)

(** The doctests of the function. *)
Example get_app_name_doc1 : get_app_name "testapp.models.foo" = "testapp".
Proof. reflexivity. Qed.
Example get_app_name_doc2 :
  get_app_name "some.models.testapp.models.foo" = "testapp".
Proof. reflexivity. Qed.
Example get_app_name_doc3 : get_app_name "some.testapp.foo" = "testapp".
Proof. reflexivity. Qed.

(** Closes [x ∉ [a; b; ...]] for distinct literals. *)
Ltac list_notin :=
  let H := fresh in
  intros H;
  repeat (apply elem_of_cons in H as [H|H]; [discriminate H|]);
  by apply elem_of_nil in H.

Section GetAppName.

Lemma index_absent x l : x ∉ l → Py.index x l = None.
Proof.
  induction l as [|y l IH]; intros Hx; [done|].
  apply not_elem_of_cons in Hx as [Hne Hl]. simpl.
  destruct (String.eqb_spec y x) as [->|_]; [done|].
  by rewrite IH.
Qed.

Lemma index_first x l1 l2 :
  x ∉ l1 → Py.index x (l1 ++ x :: l2) = Some (length l1).
Proof.
  induction l1 as [|y l1 IH]; intros Hx; simpl.
  - by rewrite String.eqb_refl.
  - apply not_elem_of_cons in Hx as [Hne Hl].
    destruct (String.eqb_spec y x) as [->|_]; [done|].
    by rewrite IH.
Qed.

(** The path read backwards, when its last [models] segment is known. *)
Lemma rparts_models before after :
  MODELS_MODULE_NAME ∉ after →
  Py.index MODELS_MODULE_NAME (rev (before ++ MODELS_MODULE_NAME :: after))
  = Some (length after).
Proof.
  intros Hafter. rewrite rev_app_distr. simpl. rewrite <- app_assoc. simpl.
  rewrite index_first; [by rewrite length_rev|].
  by rewrite list_elem_of_In, <- in_rev, <- list_elem_of_In.
Qed.

Lemma rparts_lookup before after i :
  rev (before ++ MODELS_MODULE_NAME :: after) !! (length after + 1 + i)
  = rev before !! i.
Proof.
  rewrite rev_app_distr. simpl. rewrite <- app_assoc. simpl.
  rewrite lookup_app_r; rewrite length_rev; [|lia].
  by replace (length after + 1 + i - length after) with (S i) by lia.
Qed.

End GetAppName.

(** C2 (as amended).  Let the dotted path be cut into its segments.  When a
    [models] segment exists and the last one has a segment before it,
    [get_app_name] returns that preceding segment; when the last [models]
    segment is the first segment of the path, it returns the whole path;
    when there is no [models] segment it returns the second-to-last
    segment, or the whole path when the path has a single segment.  The
    three paths of the specification all give ["testapp"]. *)
Theorem get_app_name_rule (mod_name : string) :
  let parts := Py.split "."%char mod_name in
  (∀ before seg after,
     parts = before ++ [seg] ++ MODELS_MODULE_NAME :: after →
     MODELS_MODULE_NAME ∉ after →
     get_app_name mod_name = seg)
  ∧ (∀ after,
       parts = MODELS_MODULE_NAME :: after →
       MODELS_MODULE_NAME ∉ after →
       get_app_name mod_name = mod_name)
  ∧ (∀ before seg final,
       parts = before ++ [seg; final] →
       MODELS_MODULE_NAME ∉ parts →
       get_app_name mod_name = seg)
  ∧ (∀ only,
       parts = [only] →
       only ≠ MODELS_MODULE_NAME →
       get_app_name mod_name = mod_name)
  ∧ get_app_name "testapp.models.Foo" = "testapp"
  ∧ get_app_name "a.b.testapp.models.Foo" = "testapp"
  ∧ get_app_name "testapp.Foo" = "testapp".
Proof.
  intros parts. unfold get_app_name. fold parts.
  split; [|split; [|split; [|split]]].
  - intros before seg after -> Hafter.
    rewrite (app_assoc before [seg]), rparts_models by done.
    rewrite <- (Nat.add_0_r (length after + 1)), rparts_lookup.
    by rewrite rev_app_distr.
  - intros after -> Hafter.
    change (MODELS_MODULE_NAME :: after) with ([] ++ MODELS_MODULE_NAME :: after).
    rewrite rparts_models by done.
    rewrite <- (Nat.add_0_r (length after + 1)), rparts_lookup.
    done.
  - intros before seg final Hparts Hno.
    rewrite index_absent.
    + rewrite Hparts, rev_app_distr. done.
    + by rewrite list_elem_of_In, <- in_rev, <- list_elem_of_In.
  - intros only -> Hne. simpl.
    destruct (String.eqb_spec only MODELS_MODULE_NAME); done.
  - done.
Qed.

(** The rule at work on the three layouts it tells apart. *)
Lemma get_app_name_rule_witness :
  get_app_name "some.models.testapp.models.foo" = "testapp"
  ∧ get_app_name "models.Foo" = "models.Foo"
  ∧ get_app_name "some.testapp.foo" = "testapp"
  ∧ get_app_name "sentry" = "sentry".
Proof.
  destruct (get_app_name_rule "some.models.testapp.models.foo")
    as (H1 & _).
  destruct (get_app_name_rule "models.Foo") as (_ & H2 & _).
  destruct (get_app_name_rule "some.testapp.foo") as (_ & _ & H3 & _).
  destruct (get_app_name_rule "sentry") as (_ & _ & _ & H4 & _).
  split; [|split; [|split]].
  - apply (H1 ["some"; "models"] "testapp" ["foo"]); [reflexivity|list_notin].
  - apply (H2 ["Foo"]); [reflexivity|list_notin].
  - apply (H3 ["some"] "testapp" "foo"); [reflexivity|cbn; list_notin].
  - apply (H4 "sentry"); [reflexivity|discriminate].
Defined.

(** C2 fails as it is worded.  In ["testapp.models.Foo"] the segment that
    follows the last [models] segment is ["Foo"], and the result is the
    segment before it; in ["models.Foo"] a [models] segment exists and the
    path is long enough for the second-to-last fallback, and the result is
    neither a neighbour of [models] nor that fallback but the whole path. *)
Lemma get_app_name_not_following :
  Py.split "."%char "testapp.models.Foo" = ["testapp"; "models"; "Foo"]
  ∧ get_app_name "testapp.models.Foo" ≠ "Foo"
  ∧ Py.split "."%char "models.Foo" = ["models"; "Foo"]
  ∧ get_app_name "models.Foo" ≠ "Foo"
  ∧ get_app_name "models.Foo" ≠ "models".
Proof. repeat split; discriminate. Qed.

(* ===================================================================== *)
(** ** Properties of [import_items] *)
(* ===================================================================== *)

(** Unfolds the monad and the import primitives, not the loops. *)
Ltac unfold_run :=
  cbv beta iota zeta delta
    [bind ret raise lift emit print get_frame modify when try_except percent
     import_module __import__ py_getattr set_item set_node read_node
     result frame printed imported_objects node negb andb
     is_ImportError is_AttributeError is_import forallb py_or];
  cbn [a_name a_asname].

(** Unfolds [import_items] down to the loops over names. *)
Ltac unfold_items :=
  cbv beta iota zeta delta
    [import_items run_directive run_statement run_legacy exec_stmt
     exec_import_name as_pair as_sequence];
  cbn [for_each];
  unfold_run.

(** Unfolds the body of the from-import loop, not the [*] loop in it. *)
Ltac unfold_from_name :=
  cbv beta iota zeta delta [exec_from_name]; unfold_run.

Lemma as_pair_inv directive d0 d1 :
  as_pair directive = Some (d0, d1) →
  directive = PTuple [d0; d1] ∨ directive = PList [d0; d1].
Proof.
  destruct directive as [?|[|? [|? [|? ?]]]|[|? [|? [|? ?]]]|?]; simpl;
    intros [= <- <-]; auto.
Qed.

Lemma as_str_sequence_str s : as_str_sequence (PStr s) = None.
Proof. done. Qed.

Section ImportItems.

Context (obj : Type) (ast_parse : string → option (list stmt))
  (find_module : string → outcome obj)
  (dir : obj → list string) (getattr : obj → string → option obj).

Lemma import_names_cons q module o name names' :
  import_names obj getattr q module o (name :: names')
  = (let* found :=
       try_except
         (let* v := py_getattr obj getattr o name in
          set_item obj name v ;;
          ret true)
         is_AttributeError
         (λ _,
            when (negb q) (print ERROR (Does_not_exist name module)) ;;
            ret false)
     in
     let* imported_names := import_names obj getattr q module o names' in
     ret (if found : bool then name :: imported_names else imported_names)).
Proof. done. Qed.

Local Abbreviation import_items := (import_items obj ast_parse find_module dir getattr).
Local Abbreviation run_directive := (run_directive obj ast_parse find_module dir getattr).
Local Abbreviation run_statement := (run_statement obj ast_parse find_module dir getattr).
Local Abbreviation run_legacy := (run_legacy obj find_module dir getattr).
Local Abbreviation exec_stmt := (exec_stmt obj find_module dir getattr).
Local Abbreviation exec_from_name := (exec_from_name obj dir getattr).
Local Abbreviation import_star := (import_star obj dir getattr).
Local Abbreviation import_names := (import_names obj getattr).
Local Abbreviation bind_attrs := (bind_attrs obj getattr).
Local Abbreviation resolvable := (resolvable obj find_module dir getattr).
Local Abbreviation __import__ := (__import__ obj find_module).

Implicit Types (f : items_frame obj) (o : obj) (m : gmap string obj).

Lemma bind_attrs_cons o k l m :
  bind_attrs o (k :: l) m
  = bind_attrs o l (match getattr o k with Some v => <[k := v]> m | None => m end).
Proof. done. Qed.

(** With every name resolved, the binding loop over plain names ends
    normally in [bind_attrs]. *)
Lemma for_each_attrs o l f :
  Forall (λ k, is_Some (getattr o k)) l →
  for_each l (λ k, let* v := py_getattr obj getattr o k in set_item obj k v) f
  = Run (Ok ()) (Items_frame (bind_attrs o l (imported_objects f)) (node f)) [].
Proof.
  intros Hall. revert f.
  induction Hall as [|k l [v Hv] _ IH]; intros f.
  - by destruct f.
  - cbn [for_each]. rewrite bind_attrs_cons.
    unfold bind at 1. unfold bind at 1. unfold py_getattr, set_item, modify, ret.
    rewrite Hv. rewrite IH. done.
Qed.

Lemma import_star_resolved o f :
  Forall (λ k, is_Some (getattr o k)) (dir o) →
  import_star o f
  = Run (Ok ()) (Items_frame (bind_attrs o (dir o) (imported_objects f)) (node f)) [].
Proof. apply for_each_attrs. Qed.

(** The from-import loop of a statement over plain, resolved names. *)
Lemma for_each_from_names module o names f :
  "*" ∉ names →
  Forall (λ k, is_Some (getattr o k)) names →
  for_each ((λ n, Alias n None) <$> names) (exec_from_name module o) f
  = Run (Ok ()) (Items_frame (bind_attrs o names (imported_objects f)) (node f)) [].
Proof.
  intros Hstar Hall. revert f.
  induction Hall as [|k l [v Hv] _ IH]; intros f.
  - by destruct f.
  - apply not_elem_of_cons in Hstar as [Hk Hl].
    cbn [for_each fmap list_fmap]. rewrite bind_attrs_cons.
    unfold bind at 1. unfold_from_name.
    destruct (String.eqb_spec k "*") as [->|_]; [done|].
    rewrite Hv. rewrite IH by done. done.
Qed.

(** The loop of the old-style name sequence over resolved names. *)
Lemma import_names_resolved q module o names f :
  Forall (λ k, is_Some (getattr o k)) names →
  import_names q module o names f
  = Run (Ok names) (Items_frame (bind_attrs o names (imported_objects f)) (node f)) [].
Proof.
  intros Hall. revert f.
  induction Hall as [|k l [v Hv] _ IH]; intros f.
  - by destruct f.
  - rewrite import_names_cons, bind_attrs_cons.
    unfold bind at 1. unfold_run. rewrite Hv.
    rewrite IH. done.
Qed.

(** C10.  A statement [import X.Y] without an alias imports the full
    path [X.Y] and binds exactly the top-level name [X], to the top-level
    module; when the full path cannot be imported nothing is bound.  With
    an alias, [import X.Y as Z] binds exactly [Z], to the module [X.Y]. *)
Theorem import_binds_top_level_or_alias (s name : string) (q : bool) :
  is_statement s →
  (∀ full top,
     ast_parse (Py.strip s) = Some [Import [Alias name None]] →
     find_module name = Ok full →
     find_module (top_level name) = Ok top →
     result (import_items [PStr s] q) = Ok {[ top_level name := top ]})
  ∧ (∀ e,
       ast_parse (Py.strip s) = Some [Import [Alias name None]] →
       find_module name = Raise e →
       imported_objects (frame (import_items [PStr s] q)) = ∅)
  ∧ (∀ c z full,
       ast_parse (Py.strip s) = Some [Import [Alias name (Some (String c z))]] →
       find_module name = Ok full →
       result (import_items [PStr s] q) = Ok {[ String c z := full ]}).
Proof.
  unfold is_statement. intros Hs. split; [|split].
  - intros full top Hparse Hfull Htop.
    unfold_items. rewrite Hs. unfold_items. rewrite Hparse. unfold_items.
    destruct q; unfold_items; rewrite Hfull, Htop; done.
  - intros e Hparse Hfull.
    unfold_items. rewrite Hs. unfold_items. rewrite Hparse. unfold_items.
    destruct q; unfold_items; rewrite Hfull; by destruct e.
  - intros c z full Hparse Hfull.
    unfold_items. rewrite Hs. unfold_items. rewrite Hparse. unfold_items.
    destruct q; unfold_items; rewrite Hfull; done.
Qed.

Lemma bind_attrs_lookup o l m k :
  bind_attrs o l m !! k
  = if decide (k ∈ l)
    then match getattr o k with Some v => Some v | None => m !! k end
    else m !! k.
Proof.
  revert m. induction l as [|a l IH]; intros m.
  - done.
  - rewrite bind_attrs_cons, IH.
    destruct (decide (k = a)) as [->|Hne].
    + rewrite (decide_True (P := a ∈ a :: l)) by apply list_elem_of_here.
      destruct (getattr o a) as [v|] eqn:Hv; [|by destruct (decide _)].
      rewrite lookup_insert_eq. by destruct (decide _).
    + assert (m' : match getattr o a with Some v => <[a := v]> m | None => m end !! k
                   = m !! k).
      { destruct (getattr o a); [by rewrite lookup_insert_ne|done]. }
      rewrite m'.
      destruct (decide (k ∈ l)) as [Hin|Hnin].
      * by rewrite decide_True by (by apply list_elem_of_further).
      * rewrite decide_False; [done|].
        intros [?|?]%elem_of_cons; done.
Qed.

Lemma bind_attrs_resolved o l m k :
  Forall (λ k, is_Some (getattr o k)) l →
  k ∈ l → bind_attrs o l m !! k = getattr o k.
Proof.
  intros Hall Hin. rewrite bind_attrs_lookup, decide_True by done.
  rewrite Forall_forall in Hall. by destruct (Hall k Hin) as [v ->].
Qed.

(** The result of [from module import *] and of [('module', '*')]. *)
Lemma star_statement_result s module level o q :
  is_statement s →
  ast_parse (Py.strip s) = Some [ImportFrom (Some module) [Alias "*" None] level] →
  find_module module = Ok o →
  Forall (λ k, is_Some (getattr o k)) (dir o) →
  result (import_items [PStr s] q) = Ok (bind_attrs o (dir o) ∅).
Proof.
  unfold is_statement. intros Hs Hparse Hmod Hdir.
  unfold_items. rewrite Hs. unfold_items. rewrite Hparse. unfold_items.
  destruct q; unfold_items; rewrite Hmod;
    cbn [fmap list_fmap]; unfold_from_name;
    change (String.eqb "*" "*") with true; cbv beta iota;
    rewrite import_star_resolved by done; done.
Qed.

Lemma star_pair_result directive module o q :
  as_pair directive = Some (PStr module, PStr "*") →
  find_module module = Ok o →
  Forall (λ k, is_Some (getattr o k)) (dir o) →
  result (import_items [directive] q) = Ok (bind_attrs o (dir o) ∅).
Proof.
  intros Hpair Hmod Hdir.
  apply as_pair_inv in Hpair as [->| ->];
    unfold_items; rewrite as_str_sequence_str;
    change (String.eqb "*" "*") with true; cbv beta iota;
    rewrite Hmod; cbv beta iota;
    rewrite import_star_resolved by done; destruct q; done.
Qed.

(** The result of [from module import name] and of [('module', 'name')]. *)
Lemma name_statement_result s module name level o v q :
  name ≠ "*" →
  is_statement s →
  ast_parse (Py.strip s) = Some [ImportFrom (Some module) [Alias name None] level] →
  find_module module = Ok o →
  getattr o name = Some v →
  result (import_items [PStr s] q) = Ok {[ name := v ]}.
Proof.
  unfold is_statement. intros Hname Hs Hparse Hmod Hv.
  apply String.eqb_neq in Hname.
  unfold_items. rewrite Hs. unfold_items. rewrite Hparse. unfold_items.
  destruct q; unfold_items; rewrite Hmod;
    cbn [fmap list_fmap]; unfold_from_name;
    rewrite Hname; unfold_run; rewrite Hv; done.
Qed.

Lemma name_pair_result directive module name o v q :
  name ≠ "*" →
  as_pair directive = Some (PStr module, PStr name) →
  find_module module = Ok o →
  getattr o name = Some v →
  result (import_items [directive] q) = Ok {[ name := v ]}.
Proof.
  intros Hname Hpair Hmod Hv. apply String.eqb_neq in Hname.
  apply as_pair_inv in Hpair as [->| ->];
    unfold_items; rewrite as_str_sequence_str, Hname; cbv beta iota;
    rewrite Hmod; cbv beta iota; rewrite Hv; destruct q; done.
Qed.

(** C8.  A [*] directive whose module imports binds every name that
    [dir] reports for the module, public or not, to the value [getattr]
    gives for it, as a statement and as an old-style pair alike. *)
Theorem star_binds_every_name (s module : string) (level : nat)
    (directive : pyval) (o : obj) (q : bool) :
  find_module module = Ok o →
  Forall (λ k, is_Some (getattr o k)) (dir o) →
  (is_statement s →
   ast_parse (Py.strip s) = Some [ImportFrom (Some module) [Alias "*" None] level] →
   ∃ m, result (import_items [PStr s] q) = Ok m
        ∧ ∀ k, k ∈ dir o → m !! k = getattr o k)
  ∧ (as_pair directive = Some (PStr module, PStr "*") →
     ∃ m, result (import_items [directive] q) = Ok m
          ∧ ∀ k, k ∈ dir o → m !! k = getattr o k).
Proof.
  intros Hmod Hdir. split.
  - intros Hs Hparse. exists (bind_attrs o (dir o) ∅).
    split; [by eapply star_statement_result|].
    by intros; apply bind_attrs_resolved.
  - intros Hpair. exists (bind_attrs o (dir o) ∅).
    split; [by eapply star_pair_result|].
    by intros; apply bind_attrs_resolved.
Qed.

(** The old-style pair over a name sequence and its statement. *)
Lemma name_sequence_matches module d1 names o s q directive :
  as_pair directive = Some (PStr module, d1) →
  as_str_sequence d1 = Some names →
  names ≠ [] →
  find_module module = Ok o →
  "*" ∉ names →
  Forall (λ k, is_Some (getattr o k)) names →
  is_statement s →
  ast_parse (Py.strip s)
  = Some [ImportFrom (Some module) ((λ n, Alias n None) <$> names) 0] →
  result (import_items [directive] q) = Ok (bind_attrs o names ∅)
  ∧ result (import_items [PStr s] q) = Ok (bind_attrs o names ∅).
Proof.
  unfold is_statement. intros Hpair Hseq Hne Hmod Hstar Hall Hs Hparse. split.
  - apply as_pair_inv in Hpair as [->| ->];
      unfold_items; rewrite Hseq; cbv beta iota; rewrite Hmod;
      (destruct names as [|n names]; [done|]); cbv beta iota;
      rewrite import_names_resolved by done; destruct q; done.
  - unfold_items. rewrite Hs. unfold_items. rewrite Hparse. unfold_items.
    assert (∃ x l, a_name <$> ((λ n, Alias n None) <$> names) = x :: l)
      as (x & l & Hcons) by (destruct names; [done|eauto]).
    destruct q; unfold_items; rewrite Hmod, Hcons;
      cbv beta iota; rewrite for_each_from_names by done; done.
Qed.

(** An old-style pair and its statement return the same bindings. *)
Lemma pair_matches_statement directive body s q :
  as_sequence directive ≠ None →
  equivalent_statement directive = Some body →
  resolvable directive →
  is_statement s →
  ast_parse (Py.strip s) = Some [body] →
  ∃ m, result (import_items [directive] q) = Ok m
       ∧ result (import_items [PStr s] q) = Ok m.
Proof.
  intros Hseq Hequiv Hres Hs Hparse.
  unfold equivalent_statement in Hequiv. unfold resolvable in Hres.
  destruct (as_pair directive) as [[d0 d1]|] eqn:Hpair;
    [|by destruct directive].
  assert (∃ module, d0 = PStr module) as [module ->].
  { destruct d0; [by eauto|by destruct directive..]. }
  assert (Hequiv' :
    match d1 with
    | PStr name => Some (ImportFrom (Some module) [Alias name None] 0)
    | _ =>
        match as_str_sequence d1 with
        | Some ((_ :: _) as names) =>
            Some (ImportFrom (Some module) ((λ n, Alias n None) <$> names) 0)
        | _ => None
        end
    end = Some body).
  { by destruct directive, d1. }
  assert (Hres' :
    ∃ o, find_module module = Ok o ∧
         match as_str_sequence d1 with
         | Some names =>
             ("*" ∉ names) ∧ Forall (λ k, is_Some (getattr o k)) names
         | None =>
             match d1 with
             | PStr name =>
                 if String.eqb name "*"
                 then Forall (λ k, is_Some (getattr o k)) (dir o)
                 else is_Some (getattr o name)
             | _ => False
             end
         end).
  { by destruct directive. }
  clear Hequiv Hres. destruct Hres' as (o & Hmod & Hnames).
  destruct (as_str_sequence d1) as [names|] eqn:Hd1.
  - destruct d1 as [name|l|l|r]; [done| | |done];
      (destruct names as [|n names]; [done|]);
      injection Hequiv' as <-; destruct Hnames as [Hstar Hall];
      eexists; by eapply name_sequence_matches.
  - destruct d1 as [name|l|l|r]; try done.
    injection Hequiv' as <-.
    destruct (String.eqb_spec name "*") as [->|Hname].
    + exists (bind_attrs o (dir o) ∅).
      by erewrite star_pair_result, star_statement_result.
    + destruct Hnames as [v Hv]. exists {[ name := v ]}.
      by erewrite name_pair_result, name_statement_result.
Qed.

(** C6 (as amended).  An old-style directive of one of the four shapes and
    a statement string that parses to its equivalent statement give the
    same result, provided that, for the pair shapes, the module imports
    and every requested name is an attribute of it; the pair shapes then
    return, with the same bindings.  The bare module string needs no
    proviso: it binds, or fails, as its statement does. *)
Theorem old_style_matches_statement (directive : pyval) (body : stmt)
    (s : string) (q : bool) :
  old_style directive →
  equivalent_statement directive = Some body →
  resolvable directive →
  is_statement s →
  ast_parse (Py.strip s) = Some [body] →
  result (import_items [directive] q) = result (import_items [PStr s] q)
  ∧ (as_sequence directive ≠ None →
     ∃ m, result (import_items [directive] q) = Ok m).
Proof.
  intros Hold Hequiv Hres Hs Hparse.
  destruct directive as [d|items|items|r].
  - (* the bare module string *)
    split; [|done].
    injection Hequiv as <-. unfold old_style, is_statement in Hold.
    apply not_true_is_false in Hold.
    unfold is_statement in Hs.
    unfold_items. rewrite Hold, Hs. unfold_items. rewrite Hparse. unfold_items.
    destruct (find_module (Py.strip d)) as [full|e]; cbv beta iota.
    + destruct (find_module (top_level (Py.strip d))) as [top|e];
        [destruct q|destruct e, q]; reflexivity.
    + destruct e, q; reflexivity.
  - destruct (pair_matches_statement (PTuple items) body s q)
      as (m & Hlegacy & Hstatement); [done..|].
    rewrite Hlegacy, Hstatement. eauto.
  - destruct (pair_matches_statement (PList items) body s q)
      as (m & Hlegacy & Hstatement); [done..|].
    rewrite Hlegacy, Hstatement. eauto.
  - done.
Qed.

End ImportItems.

(** In non-quiet mode a statement that does not parse is reported and the
    loop goes on with the frame as it was. *)
Lemma parse_error_is_reported obj ast_parse find_module dir getattr s
    (f : items_frame obj) :
  is_statement s →
  ast_parse (Py.strip s) = None →
  run_directive obj ast_parse find_module dir getattr false (PStr s) f
  = Run (Ok ()) f [Print ERROR (Error_parsing (Py.strip s))].
Proof.
  unfold is_statement. intros Hs Hparse.
  unfold_items. rewrite Hs. unfold_items. by rewrite Hparse.
Qed.

(** C1 on the concrete world: one bad directive makes the call raise, and
    the directives after it bind nothing.  In quiet mode a statement that
    does not parse reaches the read of the unbound [node]; in non-quiet
    mode the report of an old-style tuple whose module is missing formats
    the tuple itself; in both modes a missing name of an old-style
    [('module', 'name')] pair is an [AttributeError] that no handler
    catches. *)
Theorem import_items_raises_on_bad_directive :
  result (Demo.import_items
            [PStr "import os.path as"; PStr "import json"; PStr "import os";
             PStr "from os import sep"; PStr "from json import loads"] true)
  = Raise UnboundLocalError
  ∧ result (Demo.import_items
              [PTuple [PStr "missing"; PStr "x"]; PStr "import json"] false)
    = Raise TypeError
  ∧ result (Demo.import_items
              [PTuple [PStr "os"; PStr "nope"]; PStr "import json"] false)
    = Raise AttributeError
  ∧ result (Demo.import_items
              [PTuple [PStr "os"; PStr "nope"]; PStr "import json"] true)
    = Raise AttributeError
  ∧ result (Demo.import_items
              [PStr "import os.path as"; PStr "import json"; PStr "import os";
               PStr "from os import sep"; PStr "from json import loads"] false)
    = Ok {[ "json" := Demo.Module "json"; "os" := Demo.Module "os";
            "sep" := Demo.Value "os.sep"; "loads" := Demo.Value "json.loads" ]}.
Proof. repeat split; vm_compute; reflexivity. Qed.

(** C10 on the concrete world. *)
Lemma import_binds_top_level_or_alias_witness :
  result (Demo.import_items [PStr "import os.path"] false)
  = Ok {[ "os" := Demo.Module "os" ]}
  ∧ imported_objects (frame (Demo.import_items [PStr "import os.nope"] false))
    = ∅
  ∧ result (Demo.import_items [PStr " import os.path as p "] true)
    = Ok {[ "p" := Demo.Module "os.path" ]}.
Proof.
  destruct (import_binds_top_level_or_alias Demo.obj Demo.ast_parse
              Demo.find_module Demo.dir Demo.getattr
              "import os.path" "os.path" false eq_refl) as (H1 & _ & _).
  destruct (import_binds_top_level_or_alias Demo.obj Demo.ast_parse
              Demo.find_module Demo.dir Demo.getattr
              "import os.nope" "os.nope" false eq_refl) as (_ & H2 & _).
  destruct (import_binds_top_level_or_alias Demo.obj Demo.ast_parse
              Demo.find_module Demo.dir Demo.getattr
              " import os.path as p " "os.path" true eq_refl) as (_ & _ & H3).
  split; [|split].
  - apply (H1 (Demo.Module "os.path") (Demo.Module "os")); reflexivity.
  - apply (H2 ImportError); reflexivity.
  - apply (H3 "p"%char "" (Demo.Module "os.path")); reflexivity.
Defined.

(** C8 on the concrete world. *)
Lemma star_binds_every_name_witness :
  (∃ m, result (Demo.import_items [PStr "from os import *"] false) = Ok m
        ∧ ∀ k, k ∈ ["getcwd"; "path"; "sep"] →
               m !! k = Demo.getattr (Demo.Module "os") k)
  ∧ (∃ m, result (Demo.import_items [PTuple [PStr "os"; PStr "*"]] false) = Ok m
          ∧ ∀ k, k ∈ ["getcwd"; "path"; "sep"] →
                 m !! k = Demo.getattr (Demo.Module "os") k).
Proof.
  assert (Hdir : Forall (λ k, is_Some (Demo.getattr (Demo.Module "os") k))
                   (Demo.dir (Demo.Module "os"))).
  { repeat constructor; eexists; reflexivity. }
  destruct (star_binds_every_name Demo.obj Demo.ast_parse Demo.find_module
              Demo.dir Demo.getattr "from os import *" "os" 0
              (PTuple [PStr "os"; PStr "*"]) (Demo.Module "os") false
              eq_refl Hdir) as [Hstatement Hpair].
  split.
  - apply Hstatement; reflexivity.
  - apply Hpair; reflexivity.
Defined.

(** C6 (as amended) on the concrete world. *)
Lemma old_style_matches_statement_witness :
  result (Demo.import_items [PTuple [PStr "os"; PTuple [PStr "sep"; PStr "path"]]] false)
  = result (Demo.import_items [PStr "from os import sep, path"] false)
  ∧ result (Demo.import_items [PStr "os.path"] true)
    = result (Demo.import_items [PStr "import os.path"] true).
Proof.
  split.
  - apply (old_style_matches_statement Demo.obj Demo.ast_parse
             Demo.find_module Demo.dir Demo.getattr
             (PTuple [PStr "os"; PTuple [PStr "sep"; PStr "path"]])
             (ImportFrom (Some "os") [Alias "sep" None; Alias "path" None] 0)
             "from os import sep, path" false).
    + exact I.
    + reflexivity.
    + exists (Demo.Module "os"). split; [reflexivity|]. split.
      * list_notin.
      * repeat constructor; eexists; reflexivity.
    + reflexivity.
    + reflexivity.
  - apply (old_style_matches_statement Demo.obj Demo.ast_parse
             Demo.find_module Demo.dir Demo.getattr
             (PStr "os.path") (Import [Alias "os.path" None])
             "import os.path" true).
    + discriminate.
    + reflexivity.
    + exact I.
    + reflexivity.
    + reflexivity.
Defined.

(** C6 fails as it is worded.  The pair over a name sequence reports a
    missing name and binds the others; its statement stops at the missing
    name and binds nothing of what follows. *)
Lemma old_style_differs_from_statement :
  let directive := PTuple [PStr "os"; PTuple [PStr "nope"; PStr "sep"]] in
  let s := "from os import nope, sep" in
  old_style directive
  ∧ is_statement s
  ∧ (∃ body, equivalent_statement directive = Some body
             ∧ Demo.ast_parse (Py.strip s) = Some [body])
  ∧ result (Demo.import_items [directive] false)
    = Ok {[ "sep" := Demo.Value "os.sep" ]}
  ∧ result (Demo.import_items [PStr s] false) = Ok ∅
  ∧ result (Demo.import_items [directive] false)
    ≠ result (Demo.import_items [PStr s] false).
Proof.
  repeat split.
  - eexists. split; reflexivity.
  - intros H. vm_compute in H. discriminate H.
Qed.

(* ===================================================================== *)
(** ** Sorting and insertion-ordered dicts *)
(* ===================================================================== *)

Section Dicts.

Context {A : Type}.

Lemma insert_sorted_perm (le : A → A → bool) x l :
  Py.insert_sorted le x l ≡ₚ x :: l.
Proof.
  induction l as [|y l IH]; simpl; [done|].
  destruct (le x y); [done|].
  by rewrite IH, Permutation_swap.
Qed.

Lemma sorted_perm (le : A → A → bool) l : Py.sorted le l ≡ₚ l.
Proof.
  induction l as [|x l IH]; simpl; [done|].
  by rewrite insert_sorted_perm, IH.
Qed.

Lemma elem_of_sorted (le : A → A → bool) x l : x ∈ Py.sorted le l ↔ x ∈ l.
Proof. by rewrite sorted_perm. Qed.

End Dicts.

Lemma in_setdefault_append k v d key x :
  in_load_models (Py.setdefault_append k v d) key x
  ↔ in_load_models d key x ∨ (key = k ∧ x = v).
Proof.
  unfold in_load_models. induction d as [|[k' vs] d IH]; simpl.
  - split.
    + intros (names & Hin & Hx). apply list_elem_of_singleton in Hin as [= -> ->].
      apply list_elem_of_singleton in Hx. auto.
    + intros [(names & Hin & _)|[-> ->]]; [by apply elem_of_nil in Hin|].
      exists [v]. split; apply list_elem_of_here.
  - destruct (String.eqb_spec k' k) as [->|Hne].
    + split.
      * intros (names & Hin & Hx). apply elem_of_cons in Hin as [[= -> ->]|Hin].
        -- apply elem_of_app in Hx as [Hx|Hx%list_elem_of_singleton].
           ++ left. exists vs. split; [apply list_elem_of_here|done].
           ++ auto.
        -- left. exists names. split; [by apply list_elem_of_further|done].
      * intros [(names & Hin & Hx)|[-> ->]].
        -- apply elem_of_cons in Hin as [[= -> ->]|Hin].
           ++ exists (vs ++ [v]). split; [apply list_elem_of_here|].
              apply elem_of_app; auto.
           ++ exists names. split; [by apply list_elem_of_further|done].
        -- exists (vs ++ [v]). split; [apply list_elem_of_here|].
           apply elem_of_app. right. apply list_elem_of_here.
    + split.
      * intros (names & Hin & Hx). apply elem_of_cons in Hin as [[= -> ->]|Hin].
        -- left. exists vs. split; [apply list_elem_of_here|done].
        -- destruct (proj1 IH) as [(names' & Hin' & Hx')|Hnew]; [by eauto| |by auto].
           left. exists names'. split; [by apply list_elem_of_further|done].
      * intros [(names & Hin & Hx)|Hnew].
        -- apply elem_of_cons in Hin as [[= -> ->]|Hin].
           ++ exists vs. split; [apply list_elem_of_here|done].
           ++ destruct (proj2 IH) as (names' & Hin' & Hx'); [by eauto|].
              exists names'. split; [by apply list_elem_of_further|done].
        -- destruct (proj2 IH) as (names' & Hin' & Hx'); [by auto|].
           exists names'. split; [by apply list_elem_of_further|done].
Qed.

Lemma in_load_models_nil key x : ¬ in_load_models [] key x.
Proof. intros (names & Hin & _). by apply elem_of_nil in Hin. Qed.

Lemma contains_spec x l : Py.contains x l = true ↔ x ∈ l.
Proof. unfold Py.contains. apply bool_decide_eq_true. Qed.

Lemma contains_false x l : Py.contains x l = false ↔ x ∉ l.
Proof. unfold Py.contains. apply bool_decide_eq_false. Qed.

(* ===================================================================== *)
(** ** Properties of model discovery *)
(* ===================================================================== *)

Section Discovery.

Implicit Types (dont_load : list string) (load_models : list (string * list string)).

Lemma in_add_model dont_load app_name load_models model module name :
  in_load_models (add_model dont_load app_name load_models model) module name
  ↔ in_load_models load_models module name
    ∨ (dotted app_name (__name__ model) ∉ dont_load
       ∧ __module__ model ≠ ""
       ∧ module = __module__ model ∧ name = __name__ model).
Proof.
  unfold add_model.
  destruct (Py.contains _ dont_load) eqn:Hdeny.
  - apply contains_spec in Hdeny. naive_solver.
  - apply contains_false in Hdeny.
    destruct (__module__ model) as [|c rest] eqn:Hmodule.
    + naive_solver.
    + rewrite in_setdefault_append. naive_solver.
Qed.

Lemma in_fold_add_model dont_load app_name models load_models module name :
  in_load_models (foldl (add_model dont_load app_name) load_models models)
    module name
  ↔ in_load_models load_models module name
    ∨ ∃ model, model ∈ models
        ∧ dotted app_name (__name__ model) ∉ dont_load
        ∧ __module__ model ≠ ""
        ∧ module = __module__ model ∧ name = __name__ model.
Proof.
  revert load_models. induction models as [|model models IH]; intros load_models.
  - simpl. split; [auto|]. intros [?|(? & []%elem_of_nil & _)]; done.
  - simpl. rewrite IH, in_add_model. split.
    + intros [[?|?]|(model' & ? & ?)]; [by auto| |].
      * right. exists model. split; [apply list_elem_of_here|done].
      * right. exists model'. split; [by apply list_elem_of_further|done].
    + intros [?|(model' & [->|?]%elem_of_cons & ?)]; [by auto|by auto|].
      right. by exists model'.
Qed.

Lemma in_add_app dont_load load_models app module name :
  in_load_models (add_app dont_load load_models app) module name
  ↔ in_load_models load_models module name
    ∨ ∃ app_mod model,
        models_module app = Some app_mod ∧ model ∈ get_models app
        ∧ get_app_name app_mod ∉ dont_load
        ∧ dotted (get_app_name app_mod) (__name__ model) ∉ dont_load
        ∧ __module__ model ≠ ""
        ∧ module = __module__ model ∧ name = __name__ model.
Proof.
  unfold add_app. destruct (models_module app) as [app_mod|]; [|naive_solver].
  destruct (get_models app) as [|model models] eqn:Hmodels.
  - split; [auto|]. intros [?|(? & ? & _ & []%elem_of_nil & _)]; done.
  - destruct (Py.contains _ dont_load) eqn:Hdeny.
    + apply contains_spec in Hdeny. naive_solver.
    + apply contains_false in Hdeny. rewrite in_fold_add_model. naive_solver.
Qed.

Lemma in_fold_add_app dont_load apps load_models module name :
  in_load_models (foldl (add_app dont_load) load_models apps) module name
  ↔ in_load_models load_models module name
    ∨ admitted_model dont_load apps module name.
Proof.
  unfold admitted_model.
  revert load_models. induction apps as [|app apps IH]; intros load_models.
  - simpl. split; [auto|]. intros [?|(? & ? & ? & []%elem_of_nil & _)]; done.
  - simpl. rewrite IH, in_add_app. split.
    + intros [[?|(app_mod & model & ?)]|(app' & app_mod & model & ? & ?)];
        [by auto| |].
      * right. exists app, app_mod, model. split; [apply list_elem_of_here|done].
      * right. exists app', app_mod, model.
        split; [by apply list_elem_of_further|done].
    + intros [?|(app' & app_mod & model & [->|?]%elem_of_cons & ?)];
        [by auto| |].
      * left. right. by exists app_mod, model.
      * right. by exists app', app_mod, model.
Qed.

Lemma in_add_document dont_load load_models item module name :
  in_load_models (add_document dont_load load_models item) module name
  ↔ in_load_models load_models module name
    ∨ (name = default item.1 (last (Py.split "."%char item.1))
       ∧ get_app_name (__module__ item.2) ∉ dont_load
       ∧ dotted (get_app_name (__module__ item.2)) name ∉ dont_load
       ∧ module = __module__ item.2).
Proof.
  unfold add_document.
  destruct (Py.contains (get_app_name _) dont_load) eqn:Happ; simpl.
  - apply contains_spec in Happ. naive_solver.
  - apply contains_false in Happ.
    destruct (Py.contains (dotted _ _) dont_load) eqn:Hlabel.
    + apply contains_spec in Hlabel. naive_solver.
    + apply contains_false in Hlabel. rewrite in_setdefault_append. naive_solver.
Qed.

Lemma in_fold_add_document dont_load documents load_models module name :
  in_load_models (foldl (add_document dont_load) load_models documents)
    module name
  ↔ in_load_models load_models module name
    ∨ admitted_document dont_load (Some documents) module name.
Proof.
  unfold admitted_document.
  revert load_models.
  induction documents as [|item documents IH]; intros load_models.
  - simpl. split; [auto|].
    intros [?|(? & ? & ? & [= <-] & []%elem_of_nil & _)]; done.
  - simpl. rewrite IH, in_add_document. split.
    + intros [[?|?]|(ds & key & doc & [= <-] & ? & ?)]; [by auto| |].
      * right. exists (item :: documents), item.1, item.2.
        split; [done|]. split; [|done].
        destruct item. apply list_elem_of_here.
      * right. exists (item :: documents), key, doc.
        split; [done|]. split; [by apply list_elem_of_further|done].
    + intros [?|(ds & key & doc & [= <-] & [<-|?]%elem_of_cons & ?)];
        [by auto|by auto|].
      right. by exists documents, key, doc.
Qed.

(** What discovery keeps. *)
Lemma in_discover apps registry dont_load module name :
  in_load_models (discover apps registry dont_load) module name
  ↔ "*" ∉ dont_load
    ∧ (admitted_model dont_load apps module name
       ∨ admitted_document dont_load registry module name).
Proof.
  unfold discover.
  destruct (Py.contains "*" dont_load) eqn:Hstar; simpl.
  - apply contains_spec in Hstar.
    destruct registry; split; try naive_solver;
      by intros []%in_load_models_nil.
  - apply contains_false in Hstar. rewrite in_fold_add_app.
    destruct registry as [documents|].
    + rewrite in_fold_add_document.
      split; [|naive_solver].
      intros [[[]%in_load_models_nil|?]|?]; auto.
    + split.
      * intros [[]%in_load_models_nil|?]; auto.
      * intros [_ [?|(? & ? & ? & [=] & _)]]; auto.
Qed.

Lemma discover_skipped apps registry dont_load :
  "*" ∈ dont_load → discover apps registry dont_load = [].
Proof.
  intros Hstar%contains_spec. unfold discover. rewrite Hstar.
  by destruct registry.
Qed.

(** What the name-to-candidates dict holds. *)
Lemma in_get_dict dont_load model_aliases app_prefixes load_models alias path :
  in_load_models
    (get_dict_from_names_to_possible_models dont_load model_aliases
       app_prefixes load_models) alias path
  ↔ ∃ module name,
      in_load_models load_models module name
      ∧ dotted (get_app_name module) name ∉ dont_load
      ∧ path = dotted module name
      ∧ alias = alias_of (default ∅ (model_aliases !! get_app_name module))
                  (app_prefixes !! get_app_name module) name.
Proof.
  unfold get_dict_from_names_to_possible_models.
  set (inner := λ app_mod (models_to_import : list (string * list string))
                  model_name,
         if Py.contains (dotted (get_app_name app_mod) model_name) dont_load
         then models_to_import
         else Py.setdefault_append
                (alias_of (default ∅ (model_aliases !! get_app_name app_mod))
                   (app_prefixes !! get_app_name app_mod) model_name)
                (dotted app_mod model_name) models_to_import).
  assert (Hinner : ∀ app_mod names acc,
    in_load_models (foldl (inner app_mod) acc names) alias path
    ↔ in_load_models acc alias path
      ∨ ∃ name, name ∈ names
          ∧ dotted (get_app_name app_mod) name ∉ dont_load
          ∧ path = dotted app_mod name
          ∧ alias = alias_of (default ∅ (model_aliases !! get_app_name app_mod))
                      (app_prefixes !! get_app_name app_mod) name).
  { intros app_mod names. induction names as [|n names IH]; intros acc; simpl.
    - split; [auto|]. intros [?|(? & []%elem_of_nil & _)]; done.
    - rewrite IH. unfold inner.
      destruct (Py.contains _ dont_load) eqn:Hdeny.
      + apply contains_spec in Hdeny. split.
        * intros [?|(name & ? & ?)]; [by auto|].
          right. exists name. split; [by apply list_elem_of_further|done].
        * intros [?|(name & [->|?]%elem_of_cons & ? & ?)]; [by auto|done|].
          right. by exists name.
      + apply contains_false in Hdeny. rewrite in_setdefault_append. split.
        * intros [[?|[-> ->]]|(name & ? & ?)]; [by auto| |].
          -- right. exists n. split; [apply list_elem_of_here|done].
          -- right. exists name. split; [by apply list_elem_of_further|done].
        * intros [?|(name & [->|?]%elem_of_cons & ? & -> & ->)];
            [by auto|by auto|].
          right. by exists name. }
  assert (Houter : ∀ items acc,
    in_load_models
      (foldl (λ models_to_import item,
                foldl (inner item.1) models_to_import (Py.sorted Py.str_le item.2))
         acc items) alias path
    ↔ in_load_models acc alias path
      ∨ ∃ module name,
          in_load_models items module name
          ∧ dotted (get_app_name module) name ∉ dont_load
          ∧ path = dotted module name
          ∧ alias = alias_of (default ∅ (model_aliases !! get_app_name module))
                      (app_prefixes !! get_app_name module) name).
  { induction items as [|[app_mod names] items IH]; intros acc; simpl.
    - split; [auto|]. intros [?|(? & ? & []%in_load_models_nil & _)]; done.
    - rewrite IH, Hinner. split.
      + intros [[?|(name & Hin%elem_of_sorted & ?)]|(module & name & Hin & ?)];
          [by auto| |].
        * right. exists app_mod, name. split; [|done].
          exists names. split; [apply list_elem_of_here|done].
        * right. exists module, name. split; [|done].
          destruct Hin as (ns & ? & ?). exists ns.
          split; [by apply list_elem_of_further|done].
      + intros [?|(module & name & (ns & [[= -> ->]|?]%elem_of_cons & ?) & ?)];
          [by auto| |].
        * left. right. exists name. by rewrite elem_of_sorted.
        * right. exists module, name. split; [by exists ns|done]. }
  match goal with
  | |- _ ↔ ?R =>
      change (in_load_models
                (foldl (λ models_to_import item,
                          foldl (inner item.1) models_to_import
                            (Py.sorted Py.str_le item.2))
                   [] (Py.sorted Py.key_le load_models)) alias path ↔ R)
  end.
  rewrite Houter. split.
  - intros [[]%in_load_models_nil|(module & name & (ns & Hin%elem_of_sorted & ?) & ?)].
    exists module, name. split; [by exists ns|done].
  - intros (module & name & (ns & Hin & ?) & ?). right.
    exists module, name. split; [|done]. exists ns. by rewrite elem_of_sorted.
Qed.

End Discovery.

(* ===================================================================== *)
(** ** Invariants of runs *)
(* ===================================================================== *)

(** A bind whose first part is known to return. *)
Lemma bind_run {F A B} (c : M F A) (k : A → M F B) f a f1 p1 :
  c f = Run (Ok a) f1 p1 →
  bind c k f
  = Run (result (k a f1)) (frame (k a f1)) (p1 ++ printed (k a f1)).
Proof. intros Hc. unfold bind. rewrite Hc. by destruct (k a f1). Qed.

Lemma bind_raise {F A B} (c : M F A) (k : A → M F B) f e f1 p1 :
  c f = Run (Raise e) f1 p1 → bind c k f = Run (Raise e) f1 p1.
Proof. intros Hc. unfold bind. by rewrite Hc. Qed.

(** Runs are equal when their parts are, point by point. *)
Lemma bind_ext {F A B} (c c' : M F A) (k k' : A → M F B) :
  (∀ f, c f = c' f) → (∀ a f, k a f = k' a f) →
  ∀ f, bind c k f = bind c' k' f.
Proof.
  intros Hc Hk f. unfold bind. rewrite Hc.
  destruct (c' f) as [[a|e] f1 p1]; [|done]. by rewrite Hk.
Qed.

Lemma for_each_ext {F A} (l : list A) (body body' : A → M F unit) :
  (∀ x f, body x f = body' x f) →
  ∀ f, for_each l body f = for_each l body' f.
Proof.
  intros Hbody. induction l as [|x l IH]; intros f; simpl; [done|].
  apply bind_ext; [apply Hbody|]. intros _. apply IH.
Qed.

Section Keeps.

Context {F : Type} (I : F → Prop).

Lemma keeps_ret {A} (R : A → Prop) a : R a → keeps I R (ret a).
Proof. intros Ha f Hf. split; [done|]. by intros ? [= <-]. Qed.

Lemma keeps_raise {A} (R : A → Prop) e : keeps I R (raise e).
Proof. intros f Hf. by split. Qed.

Lemma keeps_lift {A} (R : A → Prop) (o : outcome A) :
  (∀ a, o = Ok a → R a) → keeps I R (lift o).
Proof. intros Ho f Hf. split; [done|]. simpl. auto. Qed.

Lemma keeps_emit e : keeps I (λ _, True) (emit e).
Proof. intros f Hf. by split. Qed.

Lemma keeps_print st text : keeps I (λ _, True) (print st text).
Proof. apply keeps_emit. Qed.

Lemma keeps_get_frame : keeps I I get_frame.
Proof. intros f Hf. split; [done|]. by intros ? [= <-]. Qed.

Lemma keeps_modify (g : F → F) :
  (∀ f, I f → I (g f)) → keeps I (λ _, True) (modify g).
Proof. intros Hg f Hf. split; [by apply Hg|done]. Qed.

Lemma keeps_bind {A B} (R1 : A → Prop) (R2 : B → Prop) m k :
  keeps I R1 m → (∀ a, R1 a → keeps I R2 (k a)) → keeps I R2 (bind m k).
Proof.
  intros Hm Hk f Hf. unfold bind.
  destruct (Hm f Hf) as [Hframe Hresult].
  destruct (m f) as [[a|e] f1 p1]; simpl in *; [|by split].
  destruct (Hk a (Hresult a eq_refl) f1 Hframe) as [Hframe' Hresult'].
  by destruct (k a f1).
Qed.

Lemma keeps_weaken {A} (R R' : A → Prop) m :
  (∀ a, R a → R' a) → keeps I R m → keeps I R' m.
Proof.
  intros HR Hm f Hf. destruct (Hm f Hf) as [Hframe Hresult].
  split; [done|]. auto.
Qed.

Lemma keeps_when c m :
  keeps I (λ _, True) m → keeps I (λ _, True) (when c m).
Proof. destruct c; [done|]. intros _. by apply keeps_ret. Qed.

Lemma keeps_when_nonempty {A} (l : list A) m :
  keeps I (λ _, True) m → keeps I (λ _, True) (when_nonempty l m).
Proof. destruct l; [|done]. intros _. by apply keeps_ret. Qed.

Lemma keeps_try_except {A} (R : A → Prop) m catches h :
  keeps I R m → (∀ e, keeps I R (h e)) → keeps I R (try_except m catches h).
Proof.
  intros Hm Hh f Hf. unfold try_except.
  destruct (Hm f Hf) as [Hframe Hresult].
  destruct (m f) as [[a|e] f1 p1]; simpl in *; [by split|].
  destruct (catches e); [|by split].
  destruct (Hh e f1 Hframe) as [Hframe' Hresult'].
  by destruct (h e f1).
Qed.

Lemma keeps_for_each {A} (l : list A) body :
  (∀ x, x ∈ l → keeps I (λ _, True) (body x)) →
  keeps I (λ _, True) (for_each l body).
Proof.
  induction l as [|x l IH]; intros Hbody; simpl.
  - by apply keeps_ret.
  - apply keeps_bind with (R1 := λ _, True).
    + apply Hbody, list_elem_of_here.
    + intros _ _. apply IH. intros y Hy. by apply Hbody, list_elem_of_further.
Qed.

Lemma keeps_percent v : keeps I (λ _, True) (percent v).
Proof.
  destruct v as [?|[|? [|? ?]]|?|?]; simpl;
    first [by apply keeps_ret|apply keeps_raise].
Qed.

End Keeps.

(* ===================================================================== *)
(** ** Every binding is an imported object *)
(* ===================================================================== *)

(** Decomposes a goal [keeps I R m] along the structure of [m]. *)
Ltac keeps_step :=
  match goal with
  | |- keeps _ _ (bind _ _) => eapply keeps_bind; [|intros ? ?]
  | |- keeps _ _ (ret _) => apply keeps_ret
  | |- keeps _ _ (raise _) => apply keeps_raise
  | |- keeps _ _ (print _ _) => apply keeps_print
  | |- keeps _ _ (emit _) => apply keeps_emit
  | |- keeps _ _ (percent _) => apply keeps_percent
  | |- keeps _ _ (when _ _) => apply keeps_when
  | |- keeps _ _ (try_except _ _ _) => apply keeps_try_except; [|intros ?]
  | |- keeps _ _ (for_each _ _) => apply keeps_for_each; intros ? ?
  | |- keeps _ _ (if ?c then _ else _) => destruct c
  | |- keeps _ _ (match ?x with _ => _ end) => destruct x
  end.

Section Imported.

Context (obj : Type) (ast_parse : string → option (list stmt))
  (find_module : string → outcome obj)
  (dir : obj → list string) (getattr : obj → string → option obj)
  (import_string : string → outcome obj).

Local Abbreviation imported := (imported obj find_module getattr import_string).

Local Abbreviation all_imported :=
  (all_imported obj find_module getattr import_string).
Local Abbreviation items_imported :=
  (items_imported obj find_module getattr import_string).

Lemma keeps_set_item k v :
  imported v → keeps items_imported (λ _, True) (set_item obj k v).
Proof.
  intros Hv. apply keeps_modify. intros f Hf.
  by apply map_Forall_insert_2.
Qed.

Lemma keeps_set_node n : keeps items_imported (λ _, True) (set_node obj n).
Proof. by apply keeps_modify. Qed.

Lemma keeps_read_node : keeps items_imported (λ _, True) (read_node obj).
Proof.
  unfold read_node. eapply keeps_bind; [apply keeps_get_frame|].
  intros f _. destruct (node f); [by apply keeps_ret|apply keeps_raise].
Qed.

Lemma keeps_import_module {F} (I : F → Prop) name :
  keeps I imported (import_module obj find_module name).
Proof. apply keeps_lift. intros o Ho. by eapply imported_module. Qed.

Lemma keeps_import {F} (I : F → Prop) name fromlist :
  keeps I imported (__import__ obj find_module name fromlist).
Proof.
  unfold __import__. destruct name as [name|]; [|apply keeps_raise].
  eapply keeps_bind; [apply (keeps_import_module I name)|].
  intros o Ho. destruct fromlist; [|by apply keeps_ret].
  apply (keeps_import_module I).
Qed.

Lemma keeps_py_getattr {F} (I : F → Prop) o k :
  imported o → keeps I imported (py_getattr obj getattr o k).
Proof.
  intros Ho. unfold py_getattr. destruct (getattr o k) as [v|] eqn:Hv.
  - apply keeps_ret. by eapply imported_attribute.
  - apply keeps_raise.
Qed.

Lemma keeps_import_star o :
  imported o → keeps items_imported (λ _, True) (import_star obj dir getattr o).
Proof.
  intros Ho. unfold import_star. apply keeps_for_each. intros k _.
  eapply keeps_bind; [by apply keeps_py_getattr|].
  intros v Hv. by apply keeps_set_item.
Qed.

Lemma keeps_exec_import_name name :
  keeps items_imported (λ _, True) (exec_import_name obj find_module name).
Proof.
  unfold exec_import_name.
  destruct (a_asname name) as [[|c asname]|];
    repeat (eapply keeps_bind; [apply keeps_import_module|intros ? ?]);
    by apply keeps_set_item.
Qed.

Lemma keeps_exec_from_name module o name :
  imported o →
  keeps items_imported (λ _, True) (exec_from_name obj dir getattr module o name).
Proof.
  intros Ho. unfold exec_from_name. apply keeps_try_except.
  - destruct (String.eqb _ _); [by apply keeps_import_star|].
    eapply keeps_bind; [by apply keeps_py_getattr|].
    intros v Hv. by apply keeps_set_item.
  - intros e. repeat keeps_step; done.
Qed.

Lemma keeps_exec_stmt body :
  keeps items_imported (λ _, True) (exec_stmt obj find_module dir getattr body).
Proof.
  destruct body as [names|module names level|]; simpl.
  - apply keeps_for_each. intros name _. apply keeps_exec_import_name.
  - eapply keeps_bind; [apply keeps_import|].
    intros o Ho. apply keeps_for_each. intros name _.
    by apply keeps_exec_from_name.
  - by apply keeps_ret.
Qed.

Lemma keeps_run_statement q directive :
  keeps items_imported (λ _, True)
    (run_statement obj ast_parse find_module dir getattr q directive).
Proof.
  unfold run_statement.
  assert (keeps items_imported (λ _, True)
            (let* n := read_node obj in
             if negb (forallb is_import n)
             then when (negb q)
                    (print ERROR (Only_specify_import_statements directive))
             else
               when (negb q) (print SQL_COLTYPE (Statement directive)) ;;
               for_each n (exec_stmt obj find_module dir getattr))) as Hafter.
  { eapply keeps_bind; [apply keeps_read_node|]. intros n _.
    destruct (negb (forallb is_import n)).
    - apply keeps_when, keeps_print.
    - eapply keeps_bind; [apply keeps_when, keeps_print|]. intros _ _.
      apply keeps_for_each. intros body _. apply keeps_exec_stmt. }
  destruct (ast_parse directive) as [n|].
  - eapply keeps_bind; [apply keeps_set_node|]. by intros _ _.
  - destruct (negb q); [apply keeps_print|done].
Qed.

Lemma keeps_import_names q module o names :
  imported o →
  keeps items_imported (λ _, True) (import_names obj getattr q module o names).
Proof.
  intros Ho. induction names as [|name names IH]; simpl.
  - by apply keeps_ret.
  - eapply keeps_bind with (R1 := λ _, True).
    + apply keeps_try_except.
      * eapply keeps_bind; [by apply keeps_py_getattr|]. intros v Hv.
        eapply keeps_bind; [by apply keeps_set_item|]. intros _ _.
        by apply keeps_ret.
      * intros e. repeat keeps_step; done.
    + intros found _. eapply keeps_bind; [apply IH|].
      intros ? _. by apply keeps_ret.
Qed.

Lemma keeps_run_legacy q directive :
  keeps items_imported (λ _, True)
    (run_legacy obj find_module dir getattr q directive).
Proof.
  unfold run_legacy. eapply keeps_bind; [apply keeps_emit|]. intros _ _.
  assert (∀ d0 d1, keeps items_imported (λ _, True)
    match d0 with
    | PStr module =>
        match as_str_sequence d1 with
        | Some names =>
            let* imported_object := __import__ obj find_module (Some module) names in
            let* imported_names :=
              import_names obj getattr q module imported_object names in
            when (negb q)
              (print SQL_COLTYPE
                 (From_import_echo module (Py.join ", " imported_names)))
        | None =>
            match d1 with
            | PStr name =>
                if String.eqb name "*" then
                  let* imported_object := __import__ obj find_module (Some module) ["*"] in
                  import_star obj dir getattr imported_object ;;
                  when (negb q)
                    (print SQL_COLTYPE (From_import_echo module "*"))
                else
                  let* m := __import__ obj find_module (Some module) [name] in
                  let* imported_object := py_getattr obj getattr m name in
                  set_item obj name imported_object ;;
                  when (negb q)
                    (print SQL_COLTYPE (From_import_echo module name))
            | _ =>
                when (negb q) (print ERROR (Names_must_be_strings_in d1 d0))
            end
        end
    | _ =>
        when (negb q)
          (let* shown := percent d0 in
           print ERROR (Module_name_must_be_string shown))
    end) as Hpair.
  { intros d0 d1.
    assert (keeps items_imported (λ _, True)
              (when (negb q)
                 (let* shown := percent d0 in
                  print ERROR (Module_name_must_be_string shown)))) as Hshown.
    { apply keeps_when. eapply keeps_bind; [apply keeps_percent|].
      intros ? _. apply keeps_print. }
    destruct d0 as [module| | |]; try exact Hshown.
    destruct (as_str_sequence d1) as [names|].
    - eapply keeps_bind; [apply keeps_import|]. intros o Ho.
      eapply keeps_bind; [by apply keeps_import_names|]. intros ? _.
      apply keeps_when, keeps_print.
    - destruct d1 as [name| | |]; try apply keeps_when, keeps_print.
      destruct (String.eqb name "*").
      + eapply keeps_bind; [apply keeps_import|]. intros o Ho.
        eapply keeps_bind; [by apply keeps_import_star|]. intros _ _.
        apply keeps_when, keeps_print.
      + eapply keeps_bind; [apply keeps_import|]. intros o Ho.
        eapply keeps_bind; [by apply keeps_py_getattr|]. intros v Hv.
        eapply keeps_bind; [by apply keeps_set_item|]. intros _ _.
        apply keeps_when, keeps_print. }
  assert (keeps items_imported (λ _, True)
            (when (negb q)
               (let* shown := percent directive in
                print ERROR (Names_must_be_strings shown)))) as Hshape.
  { apply keeps_when. eapply keeps_bind; [apply keeps_percent|].
    intros ? _. apply keeps_print. }
  destruct directive as [d|items|items|r].
  - eapply keeps_bind; [apply keeps_import|]. intros o Ho.
    eapply keeps_bind; [by apply keeps_set_item|]. intros _ _.
    apply keeps_when, keeps_print.
  - destruct (as_pair (PTuple items)) as [[d0 d1]|]; [apply Hpair|exact Hshape].
  - destruct (as_pair (PList items)) as [[d0 d1]|]; [apply Hpair|exact Hshape].
  - exact Hshape.
Qed.

Lemma keeps_run_directive q directive :
  keeps items_imported (λ _, True)
    (run_directive obj ast_parse find_module dir getattr q directive).
Proof.
  unfold run_directive. apply keeps_try_except.
  - destruct directive as [s| | |]; try apply keeps_run_legacy.
    destruct (_ || _); [apply keeps_run_statement|apply keeps_run_legacy].
  - intros e. apply keeps_when. eapply keeps_bind; [apply keeps_percent|].
    intros ? _. apply keeps_print.
Qed.

(** Whatever [import_items] has bound is imported, and what it returns is
    what it has bound. *)
Lemma import_items_imported directives q :
  let r := import_items obj ast_parse find_module dir getattr directives q in
  all_imported (imported_objects (frame r))
  ∧ ∀ m, result r = Ok m → m = imported_objects (frame r).
Proof.
  unfold import_items.
  set (loop := for_each directives _).
  assert (keeps items_imported (λ _, True) loop) as Hloop.
  { apply keeps_for_each. intros d _. apply keeps_run_directive. }
  destruct (Hloop (Items_frame ∅ None)) as [Hframe _];
    [apply map_Forall_empty|].
  unfold bind. destruct (loop _) as [[[]|e] f1 p1]; simpl in *.
  - split; [done|]. by intros m [= <-].
  - by split.
Qed.

(** The names that the loop over an old-style name sequence binds are
    names of the sequence, bound to the attribute that was found. *)
Lemma import_names_provenance q module o names f k v :
  imported_objects (frame (import_names obj getattr q module o names f)) !! k
  = Some v →
  imported_objects f !! k = Some v ∨ (k ∈ names ∧ getattr o k = Some v).
Proof.
  set (I := λ f' : items_frame obj,
         ∀ k v, imported_objects f' !! k = Some v →
                imported_objects f !! k = Some v
                ∨ (k ∈ names ∧ getattr o k = Some v)).
  assert (∀ names', (∀ n, n ∈ names' → n ∈ names) →
            keeps I (λ _, True) (import_names obj getattr q module o names'))
    as Hkeeps.
  { induction names' as [|name names' IH]; intros Hsub; simpl.
    - by apply keeps_ret.
    - eapply keeps_bind with (R1 := λ _, True).
      + apply keeps_try_except.
        * unfold py_getattr. destruct (getattr o name) as [w|] eqn:Hw;
            [|eapply keeps_bind with (R1 := λ _, False);
              [apply keeps_raise|intros ? []]].
          eapply keeps_bind with (R1 := λ w', w' = w); [by apply keeps_ret|].
          intros ? ->.
          eapply keeps_bind; [|intros _ _; by apply keeps_ret].
          apply keeps_modify. intros f' Hf' k' v'. simpl.
          destruct (decide (name = k')) as [<-|Hne].
          -- rewrite lookup_insert_eq. intros [= <-]. right.
             split; [apply Hsub, list_elem_of_here|done].
          -- rewrite lookup_insert_ne by done. apply Hf'.
        * intros e. repeat keeps_step; done.
      + intros found _. eapply keeps_bind; [|intros ? _; by apply keeps_ret].
        apply IH. intros n Hn. by apply Hsub, list_elem_of_further. }
  apply (Hkeeps names); [done|]. intros k' v'. by left.
Qed.

End Imported.

(* ===================================================================== *)
(** ** Properties of [perform_automatic_imports] *)
(* ===================================================================== *)

Section Perform.

Context (obj : Type) (import_string : string → outcome obj).

Implicit Types (m : gmap string obj) (opts : options)
  (models : list (string * string))
  (modules_to_classes : list (string * list (string * string))).

Lemma import_classes_cons opts full_module_path model_name alias models :
  import_classes obj import_string opts full_module_path
    ((model_name, alias) :: models)
  = (let* label :=
       try_except
         (let* v := lift (import_string (dotted full_module_path model_name)) in
          modify (insert alias v) ;;
          ret (Some (if String.eqb model_name alias then model_name
                     else model_name +:+ " (as " +:+ alias +:+ ")")))
         is_ImportError
         (λ e,
            when (traceback opts) (emit (Print_exc e)) ;;
            when (negb (quiet_load opts))
              (print ERROR (Failed_to_import model_name full_module_path e)) ;;
            ret None)
     in
     let* model_labels :=
       import_classes obj import_string opts full_module_path models in
     ret (match label with
          | Some l => l :: model_labels
          | None => model_labels
          end)).
Proof. done. Qed.

Local Abbreviation import_classes := (import_classes obj import_string).
Local Abbreviation perform_automatic_imports :=
  (perform_automatic_imports obj import_string).
Local Abbreviation bind_classes := (bind_classes obj import_string).
Local Abbreviation bind_modules := (bind_modules obj import_string).
Local Abbreviation failures_are_import_errors :=
  (failures_are_import_errors obj import_string).

Lemma bind_classes_cons full_module_path model models m :
  bind_classes full_module_path (model :: models) m
  = bind_classes full_module_path models
      (match import_string (dotted full_module_path model.1) with
       | Ok v => <[model.2 := v]> m
       | Raise _ => m
       end).
Proof. done. Qed.

Lemma import_classes_run opts full_module_path models m :
  (∀ model_name alias e,
     (model_name, alias) ∈ models →
     import_string (dotted full_module_path model_name) = Raise e →
     e = ImportError) →
  ∃ labels events,
    import_classes opts full_module_path models m
    = Run (Ok labels) (bind_classes full_module_path models m) events
    ∧ ∀ model_name alias e,
        (model_name, alias) ∈ models →
        import_string (dotted full_module_path model_name) = Raise e →
        failure_shown opts events full_module_path model_name e.
Proof.
  revert m. induction models as [|[model_name alias] models IH]; intros m Hfail.
  - exists [], []. split; [done|]. by intros ? ? ? []%elem_of_nil.
  - destruct (IH (match import_string (dotted full_module_path model_name) with
                  | Ok v => <[alias := v]> m
                  | Raise _ => m
                  end)) as (labels & events & Hrun & Hshown).
    { intros n a e Hin Hraise.
      eapply Hfail; [by apply list_elem_of_further|done]. }
    rewrite import_classes_cons, bind_classes_cons. simpl.
    destruct (import_string (dotted full_module_path model_name)) as [v|e] eqn:Himport.
    + eexists _, events. split.
      * unfold bind at 1. unfold_run. rewrite Hrun. simpl.
        by rewrite app_nil_r.
      * intros n a e [[= -> ->]|Hin]%elem_of_cons Hraise; [congruence|].
        by eapply Hshown.
    + assert (e = ImportError) as ->.
      { eapply Hfail; [apply list_elem_of_here|done]. }
      exists labels,
        ((if traceback opts then [Print_exc ImportError] else [])
         ++ (if quiet_load opts then []
             else [Print ERROR
                     (Failed_to_import model_name full_module_path ImportError)])
         ++ events).
      split.
      * unfold bind at 1. unfold_run.
        destruct (traceback opts), (quiet_load opts); cbv beta iota;
          rewrite Hrun; simpl; by rewrite app_nil_r.
      * intros n a e [[= -> ->]|Hin]%elem_of_cons Hraise.
        -- assert (e = ImportError) as -> by congruence.
           split; intros ->; set_solver.
        -- destruct (Hshown n a e Hin Hraise) as [Htb Hq].
           split; intros ?; set_solver.
Qed.

(** Of the options, the loop reads [traceback] and [quiet_load] only. *)
Lemma import_classes_options opts opts' full_module_path models m :
  traceback opts = traceback opts' →
  quiet_load opts = quiet_load opts' →
  import_classes opts full_module_path models m
  = import_classes opts' full_module_path models m.
Proof.
  intros Htb Hq. revert m.
  induction models as [|[n a] models IH]; intros m; [done|].
  rewrite !import_classes_cons, Htb, Hq.
  apply bind_ext; [done|]. intros label f. by apply bind_ext.
Qed.

Lemma perform_options opts opts' modules_to_classes m :
  traceback opts = traceback opts' →
  quiet_load opts = quiet_load opts' →
  perform_automatic_imports opts modules_to_classes m
  = perform_automatic_imports opts' modules_to_classes m.
Proof.
  intros Htb Hq. unfold perform_automatic_imports.
  apply for_each_ext. intros item f. rewrite Hq.
  apply bind_ext; [|done]. intros f'. by apply import_classes_options.
Qed.

Lemma perform_run opts modules_to_classes m :
  failures_are_import_errors modules_to_classes →
  ∃ events,
    perform_automatic_imports opts modules_to_classes m
    = Run (Ok ()) (bind_modules modules_to_classes m) events
    ∧ ∀ full_module_path models model_name alias e,
        (full_module_path, models) ∈ modules_to_classes →
        (model_name, alias) ∈ models →
        import_string (dotted full_module_path model_name) = Raise e →
        failure_shown opts events full_module_path model_name e.
Proof.
  unfold perform_automatic_imports, bind_modules.
  revert m.
  induction modules_to_classes as [|[full_module_path models] rest IH];
    intros m Hfail.
  - exists []. split; [done|]. by intros ? ? ? ? ? []%elem_of_nil.
  - destruct (import_classes_run opts full_module_path
                (Py.sorted Py.pair_le models) m)
      as (labels & events & Hrun & Hshown).
    { intros n a e Hin%elem_of_sorted Hraise.
      eapply Hfail; [apply list_elem_of_here|done..]. }
    destruct (IH (bind_classes full_module_path (Py.sorted Py.pair_le models) m))
      as (events' & Hrest & Hshown').
    { intros p ms n a e Hp. eapply Hfail. by apply list_elem_of_further. }
    exists (events
            ++ (if quiet_load opts then []
                else [Print SQL_COLTYPE
                        (From_import_echo full_module_path
                           (Py.join ", " labels))])
            ++ events').
    split.
    + cbn [for_each foldl fst snd].
      match goal with
      | |- bind ?body _ m = _ =>
          assert (body m
                  = Run (Ok ())
                      (bind_classes full_module_path
                         (Py.sorted Py.pair_le models) m)
                      (events
                       ++ (if quiet_load opts then []
                           else [Print SQL_COLTYPE
                                   (From_import_echo full_module_path
                                      (Py.join ", " labels))]))) as Hbody
      end.
      { erewrite bind_run by exact Hrun. by destruct (quiet_load opts). }
      rewrite (bind_run _ _ _ _ _ _ Hbody), Hrest. simpl.
      by rewrite <- app_assoc.
    + intros p ms n a e [[= -> ->]|Hp]%elem_of_cons Hin Hraise.
      * apply elem_of_sorted with (le := Py.pair_le) in Hin.
        destruct (Hshown n a e Hin Hraise) as [Htb Hq].
        split; intros ?; set_solver.
      * destruct (Hshown' p ms n a e Hp Hin Hraise) as [Htb Hq].
        split; intros ?; set_solver.
Qed.

(** A name that only ever imports to [v] is bound to [v] once a module
    that has it, or the dict before, provides it. *)
Lemma bind_classes_bound full_module_path models m alias v :
  (∀ model_name v',
     (model_name, alias) ∈ models →
     import_string (dotted full_module_path model_name) = Ok v' → v' = v) →
  (m !! alias = Some v
   ∨ ∃ model_name,
       (model_name, alias) ∈ models
       ∧ import_string (dotted full_module_path model_name) = Ok v) →
  bind_classes full_module_path models m !! alias = Some v.
Proof.
  revert m. induction models as [|[n a] models IH]; intros m Hsame Hsome.
  - destruct Hsome as [?|(? & []%elem_of_nil & _)]; done.
  - rewrite bind_classes_cons. simpl. apply IH.
    { intros n' v' Hin. apply Hsame. by apply list_elem_of_further. }
    destruct (import_string (dotted full_module_path n)) as [w|e] eqn:Himport.
    + destruct (decide (a = alias)) as [->|Hne].
      * left. rewrite lookup_insert_eq. f_equal.
        eapply Hsame; [apply list_elem_of_here|done].
      * destruct Hsome as [?|(n' & [[= -> ->]|Hin]%elem_of_cons & ?)].
        -- left. by rewrite lookup_insert_ne.
        -- done.
        -- right. by exists n'.
    + destruct Hsome as [?|(n' & [[= -> ->]|Hin]%elem_of_cons & ?)].
      * by left.
      * congruence.
      * right. by exists n'.
Qed.

Lemma bind_modules_bound modules_to_classes m alias v :
  (∀ full_module_path models model_name v',
     (full_module_path, models) ∈ modules_to_classes →
     (model_name, alias) ∈ models →
     import_string (dotted full_module_path model_name) = Ok v' → v' = v) →
  (m !! alias = Some v
   ∨ ∃ full_module_path models model_name,
       (full_module_path, models) ∈ modules_to_classes
       ∧ (model_name, alias) ∈ models
       ∧ import_string (dotted full_module_path model_name) = Ok v) →
  bind_modules modules_to_classes m !! alias = Some v.
Proof.
  unfold bind_modules. revert m.
  induction modules_to_classes as [|[p models] rest IH]; intros m Hsame Hsome.
  - destruct Hsome as [?|(? & ? & ? & []%elem_of_nil & _)]; done.
  - cbn [foldl fst snd]. apply IH.
    { intros p' ms n v' Hp. eapply Hsame. by apply list_elem_of_further. }
    destruct Hsome as [Hm|(p' & ms & n & [[= -> ->]|Hp]%elem_of_cons & Hin & Himport)].
    + left. apply bind_classes_bound; [|by left].
      intros n v' Hin%elem_of_sorted. eapply Hsame, Hin. apply list_elem_of_here.
    + left. apply bind_classes_bound.
      * intros n' v' Hin'%elem_of_sorted. eapply Hsame, Hin'.
        apply list_elem_of_here.
      * right. exists n. by rewrite elem_of_sorted.
    + right. by exists p', ms, n.
Qed.


Local Abbreviation provenance := (provenance obj import_string).

Lemma keeps_import_classes opts modules_to_classes m0 full_module_path
    all_models models :
  (full_module_path, all_models) ∈ modules_to_classes →
  (∀ model, model ∈ models → model ∈ all_models) →
  keeps (provenance modules_to_classes m0) (λ _, True)
    (import_classes opts full_module_path models).
Proof.
  intros Hp. induction models as [|[n a] models IH]; intros Hsub.
  - by apply keeps_ret.
  - rewrite import_classes_cons.
    eapply keeps_bind with (R1 := λ _, True).
    + apply keeps_try_except.
      * eapply keeps_bind with
          (R1 := λ v, import_string (dotted full_module_path n) = Ok v).
        { by apply keeps_lift. }
        intros v Hv. eapply keeps_bind; [|intros _ _; by apply keeps_ret].
        apply keeps_modify. intros m Hm k w.
        destruct (decide (a = k)) as [<-|Hne].
        -- rewrite lookup_insert_eq. intros [= <-]. right.
           exists full_module_path, all_models, n.
           split; [done|]. split; [|done]. apply Hsub, list_elem_of_here.
        -- rewrite lookup_insert_ne by done. apply Hm.
      * intros e. repeat keeps_step; done.
    + intros label _. eapply keeps_bind; [|intros ? _; by apply keeps_ret].
      apply IH. intros model Hin. by apply Hsub, list_elem_of_further.
Qed.

Lemma perform_provenance opts modules_to_classes m0 :
  provenance modules_to_classes m0
    (frame (perform_automatic_imports opts modules_to_classes m0)).
Proof.
  assert (keeps (provenance modules_to_classes m0) (λ _, True)
            (perform_automatic_imports opts modules_to_classes)) as Hkeeps.
  { unfold perform_automatic_imports. apply keeps_for_each.
    intros [p models] Hp. simpl.
    eapply keeps_bind; [|intros ? _; apply keeps_when, keeps_print].
    eapply keeps_import_classes; [done|].
    intros model. by rewrite elem_of_sorted. }
  apply Hkeeps. intros k v. by left.
Qed.

End Perform.

(* ===================================================================== *)
(** ** Layers of bindings *)
(* ===================================================================== *)

Section Layers.

Context (obj : Type).

Implicit Types (m : gmap string obj).

(** [for k, v in imports.items(): imported_objects[k] = v] *)
Lemma update_is_union (imports m : gmap string obj) :
  map_fold (λ k v acc, <[k := v]> acc) m imports = imports ∪ m.
Proof.
  apply (map_fold_weak_ind (λ r imports, r = imports ∪ m)).
  - by rewrite (left_id_L ∅ (∪)).
  - intros k v imports' r _ ->. by rewrite insert_union_l.
Qed.

Local Abbreviation layered := (layered obj).

Lemma layered_ret {A} (a : A) : layered (ret a).
Proof. done. Qed.

Lemma layered_raise {A} e : layered (raise (A := A) e).
Proof. done. Qed.

Lemma layered_lift {A} (o : outcome A) : layered (lift o).
Proof. done. Qed.

Lemma layered_emit e : layered (emit e).
Proof. done. Qed.

Lemma layered_insert k v : layered (modify (insert k v)).
Proof. intros m m0. unfold modify. simpl. by rewrite insert_union_l. Qed.

Lemma layered_bind {A B} (c : M (gmap string obj) A) (k : A → M _ B) :
  layered c → (∀ a, layered (k a)) → layered (bind c k).
Proof.
  intros Hc Hk m m0. unfold bind. rewrite Hc.
  destruct (c m) as [[a|e] f1 p1]; simpl; [|done].
  rewrite Hk. by destruct (k a f1).
Qed.

Lemma layered_when c b : layered c → layered (when b c).
Proof. by destruct b. Qed.

Lemma layered_try_except {A} (c : M (gmap string obj) A) catches h :
  layered c → (∀ e, layered (h e)) → layered (try_except c catches h).
Proof.
  intros Hc Hh m m0. unfold try_except. rewrite Hc.
  destruct (c m) as [[a|e] f1 p1]; simpl; [done|].
  destruct (catches e); [|done].
  rewrite Hh. by destruct (h e f1).
Qed.

Lemma layered_for_each {A} (l : list A) body :
  (∀ x, layered (body x)) → layered (for_each l body).
Proof.
  intros Hbody. induction l as [|x l IH]; simpl; [done|].
  apply layered_bind; [done|]. by intros _.
Qed.

Lemma layered_import_classes import_string opts full_module_path models :
  layered (import_classes obj import_string opts full_module_path models).
Proof.
  induction models as [|[n a] models IH]; simpl; [done|].
  apply layered_bind.
  - apply layered_try_except.
    + apply layered_bind; [apply layered_lift|]. intros v.
      apply layered_bind; [apply layered_insert|]. intros _.
      apply layered_ret.
    + intros e. apply layered_bind; [apply layered_when, layered_emit|].
      intros _. apply layered_bind; [apply layered_when, layered_emit|].
      intros _. apply layered_ret.
  - intros label. apply layered_bind; [done|]. intros ?. apply layered_ret.
Qed.

Lemma layered_perform import_string opts modules_to_classes :
  layered (perform_automatic_imports obj import_string opts modules_to_classes).
Proof.
  apply layered_for_each. intros item.
  apply layered_bind; [apply layered_import_classes|].
  intros labels. apply layered_when, layered_emit.
Qed.

(** The bindings of a run from the empty dict, laid over [m]. *)
Lemma layered_from_empty {A} (c : M (gmap string obj) A) m :
  layered c →
  c m = Run (result (c ∅)) (frame (c ∅) ∪ m) (printed (c ∅)).
Proof. intros Hc. by rewrite <- (Hc ∅ m), (left_id_L ∅ (∪)). Qed.

End Layers.

(* ===================================================================== *)
(** ** Properties of [import_objects] *)
(* ===================================================================== *)

Lemma bind_result {F A B} (c : M F A) (k : A → M F B) f a :
  result (c f) = Ok a →
  result (bind c k f) = result (k a (frame (c f)))
  ∧ frame (bind c k f) = frame (k a (frame (c f))).
Proof.
  unfold bind. destruct (c f) as [[a'|e] f1 p1]; simpl; [|done].
  intros [= ->]. by destruct (k a f1).
Qed.

Lemma returns_frame_bind {F A} (c : M F A) (k : A → M F F) :
  (∀ a, returns_frame (k a)) → returns_frame (bind c k).
Proof.
  intros Hk f b. unfold bind.
  destruct (c f) as [[a|e] f1 p1]; simpl; [|done].
  specialize (Hk a f1 b). by destruct (k a f1).
Qed.

Section Objects.

Context (obj : Type) (ast_parse : string → option (list stmt))
  (find_module : string → outcome obj)
  (dir : obj → list string) (getattr : obj → string → option obj)
  (import_string : string → outcome obj)
  (run_collision_resolver :
     list (string * list string) → list (string * list (string * string)))
  (collect_subclasses : list pyval → list (string * list (string * string)))
  (apps : list app_config)
  (_document_registry : option (list (string * model_class))).

Local Abbreviation import_items :=
  (import_items obj ast_parse find_module dir getattr).
Local Abbreviation import_phase :=
  (import_phase obj ast_parse find_module dir getattr).
Local Abbreviation perform_automatic_imports :=
  (perform_automatic_imports obj import_string).
Local Abbreviation import_subclasses :=
  (import_subclasses obj import_string collect_subclasses).
Local Abbreviation import_models :=
  (import_models obj import_string run_collision_resolver).
Local Abbreviation import_objects :=
  (import_objects obj ast_parse find_module dir getattr import_string
     run_collision_resolver collect_subclasses apps _document_registry).
Local Abbreviation discover := (discover apps _document_registry).
Local Abbreviation imported := (imported obj find_module getattr import_string).
Local Abbreviation all_imported :=
  (all_imported obj find_module getattr import_string).
Local Abbreviation subclasses_to_import :=
  (subclasses_to_import collect_subclasses).
Local Abbreviation models_to_import :=
  (models_to_import run_collision_resolver apps _document_registry).

Implicit Types (m : gmap string obj) (opts : options) (conf : settings).

(** A phase of directives lays its bindings over the dict. *)
Lemma import_phase_run q title directives imports m :
  result (import_items directives q) = Ok imports →
  result (import_phase q title directives m) = Ok ()
  ∧ frame (import_phase q title directives m) = imports ∪ m.
Proof.
  intros Himports. unfold import_phase.
  match goal with
  | |- result (bind ?c ?k m) = _ ∧ _ =>
      destruct (bind_result c k m ()) as [-> ->]; [by destruct q|];
      assert (frame (c m) = m) as -> by (by destruct q)
  end.
  unfold bind, modify. simpl. rewrite Himports. simpl.
  by rewrite update_is_union.
Qed.

Lemma when_nonempty_phase_run q title directives imports m :
  result (import_items directives q) = Ok imports →
  result (when_nonempty directives (import_phase q title directives) m) = Ok ()
  ∧ frame (when_nonempty directives (import_phase q title directives) m)
    = imports ∪ m.
Proof.
  intros Himports. destruct directives as [|d directives].
  - injection Himports as <-. simpl. by rewrite (left_id_L ∅ (∪)).
  - by apply import_phase_run.
Qed.

Lemma django_phase_run q conf imports m :
  result (import_items (django_imports conf) q) = Ok imports →
  result (when (SHELL_PLUS_DJANGO_IMPORTS_setting conf)
            (import_phase q "# Shell Plus Django Imports"
               SHELL_PLUS_DJANGO_IMPORTS) m) = Ok ()
  ∧ frame (when (SHELL_PLUS_DJANGO_IMPORTS_setting conf)
             (import_phase q "# Shell Plus Django Imports"
                SHELL_PLUS_DJANGO_IMPORTS) m)
    = imports ∪ m.
Proof.
  unfold django_imports.
  destruct (SHELL_PLUS_DJANGO_IMPORTS_setting conf); simpl.
  - apply import_phase_run.
  - intros [= <-]. by rewrite (left_id_L ∅ (∪)).
Qed.

Lemma import_subclasses_run opts conf m :
  let r := perform_automatic_imports opts (subclasses_to_import conf) ∅ in
  result (import_subclasses opts conf m) = result r
  ∧ frame (import_subclasses opts conf m) = frame r ∪ m.
Proof.
  unfold import_subclasses, subclasses_to_import.
  destruct (SHELL_PLUS_SUBCLASSES_IMPORT conf) as [|b bases].
  - simpl. by rewrite (left_id_L ∅ (∪)).
  - match goal with
    | |- result (bind ?c ?k m) = _ ∧ _ =>
        destruct (bind_result c k m ()) as [-> ->];
        [by destruct (quiet_load opts)|];
        assert (frame (c m) = m) as -> by (by destruct (quiet_load opts))
    end.
    by rewrite (layered_from_empty obj _ m (layered_perform obj _ _ _)).
Qed.

Lemma import_models_run opts conf m :
  let dont_load := dont_load opts ++ SHELL_PLUS_DONT_LOAD conf in
  let r := perform_automatic_imports opts (models_to_import opts conf) ∅ in
  result (import_models opts conf dont_load (discover dont_load) m) = result r
  ∧ frame (import_models opts conf dont_load (discover dont_load) m)
    = frame r ∪ m.
Proof.
  unfold import_models, models_to_import. simpl.
  by rewrite (layered_from_empty obj _ m (layered_perform obj _ _ _)).
Qed.

(** C4.  When every phase returns, [import_objects] returns the bindings
    of post-imports laid over those of user imports, over those of the
    Django imports, over those of the model imports, over those of the
    subclass imports, over those of the pre-imports: on a name that several
    phases bind the latest phase wins.  In particular a name that user
    imports bind keeps the user-imports value against every earlier phase,
    model imports included (only post-imports can rebind it). *)
Theorem later_phase_wins opts conf (pre django user post : gmap string obj) :
  let q := quiet_load opts in
  let r_sub := perform_automatic_imports opts (subclasses_to_import conf) ∅ in
  let r_models := perform_automatic_imports opts (models_to_import opts conf) ∅ in
  result (import_items (SHELL_PLUS_PRE_IMPORTS conf) q) = Ok pre →
  result r_sub = Ok () →
  result r_models = Ok () →
  result (import_items (django_imports conf) q) = Ok django →
  result (import_items (SHELL_PLUS_IMPORTS conf) q) = Ok user →
  result (import_items (SHELL_PLUS_POST_IMPORTS conf) q) = Ok post →
  result (import_objects opts conf)
  = Ok (post ∪ (user ∪ (django ∪ (frame r_models ∪ (frame r_sub ∪ pre)))))
  ∧ ∀ k v,
      user !! k = Some v → post !! k = None →
      (post ∪ (user ∪ (django ∪ (frame r_models ∪ (frame r_sub ∪ pre)))))
        !! k = Some v.
Proof.
  intros q r_sub r_models Hpre Hsub Hmodels Hdjango Huser Hpost. split.
  - unfold import_objects. fold q.
    destruct (when_nonempty_phase_run q "# Shell Plus User Pre Imports"
                _ _ ∅ Hpre) as [Hr1 Hf1].
    rewrite (right_id_L ∅ (∪)) in Hf1.
    match goal with
    | |- result (bind ?c ?k ∅) = _ =>
        destruct (bind_result c k ∅ () Hr1) as [-> _]; rewrite Hf1
    end.
    destruct (import_subclasses_run opts conf pre) as [Hr2 Hf2].
    fold r_sub in Hr2, Hf2. rewrite Hsub in Hr2.
    match goal with
    | |- result (bind ?c ?k pre) = _ =>
        destruct (bind_result c k pre () Hr2) as [-> _]; rewrite Hf2
    end.
    match goal with
    | |- result (bind ?c ?k ?f) = _ =>
        destruct (bind_result c k f ()) as [-> _]; [by destruct q|];
        assert (frame (c f) = f) as -> by (by destruct q)
    end.
    destruct (import_models_run opts conf (frame r_sub ∪ pre)) as [Hr3 Hf3].
    fold r_models in Hr3, Hf3. rewrite Hmodels in Hr3.
    match goal with
    | |- result (bind ?c ?k ?f) = _ =>
        destruct (bind_result c k f () Hr3) as [-> _]; rewrite Hf3
    end.
    destruct (django_phase_run q conf _ (frame r_models ∪ (frame r_sub ∪ pre))
                Hdjango) as [Hr4 Hf4].
    match goal with
    | |- result (bind ?c ?k ?f) = _ =>
        destruct (bind_result c k f () Hr4) as [-> _]; rewrite Hf4
    end.
    destruct (when_nonempty_phase_run q "# Shell Plus User Imports" _ _
                (django ∪ (frame r_models ∪ (frame r_sub ∪ pre))) Huser)
      as [Hr5 Hf5].
    match goal with
    | |- result (bind ?c ?k ?f) = _ =>
        destruct (bind_result c k f () Hr5) as [-> _]; rewrite Hf5
    end.
    destruct (when_nonempty_phase_run q "# Shell Plus User Post Imports" _ _
                (user ∪ (django ∪ (frame r_models ∪ (frame r_sub ∪ pre))))
                Hpost) as [Hr6 Hf6].
    match goal with
    | |- result (bind ?c ?k ?f) = _ =>
        destruct (bind_result c k f () Hr6) as [-> _]; rewrite Hf6
    end.
    done.
  - intros k v Hk Hnone.
    rewrite lookup_union_r by done. by apply lookup_union_Some_l.
Qed.

Lemma keeps_perform opts modules_to_classes :
  keeps all_imported (λ _, True)
    (perform_automatic_imports opts modules_to_classes).
Proof.
  intros m Hm. split; [|done]. intros k v Hk.
  destruct (perform_provenance obj import_string opts modules_to_classes m k v Hk)
    as [Hold|(p & models & n & _ & _ & Himport)].
  - by apply (Hm k v).
  - by eapply imported_string.
Qed.

Lemma keeps_import_phase q title directives :
  keeps all_imported (λ _, True) (import_phase q title directives).
Proof.
  unfold import_phase.
  eapply keeps_bind; [apply keeps_when, keeps_print|]. intros _ _.
  eapply keeps_bind with (R1 := all_imported).
  - intros m Hm. split; [done|]. simpl. intros imports Himports.
    destruct (import_items_imported obj ast_parse find_module dir getattr
                import_string directives q) as [Hall Hreturned].
    by rewrite (Hreturned imports Himports).
  - intros imports Himports. apply keeps_modify. intros m Hm.
    rewrite update_is_union. by apply map_Forall_union_2.
Qed.

Lemma keeps_import_objects opts conf :
  let r := import_objects opts conf in
  all_imported (frame r) ∧ ∀ m, result r = Ok m → m = frame r.
Proof.
  unfold import_objects. split.
  - match goal with
    | |- all_imported (frame (?c ∅)) =>
        assert (keeps all_imported (λ _, True) c) as Hkeeps
    end.
    { eapply keeps_bind with (R1 := λ _, True).
      { apply keeps_when_nonempty, keeps_import_phase. }
      intros _ _. eapply keeps_bind with (R1 := λ _, True).
      { unfold import_subclasses. destruct (SHELL_PLUS_SUBCLASSES_IMPORT conf).
        - by apply keeps_ret.
        - eapply keeps_bind; [apply keeps_when, keeps_print|]. intros _ _.
          apply keeps_perform. }
      intros _ _. eapply keeps_bind; [apply keeps_when, keeps_print|].
      intros _ _. eapply keeps_bind; [apply keeps_perform|].
      intros _ _. eapply keeps_bind.
      { apply keeps_when, keeps_import_phase. }
      intros _ _. eapply keeps_bind.
      { apply keeps_when_nonempty, keeps_import_phase. }
      intros _ _. eapply keeps_bind.
      { apply keeps_when_nonempty, keeps_import_phase. }
      intros _ _. eapply keeps_bind; [apply keeps_get_frame|].
      intros ? _. by apply keeps_ret. }
    apply Hkeeps, map_Forall_empty.
  - repeat (apply returns_frame_bind; intros _).
    intros f m. by intros [= <-].
Qed.


(** C3.  The denylist is the [dont_load] option followed by the
    [SHELL_PLUS_DONT_LOAD] setting, and only that concatenation matters.
    A model enters [load_models] exactly when the denylist has no ['*'],
    neither the name of its application nor its ['app.Model'] label is an
    entry, and its module is not empty (a document: neither its
    application nor its label is an entry); a path enters the
    name-to-candidates dict exactly when its model is in [load_models] and
    the label made from its module is no entry.  With ['*'] in the
    denylist [load_models] and the candidates are empty, and a resolver
    that maps no candidates to no classes makes the model phase bind
    nothing. *)
Theorem denylist_excludes opts conf :
  let dont_load := dont_load opts ++ SHELL_PLUS_DONT_LOAD conf in
  let load_models := discover dont_load in
  let candidates :=
    get_dict_from_names_to_possible_models dont_load
      (SHELL_PLUS_MODEL_ALIASES conf) (SHELL_PLUS_APP_PREFIXES conf)
      load_models in
  import_objects opts conf
  = import_objects (Options dont_load (quiet_load opts) (traceback opts))
      (Settings [] (SHELL_PLUS_MODEL_ALIASES conf)
         (SHELL_PLUS_APP_PREFIXES conf) (SHELL_PLUS_PRE_IMPORTS conf)
         (SHELL_PLUS_SUBCLASSES_IMPORT conf)
         (SHELL_PLUS_DJANGO_IMPORTS_setting conf) (SHELL_PLUS_IMPORTS conf)
         (SHELL_PLUS_POST_IMPORTS conf))
  ∧ (∀ module name,
       in_load_models load_models module name
       ↔ "*" ∉ dont_load
         ∧ (admitted_model dont_load apps module name
            ∨ admitted_document dont_load _document_registry module name))
  ∧ (∀ alias path,
       in_load_models candidates alias path
       ↔ ∃ module name,
           in_load_models load_models module name
           ∧ dotted (get_app_name module) name ∉ dont_load
           ∧ path = dotted module name
           ∧ alias
             = alias_of
                 (default ∅ (SHELL_PLUS_MODEL_ALIASES conf !! get_app_name module))
                 (SHELL_PLUS_APP_PREFIXES conf !! get_app_name module) name)
  ∧ ("*" ∈ dont_load →
     load_models = [] ∧ candidates = []
     ∧ (run_collision_resolver [] = [] →
        ∀ m, import_models opts conf dont_load load_models m = Run (Ok ()) m [])).
Proof.
  intros dont_load load_models candidates.
  split; [|split; [|split]].
  - destruct opts as [cli q tb], conf as [cl al pf pre sub dj us po].
    unfold import_objects. subst dont_load. simpl. rewrite app_nil_r.
    apply bind_ext; [done|]. intros _ f1. apply bind_ext.
    { intros f. unfold import_subclasses. simpl. destruct sub; [done|].
      apply bind_ext; [done|]. intros _ f'. by apply perform_options. }
    intros _ f2. apply bind_ext; [done|]. intros _ f3. apply bind_ext; [|done].
    intros f. unfold import_models. simpl. by apply perform_options.
  - intros module name. apply in_discover.
  - intros alias path. apply in_get_dict.
  - intros Hstar. subst candidates load_models.
    rewrite (discover_skipped _ _ _ Hstar).
    split; [done|]. split; [done|].
    intros Hresolver m. unfold import_models.
    change (get_dict_from_names_to_possible_models dont_load
              (SHELL_PLUS_MODEL_ALIASES conf) (SHELL_PLUS_APP_PREFIXES conf) [])
      with (@nil (string * list string)).
    by rewrite Hresolver.
Qed.

End Objects.


(* ===================================================================== *)
(** ** The properties on the concrete world *)
(* ===================================================================== *)

(** Every failure of the concrete [import_string] is an [ImportError]. *)
Lemma demo_import_string_raises dotted_path e :
  Demo.import_string dotted_path = Raise e → e = ImportError.
Proof.
  unfold Demo.import_string. intros H.
  repeat case_match; congruence.
Qed.



(** C4 on the concrete world: the model phase binds [Book] to the class of
    [helpers], user imports bind it to the class of [library.models], and
    the user-imports value is the one returned. *)
Lemma later_phase_wins_witness :
  let opts := Options [] true false in
  let conf := Settings [] ∅ ∅ [PStr "import os"] [] false
                [PStr "from library.models import Book"] [PStr "import json"] in
  frame (Demo.perform_automatic_imports opts
           (models_to_import Demo.run_collision_resolver Demo.apps None opts conf)
           ∅) !! "Book"
  = Some (Demo.Value "helpers.Book")
  ∧ ∃ m, result (Demo.import_objects Demo.apps None opts conf) = Ok m
         ∧ m !! "Book" = Some (Demo.Value "library.models.Book").
Proof.
  intros opts conf. split; [reflexivity|].
  destruct (later_phase_wins Demo.obj Demo.ast_parse Demo.find_module Demo.dir
              Demo.getattr Demo.import_string Demo.run_collision_resolver
              Demo.collect_subclasses Demo.apps None opts conf
              {[ "os" := Demo.Module "os" ]} ∅
              {[ "Book" := Demo.Value "library.models.Book" ]}
              {[ "json" := Demo.Module "json" ]})
    as [Hresult Hlookup]; try reflexivity.
  eexists. split; [exact Hresult|].
  apply Hlookup; reflexivity.
Defined.


(** C3 on the concrete world: with the entry [library.Book] the model
    [Author] of the same application stays; with ['*'] nothing is
    discovered. *)
Lemma denylist_excludes_witness :
  in_load_models (discover Demo.apps None ["library.Book"; "helpers"])
    "library.models" "Author"
  ∧ discover Demo.apps None ["helpers"; "*"] = [].
Proof.
  split.
  - destruct (denylist_excludes Demo.obj Demo.ast_parse Demo.find_module
                Demo.dir Demo.getattr Demo.import_string
                Demo.run_collision_resolver Demo.collect_subclasses Demo.apps
                None (Options ["library.Book"] true false)
                (Settings ["helpers"] ∅ ∅ [] [] false [] []))
      as (_ & Hdiscovered & _).
    apply Hdiscovered. split; [cbn; list_notin|]. left.
    exists (App_config (Some "library.models")
              [Model_class "Author" "library.models";
               Model_class "Book" "library.models"]),
      "library.models", (Model_class "Author" "library.models").
    split; [apply list_elem_of_here|]. split; [reflexivity|].
    split; [apply list_elem_of_here|].
    split; [cbn; list_notin|]. split; [cbn; list_notin|].
    split; [discriminate|]. split; reflexivity.
  - destruct (denylist_excludes Demo.obj Demo.ast_parse Demo.find_module
                Demo.dir Demo.getattr Demo.import_string
                Demo.run_collision_resolver Demo.collect_subclasses Demo.apps
                None (Options ["helpers"] true false)
                (Settings ["*"] ∅ ∅ [] [] false [] []))
      as (_ & _ & _ & Hstar).
    apply Hstar. cbn. apply list_elem_of_further, list_elem_of_here.
Defined.

(* ===================================================================== *)
(** ** Further properties of [get_app_name] *)
(* ===================================================================== *)

Section GetAppNameMore.

Lemma split_nonempty sep s : Py.split sep s ≠ [].
Proof.
  destruct s as [|c s]; simpl; [done|].
  destruct (Ascii.eqb c sep); [done|]. by destruct (Py.split sep s).
Qed.

(** Splitting distributes over a separator put between two strings. *)
Lemma split_app sep a b :
  Py.split sep (a +:+ String sep b) = Py.split sep a ++ Py.split sep b.
Proof.
  induction a as [|c a IH]; simpl.
  - by rewrite Ascii.eqb_refl.
  - destruct (Ascii.eqb c sep); [by rewrite IH|].
    rewrite IH. destruct (Py.split sep a) eqn:Ha; [|done].
    by apply split_nonempty in Ha.
Qed.

(** A segment of a split holds no separator: splitting it again gives
    the segment alone. *)
Lemma split_segment sep s seg :
  seg ∈ Py.split sep s → Py.split sep seg = [seg].
Proof.
  revert seg. induction s as [|c s IH]; intros seg; simpl.
  - by intros ->%list_elem_of_singleton.
  - destruct (Ascii.eqb c sep) eqn:Hc.
    + intros [->|Hin]%elem_of_cons; [done|by apply IH].
    + destruct (Py.split sep s) as [|w ws] eqn:Hs.
      * intros ->%list_elem_of_singleton. simpl. by rewrite Hc.
      * intros [->|Hin]%elem_of_cons.
        -- simpl. rewrite Hc. rewrite (IH w); [done|apply list_elem_of_here].
        -- apply IH. by apply list_elem_of_further.
Qed.

Lemma rev_lookup_0 {A} (l : list A) : rev l !! 0 = last l.
Proof.
  induction l as [|x l IH] using rev_ind; [done|].
  by rewrite rev_app_distr, last_snoc.
Qed.

Lemma lookup_elem_of_rev {A} (l : list A) i x : rev l !! i = Some x → x ∈ l.
Proof.
  intros Hx%list_elem_of_lookup_2.
  by rewrite list_elem_of_In, <- in_rev, <- list_elem_of_In in Hx.
Qed.

(** The name of a path without dots is the path. *)
Lemma get_app_name_segment seg :
  Py.split "."%char seg = [seg] → get_app_name seg = seg.
Proof.
  intros Hseg. unfold get_app_name. rewrite Hseg. simpl.
  by destruct (String.eqb seg MODELS_MODULE_NAME).
Qed.

End GetAppNameMore.

(** X1.  The application name of a models module [pkg.models] is the last
    segment of [pkg], and so it is for every module [pkg.models.rest]
    below it whose own segments are not [models]. *)
Theorem app_name_of_models_module (pkg : string) :
  get_app_name (pkg +:+ ".models")
  = default pkg (last (Py.split "."%char pkg))
  ∧ ∀ rest,
      MODELS_MODULE_NAME ∉ Py.split "."%char rest →
      get_app_name (pkg +:+ ".models." +:+ rest)
      = default pkg (last (Py.split "."%char pkg)).
Proof.
  assert (Hlast : ∃ seg, last (Py.split "."%char pkg) = Some seg).
  { destruct (last (Py.split "."%char pkg)) as [seg|] eqn:Hl; [by eauto|].
    apply last_None in Hl. by apply split_nonempty in Hl. }
  destruct Hlast as [seg Hseg]. rewrite Hseg. simpl. split.
  - unfold get_app_name.
    change (pkg +:+ ".models") with (pkg +:+ String "."%char "models").
    rewrite split_app.
    change (Py.split "."%char "models") with (MODELS_MODULE_NAME :: []).
    rewrite rparts_models by apply not_elem_of_nil.
    change (length [] + 1) with (length (@nil string) + 1 + 0).
    by rewrite rparts_lookup, rev_lookup_0, Hseg.
  - intros rest Hrest. unfold get_app_name.
    change (pkg +:+ ".models." +:+ rest)
      with (pkg +:+ String "."%char ("models" +:+ String "."%char rest)).
    rewrite !split_app.
    change (Py.split "."%char "models") with (MODELS_MODULE_NAME :: []).
    simpl app. rewrite rparts_models by done.
    rewrite <- (Nat.add_0_r (length (Py.split "."%char rest) + 1)).
    by rewrite rparts_lookup, rev_lookup_0, Hseg.
Qed.

(** X1 on a nested path. *)
Lemma app_name_of_models_module_witness :
  get_app_name ("a.b.shop" +:+ ".models." +:+ "orders.items") = "shop".
Proof.
  destruct (app_name_of_models_module "a.b.shop") as [_ Hbelow].
  apply (Hbelow "orders.items"). cbn. list_notin.
Defined.

Lemma app_name_shape (mod_name : string) :
  get_app_name mod_name = mod_name
  ∨ (get_app_name mod_name ∈ Py.split "."%char mod_name
     ∧ Py.split "."%char (get_app_name mod_name) = [get_app_name mod_name]).
Proof.
  unfold get_app_name.
  destruct (Py.index _ _) as [i|];
    (destruct (rev (Py.split "."%char mod_name) !! _) as [seg|] eqn:Hseg;
     [right|by left]);
    apply lookup_elem_of_rev in Hseg;
    (split; [done|by eapply split_segment]).
Qed.

(** X2.  [get_app_name] never makes a name up: the result is the whole
    path, or one of its segments, and a segment holds no dot. *)
Theorem app_name_is_path_or_segment (mod_name : string) :
  get_app_name mod_name = mod_name
  ∨ (get_app_name mod_name ∈ Py.split "."%char mod_name
     ∧ Py.split "."%char (get_app_name mod_name) = [get_app_name mod_name]).
Proof. apply app_name_shape. Qed.

(** X3.  [get_app_name] is idempotent: an application name is its own
    application name. *)
Theorem app_name_idempotent (mod_name : string) :
  get_app_name (get_app_name mod_name) = get_app_name mod_name.
Proof.
  destruct (app_name_shape mod_name) as [Hpath|[_ Hseg]].
  - by rewrite !Hpath.
  - by apply get_app_name_segment.
Qed.

(* ===================================================================== *)
(** ** Composition of directives *)
(* ===================================================================== *)

Lemma bind_assoc {F A B C} (c : M F A) (k : A → M F B) (k' : B → M F C) f :
  bind (bind c k) k' f = bind c (λ a, bind (k a) k') f.
Proof.
  unfold bind. destruct (c f) as [[a|e] f1 p1]; [|done].
  destruct (k a f1) as [[b|e] f2 p2]; [|done].
  destruct (k' b f2). by rewrite app_assoc.
Qed.

Lemma for_each_app {F A} (l1 l2 : list A) (body : A → M F unit) f :
  for_each (l1 ++ l2) body f
  = (for_each l1 body ;; for_each l2 body) f.
Proof.
  revert f. induction l1 as [|x l1 IH]; intros f; simpl.
  - unfold bind, ret. by destruct (for_each l2 body f).
  - rewrite bind_assoc. apply bind_ext; [done|]. intros _. apply IH.
Qed.

Section ItemsCompose.

Context (obj : Type) (ast_parse : string → option (list stmt))
  (find_module : string → outcome obj)
  (dir : obj → list string) (getattr : obj → string → option obj).

Local Abbreviation oblivious := (oblivious obj).
Local Abbreviation stacks := (stacks obj).

Implicit Types (m : gmap string obj) (n : option (list stmt)).

Lemma oblivious_node {A} (c : M (items_frame obj) A) m n :
  oblivious c → node (frame (c (Items_frame m n))) = n.
Proof.
  intros Hc. specialize (Hc m ∅ n n).
  rewrite (right_id_L ∅ (∪)) in Hc. by rewrite Hc.
Qed.

Lemma oblivious_ret {A} (a : A) : oblivious (ret a).
Proof. done. Qed.

Lemma oblivious_raise {A} e : oblivious (raise (A := A) e).
Proof. done. Qed.

Lemma oblivious_lift {A} (o : outcome A) : oblivious (lift o).
Proof. done. Qed.

Lemma oblivious_emit e : oblivious (emit e).
Proof. done. Qed.

Lemma oblivious_print st text : oblivious (print st text).
Proof. done. Qed.

Lemma oblivious_percent v : oblivious (percent v).
Proof. by destruct v as [?|[|? [|? ?]]|?|?]. Qed.

Lemma oblivious_set_item k v : oblivious (set_item obj k v).
Proof.
  intros m m0 n n'. unfold set_item, modify. simpl.
  by rewrite insert_union_l.
Qed.

Lemma oblivious_bind {A B} (c : M (items_frame obj) A) (k : A → M _ B) :
  oblivious c → (∀ a, oblivious (k a)) → oblivious (bind c k).
Proof.
  intros Hc Hk m m0 n n'. unfold bind. rewrite (Hc m m0 n n').
  pose proof (oblivious_node c m n Hc) as Hnode.
  destruct (c (Items_frame m n)) as [[a|e] [m1 n1] p1]; simpl in *; [|done].
  subst n1. rewrite (Hk a m1 m0 n n').
  by destruct (k a (Items_frame m1 n)).
Qed.

Lemma oblivious_when b c : oblivious c → oblivious (when b c).
Proof. by destruct b. Qed.

Lemma oblivious_try_except {A} (c : M (items_frame obj) A) catches h :
  oblivious c → (∀ e, oblivious (h e)) → oblivious (try_except c catches h).
Proof.
  intros Hc Hh m m0 n n'. unfold try_except. rewrite (Hc m m0 n n').
  pose proof (oblivious_node c m n Hc) as Hnode.
  destruct (c (Items_frame m n)) as [[a|e] [m1 n1] p1]; simpl in *; [done|].
  destruct (catches e); [|done].
  subst n1. rewrite (Hh e m1 m0 n n').
  by destruct (h e (Items_frame m1 n)).
Qed.

Lemma oblivious_for_each {A} (l : list A) body :
  (∀ x, oblivious (body x)) → oblivious (for_each l body).
Proof.
  intros Hbody. induction l as [|x l IH]; simpl; [done|].
  apply oblivious_bind; [done|]. by intros _.
Qed.

Lemma oblivious_import name fromlist :
  oblivious (__import__ obj find_module name fromlist).
Proof.
  unfold __import__. destruct name as [name|]; [|done].
  apply oblivious_bind; [done|]. intros o. by destruct fromlist.
Qed.

Lemma oblivious_py_getattr o k : oblivious (py_getattr obj getattr o k).
Proof. unfold py_getattr. by destruct (getattr o k). Qed.

Lemma oblivious_import_star o : oblivious (import_star obj dir getattr o).
Proof.
  apply oblivious_for_each. intros k.
  apply oblivious_bind; [apply oblivious_py_getattr|].
  intros v. apply oblivious_set_item.
Qed.

Lemma oblivious_exec_import_name name :
  oblivious (exec_import_name obj find_module name).
Proof.
  unfold exec_import_name, import_module.
  destruct (a_asname name) as [[|c asname]|];
    repeat (apply oblivious_bind; [apply oblivious_lift|intros ?]);
    apply oblivious_set_item.
Qed.

Lemma oblivious_exec_from_name module o name :
  oblivious (exec_from_name obj dir getattr module o name).
Proof.
  unfold exec_from_name. apply oblivious_try_except.
  - destruct (String.eqb _ _); [apply oblivious_import_star|].
    apply oblivious_bind; [apply oblivious_py_getattr|].
    intros v. apply oblivious_set_item.
  - intros e. by apply oblivious_bind.
Qed.

Lemma oblivious_exec_stmt body :
  oblivious (exec_stmt obj find_module dir getattr body).
Proof.
  destruct body as [names|module names level|]; simpl; [| |done].
  - apply oblivious_for_each. intros name. apply oblivious_exec_import_name.
  - apply oblivious_bind; [apply oblivious_import|].
    intros o. apply oblivious_for_each. intros name.
    apply oblivious_exec_from_name.
Qed.

Lemma oblivious_import_names q module o names :
  oblivious (import_names obj getattr q module o names).
Proof.
  induction names as [|name names IH]; simpl; [done|].
  apply oblivious_bind.
  - apply oblivious_try_except.
    + apply oblivious_bind; [apply oblivious_py_getattr|]. intros v.
      apply oblivious_bind; [apply oblivious_set_item|]. by intros _.
    + intros e. apply oblivious_bind; [by apply oblivious_when|]. by intros _.
  - intros found. apply oblivious_bind; [done|]. by intros ?.
Qed.

Lemma oblivious_shown q (v : pyval) (text : pyval → message) :
  oblivious (when (negb q) (let* shown := percent v in print ERROR (text shown))).
Proof.
  apply oblivious_when, oblivious_bind; [apply oblivious_percent|]. by intros ?.
Qed.

Lemma oblivious_run_legacy q directive :
  oblivious (run_legacy obj find_module dir getattr q directive).
Proof.
  unfold run_legacy. apply oblivious_bind; [done|]. intros _.
  assert (∀ d0 d1, oblivious
    match d0 with
    | PStr module =>
        match as_str_sequence d1 with
        | Some names =>
            let* imported_object := __import__ obj find_module (Some module) names in
            let* imported_names :=
              import_names obj getattr q module imported_object names in
            when (negb q)
              (print SQL_COLTYPE
                 (From_import_echo module (Py.join ", " imported_names)))
        | None =>
            match d1 with
            | PStr name =>
                if String.eqb name "*" then
                  let* imported_object := __import__ obj find_module (Some module) ["*"] in
                  import_star obj dir getattr imported_object ;;
                  when (negb q)
                    (print SQL_COLTYPE (From_import_echo module "*"))
                else
                  let* m := __import__ obj find_module (Some module) [name] in
                  let* imported_object := py_getattr obj getattr m name in
                  set_item obj name imported_object ;;
                  when (negb q)
                    (print SQL_COLTYPE (From_import_echo module name))
            | _ =>
                when (negb q) (print ERROR (Names_must_be_strings_in d1 d0))
            end
        end
    | _ =>
        when (negb q)
          (let* shown := percent d0 in
           print ERROR (Module_name_must_be_string shown))
    end) as Hpair.
  { intros d0 d1.
    destruct d0 as [module| | |]; try apply oblivious_shown.
    destruct (as_str_sequence d1) as [names|].
    - apply oblivious_bind; [apply oblivious_import|]. intros o.
      apply oblivious_bind; [apply oblivious_import_names|]. intros ?.
      by apply oblivious_when.
    - destruct d1 as [name| | |]; try by apply oblivious_when.
      destruct (String.eqb name "*").
      + apply oblivious_bind; [apply oblivious_import|]. intros o.
        apply oblivious_bind; [apply oblivious_import_star|]. intros _.
        by apply oblivious_when.
      + apply oblivious_bind; [apply oblivious_import|]. intros o.
        apply oblivious_bind; [apply oblivious_py_getattr|]. intros v.
        apply oblivious_bind; [apply oblivious_set_item|]. intros _.
        by apply oblivious_when. }
  destruct directive as [d|items|items|r].
  - apply oblivious_bind; [apply oblivious_import|]. intros o.
    apply oblivious_bind; [apply oblivious_set_item|]. intros _.
    by apply oblivious_when.
  - destruct (as_pair (PTuple items)) as [[d0 d1]|];
      [apply Hpair|apply oblivious_shown].
  - destruct (as_pair (PList items)) as [[d0 d1]|];
      [apply Hpair|apply oblivious_shown].
  - apply oblivious_shown.
Qed.

Lemma oblivious_stacks {A} (c : M (items_frame obj) A) :
  oblivious c → stacks c.
Proof. intros Hc m m0 n n'. by rewrite (Hc m m0 n n'). Qed.

Lemma stacks_bind {A B} (c : M (items_frame obj) A) (k : A → M _ B) :
  stacks c → (∀ a, stacks (k a)) → stacks (bind c k).
Proof.
  intros Hc Hk m m0 n n'. unfold bind.
  destruct (Hc m m0 n n') as (Hr & Hp & Hf).
  destruct (c (Items_frame (m ∪ m0) n')) as [r' [m1' n1'] p1'].
  destruct (c (Items_frame m n)) as [r [m1 n1] p1].
  simpl in *. subst r' p1' m1'.
  destruct r as [a|e]; [|done].
  destruct (Hk a m1 m0 n1 n1') as (Hr' & Hp' & Hf').
  destruct (k a (Items_frame (m1 ∪ m0) n1')), (k a (Items_frame m1 n1)).
  simpl in *. by subst.
Qed.

Lemma stacks_try_except {A} (c : M (items_frame obj) A) catches h :
  stacks c → (∀ e, stacks (h e)) → stacks (try_except c catches h).
Proof.
  intros Hc Hh m m0 n n'. unfold try_except.
  destruct (Hc m m0 n n') as (Hr & Hp & Hf).
  destruct (c (Items_frame (m ∪ m0) n')) as [r' [m1' n1'] p1'].
  destruct (c (Items_frame m n)) as [r [m1 n1] p1].
  simpl in *. subst r' p1' m1'.
  destruct r as [a|e]; [done|]. destruct (catches e); [|done].
  destruct (Hh e m1 m0 n1 n1') as (Hr' & Hp' & Hf').
  destruct (h e (Items_frame (m1 ∪ m0) n1')), (h e (Items_frame m1 n1)).
  simpl in *. by subst.
Qed.

Lemma stacks_for_each {A} (l : list A) body :
  (∀ x, x ∈ l → stacks (body x)) → stacks (for_each l body).
Proof.
  induction l as [|x l IH]; intros Hbody; simpl; [done|].
  apply stacks_bind; [apply Hbody, list_elem_of_here|].
  intros _. apply IH. intros y Hy. by apply Hbody, list_elem_of_further.
Qed.

(** A statement that parses assigns [node] before reading it. *)
Lemma stacks_parsed_statement q directive stmts :
  ast_parse directive = Some stmts →
  stacks (run_statement obj ast_parse find_module dir getattr q directive).
Proof.
  intros Hparse m m0 n n'. unfold run_statement. rewrite Hparse.
  do 2 (erewrite (bind_run (set_node obj stmts)) by reflexivity).
  do 2 (erewrite (bind_run (read_node obj)) by reflexivity).
  simpl.
  match goal with
  | |- context [result (?k (Items_frame (m ∪ m0) (Some stmts)))] =>
      assert (oblivious k) as Hrest
  end.
  { destruct (negb (forallb is_import stmts)); [by apply oblivious_when|].
    apply oblivious_bind; [by apply oblivious_when|]. intros _.
    apply oblivious_for_each, oblivious_exec_stmt. }
  by rewrite (Hrest m m0 (Some stmts) (Some stmts)).
Qed.

Lemma stacks_run_directive q directive :
  parses_or_reports ast_parse q directive →
  stacks (run_directive obj ast_parse find_module dir getattr q directive).
Proof.
  intros Hparses. unfold run_directive. apply stacks_try_except.
  - destruct directive as [s| | |];
      try apply oblivious_stacks, oblivious_run_legacy.
    destruct (_ || _) eqn:Hs;
      [|apply oblivious_stacks, oblivious_run_legacy].
    destruct (ast_parse (Py.strip s)) as [stmts|] eqn:Hparse;
      [by eapply stacks_parsed_statement|].
    destruct Hparses as [->|Hparses].
    + unfold run_statement. rewrite Hparse. simpl.
      apply oblivious_stacks, oblivious_print.
    + destruct (Hparses Hs) as [stmts Hstmts]. congruence.
  - intros e. apply oblivious_stacks, oblivious_shown.
Qed.

Lemma stacks_directives q directives :
  Forall (parses_or_reports ast_parse q) directives →
  stacks (for_each directives
            (run_directive obj ast_parse find_module dir getattr q)).
Proof.
  intros Hall. apply stacks_for_each. intros d Hd.
  apply stacks_run_directive. by eapply Forall_forall in Hall.
Qed.

Local Abbreviation import_items :=
  (import_items obj ast_parse find_module dir getattr).
Local Abbreviation run_directive :=
  (run_directive obj ast_parse find_module dir getattr).
Local Abbreviation parses_or_reports := (parses_or_reports ast_parse).

(** [import_items] is its loop, run from the empty frame. *)
Lemma import_items_loop directives q :
  let r := for_each directives (run_directive q) (Items_frame ∅ None) in
  result (import_items directives q)
  = match result r with
    | Ok _ => Ok (imported_objects (frame r))
    | Raise e => Raise e
    end
  ∧ printed (import_items directives q) = printed r
  ∧ frame (import_items directives q) = frame r.
Proof.
  unfold import_items, bind. simpl.
  destruct (for_each directives _ _) as [[[]|e] f p]; simpl; [|done].
  by rewrite app_nil_r.
Qed.

(** What a run of a second batch is after a first one that returned. *)
Lemma loop_after q directives (f : items_frame obj) :
  Forall (parses_or_reports q) directives →
  let r := for_each directives (run_directive q) (Items_frame ∅ None) in
  let r' := for_each directives (run_directive q) f in
  result r' = result r ∧ printed r' = printed r
  ∧ imported_objects (frame r') = imported_objects (frame r) ∪ imported_objects f.
Proof.
  intros Hall. destruct f as [m n].
  pose proof (stacks_directives q directives Hall ∅ m None n) as Hstacks.
  by rewrite (left_id_L ∅ (∪)) in Hstacks.
Qed.

(** X4.  Batches compose.  After a batch that returned, a second batch
    with no chance to read a stale [node] (the mode is not quiet, or its
    statements all parse) binds and prints what it does on its own: the
    bindings of the second are laid over those of the first, the output is
    the two outputs in a row, and an exception of the second is the
    exception of the whole. *)
Theorem directives_compose (q : bool) (ds1 ds2 : list pyval)
    (m1 : gmap string obj) :
  Forall (parses_or_reports q) ds2 →
  result (import_items ds1 q) = Ok m1 →
  result (import_items (ds1 ++ ds2) q)
  = match result (import_items ds2 q) with
    | Ok m2 => Ok (m2 ∪ m1)
    | Raise e => Raise e
    end
  ∧ printed (import_items (ds1 ++ ds2) q)
    = printed (import_items ds1 q) ++ printed (import_items ds2 q).
Proof.
  intros Hall H1.
  destruct (import_items_loop ds1 q) as (Hr1 & Hp1 & _).
  destruct (import_items_loop ds2 q) as (Hr2 & Hp2 & _).
  destruct (import_items_loop (ds1 ++ ds2) q) as (Hr & Hp & _).
  rewrite Hr, Hp, Hr2, Hp1, Hp2. rewrite H1 in Hr1. clear Hr Hp Hr2 Hp1 Hp2.
  rewrite for_each_app. unfold bind.
  destruct (for_each ds1 _ _) as [[[]|e] f1 p1]; simpl in *; [|done].
  injection Hr1 as ->.
  destruct (loop_after q ds2 f1 Hall) as (Hres & Hprinted & Hframe).
  destruct (for_each ds2 (run_directive q) f1) as [r2' f2' p2'].
  destruct (for_each ds2 (run_directive q) (Items_frame ∅ None)) as [r2 f2 p2].
  simpl in *. subst r2' p2'. rewrite Hframe. by destruct r2 as [[]|e].
Qed.

(** Like [bind_ext], for continuations that agree on the frames the first
    part can leave. *)
Lemma bind_ext_after {F A B} (c : M F A) (k k' : A → M F B) f :
  (∀ a, result (c f) = Ok a → k a (frame (c f)) = k' a (frame (c f))) →
  bind c k f = bind c k' f.
Proof.
  intros Hk. unfold bind.
  destruct (c f) as [[a|e] f1 p1]; [|done]. simpl in Hk. by rewrite Hk.
Qed.

(** A statement directive that parses is an oblivious computation run
    with [node] set to its statements. *)
Lemma parsed_directive_run q s stmts :
  is_statement s →
  ast_parse (Py.strip s) = Some stmts →
  ∃ c : M (items_frame obj) unit,
    oblivious c
    ∧ ∀ m n, run_directive q (PStr s) (Items_frame m n)
             = c (Items_frame m (Some stmts)).
Proof.
  unfold is_statement. intros Hs Hparse.
  eexists (try_except
             (if negb (forallb is_import stmts)
              then when (negb q)
                     (print ERROR (Only_specify_import_statements (Py.strip s)))
              else
                when (negb q) (print SQL_COLTYPE (Statement (Py.strip s))) ;;
                for_each stmts (exec_stmt obj find_module dir getattr))
             is_ImportError
             (λ _, when (negb q)
                     (let* shown := percent (PStr (Py.strip s)) in
                      print ERROR (Unable_to_import shown)))).
  split.
  - apply oblivious_try_except; [|intros e; apply oblivious_shown].
    destruct (negb (forallb is_import stmts)); [by apply oblivious_when|].
    apply oblivious_bind; [by apply oblivious_when|]. intros _.
    apply oblivious_for_each, oblivious_exec_stmt.
  - intros m n. unfold run_directive. rewrite Hs.
    unfold run_statement. rewrite Hparse. unfold try_except.
    erewrite (bind_run (set_node obj stmts)) by reflexivity.
    erewrite (bind_run (read_node obj)) by reflexivity.
    simpl. by destruct (_ (Items_frame m (Some stmts))) as [[[]|e] f1 p1].
Qed.

(** In quiet mode, over a frame whose [node] holds the statements of
    [good], a statement that does not parse does what [good] does. *)
Lemma stale_node_rerun good bad stmts m :
  is_statement good → is_statement bad →
  ast_parse (Py.strip good) = Some stmts →
  ast_parse (Py.strip bad) = None →
  run_directive true (PStr bad) (Items_frame m (Some stmts))
  = run_directive true (PStr good) (Items_frame m (Some stmts)).
Proof.
  unfold is_statement. intros Hgood Hbad Hparse Hfail.
  unfold run_directive. rewrite Hgood, Hbad.
  unfold run_statement. rewrite Hparse, Hfail. unfold try_except. simpl.
  erewrite (bind_run (set_node obj stmts)) by reflexivity. simpl.
  by destruct (bind (read_node obj) _ _) as [[[]|e] f1 p1].
Qed.

(** X5.  In quiet mode a statement that does not parse silently repeats
    the statement directive before it: the batch does exactly what it does
    with the earlier directive written twice. *)
Theorem quiet_parse_failure_repeats (ds rest : list pyval)
    (good bad : string) (stmts : list stmt) :
  is_statement good → is_statement bad →
  ast_parse (Py.strip good) = Some stmts →
  ast_parse (Py.strip bad) = None →
  import_items (ds ++ PStr good :: PStr bad :: rest) true
  = import_items (ds ++ PStr good :: PStr good :: rest) true.
Proof.
  intros Hgood Hbad Hparse Hfail.
  unfold import_items. apply bind_ext; [|done]. intros f.
  rewrite !for_each_app. apply bind_ext; [done|]. intros _ f1.
  cbn [for_each]. apply bind_ext_after. intros _ _.
  destruct (parsed_directive_run true good stmts Hgood Hparse)
    as (c & Hc & Hrun).
  destruct f1 as [m1 n1]. rewrite Hrun.
  pose proof (oblivious_node c m1 (Some stmts) Hc) as Hnode.
  destruct (frame (c (Items_frame m1 (Some stmts)))) as [m2 n2].
  simpl in Hnode. subst n2.
  unfold bind. by rewrite (stale_node_rerun good bad stmts m2).
Qed.

(** A directive that returns with the bindings as they were is skipped:
    the batch is the batch without it, after its output. *)
Lemma skipped_directive q d rest n evs :
  run_directive q d (Items_frame ∅ None) = Run (Ok ()) (Items_frame ∅ n) evs →
  Forall (parses_or_reports q) rest →
  result (import_items (d :: rest) q) = result (import_items rest q)
  ∧ printed (import_items (d :: rest) q) = evs ++ printed (import_items rest q).
Proof.
  intros Hrun Hrest.
  destruct (import_items_loop (d :: rest) q) as (Hr & Hp & _).
  destruct (import_items_loop rest q) as (Hr' & Hp' & _).
  rewrite Hr, Hp, Hr', Hp'. clear Hr Hp Hr' Hp'.
  cbn [for_each]. unfold bind. rewrite Hrun.
  destruct (loop_after q rest (Items_frame ∅ n) Hrest) as (Hres & Hprinted & Hframe).
  destruct (for_each rest (run_directive q) (Items_frame ∅ n)) as [r2' f2' p2'].
  destruct (for_each rest (run_directive q) (Items_frame ∅ None)) as [r2 f2 p2].
  simpl in *. subst r2' p2'. rewrite Hframe, (right_id_L ∅ (∪)).
  by destruct r2 as [[]|e].
Qed.

Lemma malformed_quiet_run d f :
  malformed d →
  run_directive true d f = Run (Ok ()) f [Warn_deprecated].
Proof.
  intros [Hstr Hshape]. unfold run_directive, run_legacy.
  destruct d as [s|items|items|o]; [done|..];
    (destruct (as_pair _) as [[d0 d1]|]; [|by unfold_run]);
    (destruct d0 as [module| | |]; [|by unfold_run..]);
    (destruct Hshape as [?|[Hseq Hd1]]; [done|]); rewrite Hseq;
    (destruct d1; [done|by unfold_run..]).
Qed.

(** X6.  In quiet mode a directive of none of the accepted shapes only
    warns of the deprecated form: wherever it stands in the batch, the
    call returns or raises what it does without it, and when the
    directives before it return, the output is the output without it with
    one more warning at its place. *)
Theorem malformed_directive_quiet (ds rest : list pyval) (d : pyval) :
  malformed d →
  result (import_items (ds ++ d :: rest) true)
  = result (import_items (ds ++ rest) true)
  ∧ ∀ m, result (import_items ds true) = Ok m →
      ∃ after,
        printed (import_items (ds ++ rest) true)
        = printed (import_items ds true) ++ after
        ∧ printed (import_items (ds ++ d :: rest) true)
          = printed (import_items ds true) ++ Warn_deprecated :: after.
Proof.
  intros Hd.
  destruct (import_items_loop (ds ++ d :: rest) true) as (Hr & Hp & _).
  destruct (import_items_loop (ds ++ rest) true) as (Hr' & Hp' & _).
  destruct (import_items_loop ds true) as (Hr1 & Hp1 & _).
  rewrite Hr, Hp, Hr', Hp', Hr1, Hp1. clear Hr Hp Hr' Hp' Hr1 Hp1.
  rewrite !for_each_app. cbn [for_each]. unfold bind.
  destruct (for_each ds _ _) as [[[]|e] f1 p1]; cbn [result printed frame];
    [|done].
  rewrite (malformed_quiet_run d f1 Hd).
  destruct (for_each rest _ f1) as [[[]|e] f2 p2]; cbn [result printed frame];
    (split; [done|]); intros m _; exists p2; (split; [done|]);
    by rewrite <- ?app_assoc.
Qed.

(** X7.  In non-quiet mode the report of a directive of the wrong length
    formats the directive itself: a list, or a tuple of one item, is
    reported and the batch goes on; a tuple of any other length is the
    argument list of the format, so the call raises [TypeError] after the
    warning, whatever follows. *)
Theorem wrong_length_is_reported_or_raises (items : list pyval)
    (rest : list pyval) :
  length items ≠ 2 →
  (result (import_items (PList items :: rest) false)
   = result (import_items rest false)
   ∧ printed (import_items (PList items :: rest) false)
     = [Warn_deprecated; Print ERROR (Names_must_be_strings (PList items))]
       ++ printed (import_items rest false))
  ∧ (∀ x, items = [x] →
       result (import_items (PTuple items :: rest) false)
       = result (import_items rest false)
       ∧ printed (import_items (PTuple items :: rest) false)
         = [Warn_deprecated; Print ERROR (Names_must_be_strings x)]
           ++ printed (import_items rest false))
  ∧ (length items ≠ 1 →
       result (import_items (PTuple items :: rest) false) = Raise TypeError
       ∧ printed (import_items (PTuple items :: rest) false) = [Warn_deprecated]).
Proof.
  intros Hlen.
  assert (Hrest : Forall (parses_or_reports false) rest).
  { apply Forall_forall. intros d _. by left. }
  assert (Hpair : ∀ v, as_sequence v = Some items → as_pair v = None).
  { intros v Hv. unfold as_pair. rewrite Hv.
    by destruct items as [|? [|? [|? ?]]]. }
  split; [|split].
  - apply (skipped_directive false _ rest None); [|done].
    unfold run_directive, run_legacy. rewrite (Hpair (PList items)) by done.
    by unfold_run.
  - intros x ->. apply (skipped_directive false _ rest None); [|done].
    by unfold_items.
  - intros Hlen1.
    destruct (import_items_loop (PTuple items :: rest) false) as (Hr & Hp & _).
    rewrite Hr, Hp. clear Hr Hp. cbn [for_each].
    unfold run_directive, run_legacy. rewrite (Hpair (PTuple items)) by done.
    unfold_run. by destruct items as [|? [|? ?]].
Qed.


Local Abbreviation bind_targets := (bind_targets obj getattr).

Lemma bind_targets_snoc o names name m :
  bind_targets o (names ++ [name]) m
  = match getattr o (a_name name) with
    | Some v => <[target name := v]> (bind_targets o names m)
    | None => bind_targets o names m
    end.
Proof. unfold bind_targets. by rewrite foldl_app. Qed.

Local Abbreviation plain_resolved := (plain_resolved obj getattr).

(** The from-import loop over resolved names. *)
Lemma for_each_from_aliases module o names f :
  plain_resolved o names →
  for_each names (exec_from_name obj dir getattr module o) f
  = Run (Ok ())
      (Items_frame (bind_targets o names (imported_objects f)) (node f)) [].
Proof.
  intros Hall. revert f.
  induction Hall as [|name names [Hstar [v Hv]] _ IH]; intros f.
  - by destruct f.
  - apply String.eqb_neq in Hstar.
    cbn [for_each]. unfold bind at 1. unfold_from_name.
    rewrite Hstar. unfold_run. rewrite Hv. rewrite IH.
    unfold bind_targets, target. simpl. by rewrite Hv.
Qed.

Lemma bind_targets_bound o names m k :
  plain_resolved o names →
  is_Some (bind_targets o names m !! k)
  ↔ is_Some (m !! k) ∨ k ∈ target <$> names.
Proof.
  induction names as [|name names IH] using rev_ind; intros Hall.
  - simpl. rewrite elem_of_nil. tauto.
  - apply Forall_app in Hall as [Hnames [[_ [v Hv]] _]%Forall_cons].
    rewrite bind_targets_snoc, Hv, fmap_app, elem_of_app. simpl.
    rewrite list_elem_of_singleton.
    destruct (decide (k = target name)) as [->|Hne].
    + rewrite lookup_insert_eq. split; [auto|]. by intros _.
    + rewrite lookup_insert_ne by done. rewrite (IH Hnames). tauto.
Qed.

Lemma bind_targets_lookup o names m name :
  plain_resolved o names →
  NoDup (target <$> names) →
  name ∈ names →
  bind_targets o names m !! target name = getattr o (a_name name).
Proof.
  induction names as [|x names IH] using rev_ind; intros Hall Hdup Hin.
  - by apply elem_of_nil in Hin.
  - apply Forall_app in Hall as [Hnames [[_ [v Hv]] _]%Forall_cons].
    rewrite fmap_app in Hdup. apply NoDup_app in Hdup as (Hdup & Hfresh & _).
    rewrite bind_targets_snoc, Hv.
    apply elem_of_app in Hin as [Hin| ->%list_elem_of_singleton].
    + rewrite lookup_insert_ne; [by apply IH|].
      intros Heq. apply (Hfresh (target name)).
      * by apply list_elem_of_fmap_2.
      * rewrite <- Heq. simpl. apply list_elem_of_here.
    + by rewrite lookup_insert_eq.
Qed.

(** X9.  A from-import statement over resolved names binds exactly the
    declared names, each alias in place of its name; when no two of them
    are the same, each is bound to the attribute of the module that its
    name denotes. *)
Theorem from_import_binds_declared_names (q : bool) (s module : string)
    (names : list alias) (level : nat) (o : obj) :
  is_statement s →
  ast_parse (Py.strip s) = Some [ImportFrom (Some module) names level] →
  names ≠ [] →
  find_module module = Ok o →
  plain_resolved o names →
  ∃ m, result (import_items [PStr s] q) = Ok m
       ∧ (∀ k, is_Some (m !! k) ↔ k ∈ target <$> names)
       ∧ (NoDup (target <$> names) →
          ∀ name, name ∈ names → m !! target name = getattr o (a_name name)).
Proof.
  unfold is_statement. intros Hs Hparse Hnames Hmod Hall.
  exists (bind_targets o names ∅). split; [|split].
  - assert (Hfrom : ∃ k ks, a_name <$> names = k :: ks).
    { destruct names; [done|]. simpl; eauto. }
    destruct Hfrom as (k' & ks & Hfrom).
    unfold_items. rewrite Hs. unfold_items. rewrite Hparse. unfold_items.
    destruct q; unfold_items; rewrite Hmod, Hfrom; cbv beta iota;
      rewrite for_each_from_aliases by done; done.
  - intros k. rewrite bind_targets_bound by done.
    rewrite lookup_empty, is_Some_alt. tauto.
  - intros Hdup name Hin. by apply bind_targets_lookup.
Qed.

(** X10.  A from-import statement with a name that the module lacks keeps
    the names before it bound and binds none after it; what the module
    holds is printed in quiet mode too, and the statement is reported as
    one that could not be imported. *)
Theorem missing_from_name_keeps_earlier (q : bool) (s module : string)
    (pre post : list alias) (missing : alias) (level : nat) (o : obj) :
  is_statement s →
  ast_parse (Py.strip s)
  = Some [ImportFrom (Some module) (pre ++ missing :: post) level] →
  find_module module = Ok o →
  plain_resolved o pre →
  a_name missing ≠ "*" →
  getattr o (a_name missing) = None →
  result (import_items [PStr s] q) = Ok (bind_targets o pre ∅)
  ∧ printed (import_items [PStr s] q)
    = (if q then [] else [Print SQL_COLTYPE (Statement (Py.strip s))])
      ++ Print PLAIN (Couldnt_find (a_name missing) (Some module) (dir o))
      :: (if q then []
          else [Print ERROR (Unable_to_import (PStr (Py.strip s)))]).
Proof.
  unfold is_statement. intros Hs Hparse Hmod Hpre Hstar Hmissing.
  apply String.eqb_neq in Hstar.
  assert (Hfrom : ∃ k ks, a_name <$> pre ++ missing :: post = k :: ks).
  { destruct pre; simpl; eauto. }
  destruct Hfrom as (k & ks & Hfrom).
  assert (Hloop :
    for_each (pre ++ missing :: post) (exec_from_name obj dir getattr (Some module) o)
      (Items_frame ∅ (Some [ImportFrom (Some module) (pre ++ missing :: post) level]))
    = Run (Raise ImportError)
        (Items_frame (bind_targets o pre ∅)
           (Some [ImportFrom (Some module) (pre ++ missing :: post) level]))
        [Print PLAIN (Couldnt_find (a_name missing) (Some module) (dir o))]).
  { rewrite for_each_app. unfold bind at 1.
    rewrite for_each_from_aliases by done. cbn [for_each].
    unfold bind at 1. unfold_from_name. rewrite Hstar. unfold_run.
    by rewrite Hmissing. }
  unfold_items. rewrite Hs. unfold_items. rewrite Hparse. unfold_items.
  destruct q; unfold_items; rewrite Hmod, Hfrom; cbv beta iota;
    rewrite Hloop; done.
Qed.

(** The loop of the old-style name sequence: the names that exist are
    bound and returned, the others reported. *)
Lemma import_names_run q module o names (f : items_frame obj) :
  import_names obj getattr q module o names f
  = Run (Ok (filter (λ k, is_Some (getattr o k)) names))
      (Items_frame (bind_attrs obj getattr o names (imported_objects f)) (node f))
      (if q then []
       else (λ k, Print ERROR (Does_not_exist k module))
            <$> filter (λ k, ¬ is_Some (getattr o k)) names).
Proof.
  revert f. induction names as [|k names IH]; intros f.
  - destruct f. by destruct q.
  - rewrite import_names_cons.
    change (bind_attrs obj getattr o (k :: names) (imported_objects f))
      with (bind_attrs obj getattr o names
              (match getattr o k with
               | Some v => <[k := v]> (imported_objects f)
               | None => imported_objects f
               end)).
    unfold bind at 1. unfold_run.
    destruct (getattr o k) as [v|] eqn:Hv.
    + rewrite filter_cons_True by (by rewrite Hv).
      rewrite filter_cons_False by (rewrite Hv; by intros []).
      rewrite IH. simpl. by rewrite app_nil_r.
    + rewrite filter_cons_False by (rewrite Hv; by intros [? ?]).
      rewrite filter_cons_True by (rewrite Hv; by intros [? ?]).
      cbv beta iota. destruct q; cbv beta iota; rewrite IH; simpl;
        rewrite ?app_nil_r; by destruct f.
Qed.

(** X22.  An old-style pair of a module and a sequence of names binds
    the names that the module has and reports each of the others: the
    call returns, and the echo lists the names that were bound. *)
Theorem name_sequence_skips_missing (q : bool) (directive d1 : pyval)
    (module : string) (names : list string) (o : obj) :
  as_pair directive = Some (PStr module, d1) →
  as_str_sequence d1 = Some names →
  names ≠ [] →
  find_module module = Ok o →
  result (import_items [directive] q) = Ok (bind_attrs obj getattr o names ∅)
  ∧ printed (import_items [directive] q)
    = Warn_deprecated
      :: (if q then []
          else ((λ k, Print ERROR (Does_not_exist k module))
                <$> filter (λ k, ¬ is_Some (getattr o k)) names)
               ++ [Print SQL_COLTYPE
                     (From_import_echo module
                        (Py.join ", "
                           (filter (λ k, is_Some (getattr o k)) names)))]).
Proof.
  intros Hpair Hseq Hne Hmod.
  apply as_pair_inv in Hpair as [->| ->];
    unfold_items; rewrite Hseq; cbv beta iota; rewrite Hmod;
    (destruct names as [|n names]; [done|]); cbv beta iota;
    rewrite import_names_run; destruct q; cbv beta iota;
    cbn [result frame printed imported_objects node];
    rewrite ?app_nil_r; done.
Qed.

End ItemsCompose.

(* ===================================================================== *)
(** ** What the calls can raise and print *)
(* ===================================================================== *)

Section Escapes.

Context {F : Type} (P : exn → Prop).

Lemma raises_only_ret {A} (a : A) : raises_only (F := F) P (ret a).
Proof. by intros f e. Qed.

Lemma raises_only_emit e : raises_only (F := F) P (emit e).
Proof. by intros f e'. Qed.

Lemma raises_only_print st text : raises_only (F := F) P (print st text).
Proof. by intros f e'. Qed.

Lemma raises_only_modify (g : F → F) : raises_only P (modify g).
Proof. by intros f e'. Qed.

Lemma raises_only_get_frame : raises_only (F := F) P get_frame.
Proof. by intros f e'. Qed.

Lemma raises_only_percent v : P TypeError → raises_only (F := F) P (percent v).
Proof.
  intros HP f e. destruct v as [?|[|? [|? ?]]|?|?]; simpl; try done;
    by intros [= <-].
Qed.

Lemma raises_only_bind {A B} (c : M F A) (k : A → M F B) :
  raises_only P c → (∀ a, raises_only P (k a)) → raises_only P (bind c k).
Proof.
  intros Hc Hk f e. unfold bind. specialize (Hc f).
  destruct (c f) as [[a|e'] f1 p1]; simpl in *.
  - specialize (Hk a f1 e). by destruct (k a f1).
  - intros [= ->]. by apply Hc.
Qed.

Lemma raises_only_when b (c : M F unit) :
  raises_only P c → raises_only P (when b c).
Proof. destruct b; [done|]. intros ?. apply raises_only_ret. Qed.

Lemma raises_only_when_nonempty {A} (l : list A) (c : M F unit) :
  raises_only P c → raises_only P (when_nonempty l c).
Proof. destruct l; [|done]. intros ?. apply raises_only_ret. Qed.

(** What escapes a [try] is what the handler does not catch and what the
    handler raises itself, whatever the body is. *)
Lemma raises_only_try_except {A} (c : M F A) catches h :
  (∀ e, catches e = false → P e) →
  (∀ e, raises_only P (h e)) →
  raises_only P (try_except c catches h).
Proof.
  intros Hloose Hh f e. unfold try_except.
  destruct (c f) as [[a|e'] f1 p1]; simpl; [done|].
  destruct (catches e') eqn:He'.
  - specialize (Hh e' f1 e). by destruct (h e' f1).
  - simpl. intros [= ->]. by apply Hloose.
Qed.

Lemma raises_only_for_each {A} (l : list A) (body : A → M F unit) :
  (∀ x, raises_only P (body x)) → raises_only P (for_each l body).
Proof.
  intros Hbody. induction l as [|x l IH]; [apply raises_only_ret|].
  cbn [for_each]. by apply raises_only_bind.
Qed.

End Escapes.

Section Emits.

Context {F : Type} (P : event → Prop).

Lemma emits_ret {A} (a : A) : emits (F := F) P (ret a).
Proof. intros f. apply Forall_nil_2. Qed.

Lemma emits_raise {A} e : emits (F := F) (A := A) P (raise e).
Proof. intros f. apply Forall_nil_2. Qed.

Lemma emits_lift {A} (o : outcome A) : emits (F := F) P (lift o).
Proof. intros f. apply Forall_nil_2. Qed.

Lemma emits_modify (g : F → F) : emits P (modify g).
Proof. intros f. apply Forall_nil_2. Qed.

Lemma emits_get_frame : emits (F := F) P get_frame.
Proof. intros f. apply Forall_nil_2. Qed.

Lemma emits_emit e : P e → emits (F := F) P (emit e).
Proof. intros He f. by apply Forall_singleton. Qed.

Lemma emits_bind {A B} (c : M F A) (k : A → M F B) :
  emits P c → (∀ a, emits P (k a)) → emits P (bind c k).
Proof.
  intros Hc Hk f. unfold bind. specialize (Hc f).
  destruct (c f) as [[a|e] f1 p1]; simpl in *; [|done].
  specialize (Hk a f1). destruct (k a f1). simpl in *.
  by apply Forall_app.
Qed.

Lemma emits_try_except {A} (c : M F A) catches h :
  emits P c → (∀ e, emits P (h e)) → emits P (try_except c catches h).
Proof.
  intros Hc Hh f. unfold try_except. specialize (Hc f).
  destruct (c f) as [[a|e] f1 p1]; simpl in *; [done|].
  destruct (catches e); [|done].
  specialize (Hh e f1). destruct (h e f1). simpl in *.
  by apply Forall_app.
Qed.

Lemma emits_for_each {A} (l : list A) (body : A → M F unit) :
  (∀ x, emits P (body x)) → emits P (for_each l body).
Proof.
  intros Hbody. induction l as [|x l IH]; [apply emits_ret|].
  cbn [for_each]. by apply emits_bind.
Qed.

(** A guarded computation whose guard is off emits nothing. *)
Lemma emits_when b (c : M F unit) :
  (b = true → emits P c) → emits P (when b c).
Proof. destruct b; [by intros Hc; apply Hc|]. intros _. apply emits_ret. Qed.

Lemma emits_when_nonempty {A} (l : list A) (c : M F unit) :
  emits P c → emits P (when_nonempty l c).
Proof. destruct l; [|done]. intros _. apply emits_ret. Qed.

End Emits.

Lemma emits_percent {F} (P : event → Prop) v : emits (F := F) P (percent v).
Proof.
  intros f. destruct v as [?|[|? [|? ?]]|?|?]; apply Forall_nil_2.
Qed.

Ltac emits_step :=
  match goal with
  | |- emits _ (bind _ _) => apply emits_bind; [|intros ?]
  | |- emits _ (ret _) => apply emits_ret
  | |- emits _ (raise _) => apply emits_raise
  | |- emits _ (lift _) => apply emits_lift
  | |- emits _ (modify _) => apply emits_modify
  | |- emits _ get_frame => apply emits_get_frame
  | |- emits _ (percent _) => apply emits_percent
  | |- emits _ (when (negb true) _) => apply emits_when; intros [=]
  | |- emits _ (when false _) => apply emits_when; intros [=]
  | |- emits _ (emit Warn_deprecated) => apply emits_emit; by left
  | |- emits _ (print PLAIN (Couldnt_find _ _ _)) =>
      apply emits_emit; right; left; eauto
  | |- emits _ (try_except _ _ _) => apply emits_try_except; [|intros ?]
  | |- emits _ (for_each _ _) => apply emits_for_each; intros ?
  | |- emits _ (if ?c then _ else _) => destruct c
  | |- emits _ (match ?x with _ => _ end) => destruct x
  end.

Section Outcomes.

Context (obj : Type) (ast_parse : string → option (list stmt))
  (find_module : string → outcome obj)
  (dir : obj → list string) (getattr : obj → string → option obj)
  (import_string : string → outcome obj)
  (run_collision_resolver :
     list (string * list string) → list (string * list (string * string)))
  (collect_subclasses : list pyval → list (string * list (string * string)))
  (apps : list app_config)
  (_document_registry : option (list (string * model_class))).

Local Abbreviation import_items :=
  (import_items obj ast_parse find_module dir getattr).
Local Abbreviation run_directive :=
  (run_directive obj ast_parse find_module dir getattr).
Local Abbreviation import_phase :=
  (import_phase obj ast_parse find_module dir getattr).
Local Abbreviation perform_automatic_imports :=
  (perform_automatic_imports obj import_string).
Local Abbreviation import_subclasses :=
  (import_subclasses obj import_string collect_subclasses).
Local Abbreviation import_models :=
  (import_models obj import_string run_collision_resolver).
Local Abbreviation import_objects :=
  (import_objects obj ast_parse find_module dir getattr import_string
     run_collision_resolver collect_subclasses apps _document_registry).
Local Abbreviation discover := (discover apps _document_registry).
Local Abbreviation subclasses_to_import :=
  (subclasses_to_import collect_subclasses).
Local Abbreviation models_to_import :=
  (models_to_import run_collision_resolver apps _document_registry).

Implicit Types (m : gmap string obj) (opts : options) (conf : settings).

(** The handler of a directive catches every [ImportError] and raises at
    most the [TypeError] of its own report. *)
Lemma raises_only_directives q directives :
  raises_only (λ e, e ≠ ImportError) (for_each directives (run_directive q)).
Proof.
  apply raises_only_for_each. intros d. unfold run_directive.
  apply raises_only_try_except.
  - by intros [].
  - intros ?. apply raises_only_when, raises_only_bind.
    + by apply raises_only_percent.
    + intros shown. apply raises_only_print.
Qed.

(** X11.  [import_items] never raises [ImportError]: in both modes, every
    one raised while a directive runs, by the import system or by a
    missing from-import name, ends in the handler of that directive. *)
Theorem import_items_catches_import_errors (directives : list pyval) (q : bool) :
  result (import_items directives q) ≠ Raise ImportError.
Proof.
  intros Hraise. unfold import_items in Hraise.
  eapply (raises_only_bind (λ e, e ≠ ImportError)); [| |exact Hraise|done].
  - apply raises_only_directives.
  - intros ?. apply raises_only_bind; [apply raises_only_get_frame|].
    intros f. apply raises_only_ret.
Qed.

Lemma raises_only_import_phase q title directives :
  raises_only (λ e, e ≠ ImportError) (import_phase q title directives).
Proof.
  unfold import_phase.
  apply raises_only_bind; [apply raises_only_when, raises_only_print|].
  intros ?. apply raises_only_bind; [|intros imports; apply raises_only_modify].
  intros m e. simpl. unfold import_items.
  apply (raises_only_bind (λ e, e ≠ ImportError)).
  - apply raises_only_directives.
  - intros ?. apply raises_only_bind; [apply raises_only_get_frame|].
    intros f. apply raises_only_ret.
Qed.

Lemma raises_only_perform opts modules_to_classes :
  raises_only (λ e, e ≠ ImportError)
    (perform_automatic_imports opts modules_to_classes).
Proof.
  unfold perform_automatic_imports. apply raises_only_for_each.
  intros [full_module_path models]. simpl.
  apply raises_only_bind; [|intros labels; apply raises_only_when, raises_only_print].
  induction (Py.sorted Py.pair_le models) as [|[model_name alias] l IH].
  - apply raises_only_ret.
  - rewrite import_classes_cons. apply raises_only_bind.
    + apply raises_only_try_except; [by intros []|].
      intros e. apply raises_only_bind; [apply raises_only_when, raises_only_emit|].
      intros ?. apply raises_only_bind; [apply raises_only_when, raises_only_print|].
      intros ?. apply raises_only_ret.
    + intros label. apply raises_only_bind; [done|].
      intros labels. apply raises_only_ret.
Qed.


Lemma bind_result_raise {F A B} (c : M F A) (k : A → M F B) f e :
  result (c f) = Raise e → result (bind c k f) = Raise e.
Proof. unfold bind. by destruct (c f) as [[a|e'] f1 p1]; simpl; intros [= ->]. Qed.

Lemma import_phase_raise q title directives e m :
  result (import_items directives q) = Raise e →
  result (import_phase q title directives m) = Raise e.
Proof.
  intros Hraise. unfold import_phase.
  match goal with
  | |- result (bind ?c ?k m) = _ =>
      destruct (bind_result c k m ()) as [-> _]; [by destruct q|]
  end.
  apply bind_result_raise. simpl. exact Hraise.
Qed.

Lemma when_nonempty_phase_raise q title directives e m :
  result (import_items directives q) = Raise e →
  result (when_nonempty directives (import_phase q title directives) m)
  = Raise e.
Proof.
  destruct directives as [|d directives]; [done|]. apply import_phase_raise.
Qed.

Lemma django_phase_raise q conf e m :
  result (import_items (django_imports conf) q) = Raise e →
  result (when (SHELL_PLUS_DJANGO_IMPORTS_setting conf)
            (import_phase q "# Shell Plus Django Imports"
               SHELL_PLUS_DJANGO_IMPORTS) m) = Raise e.
Proof.
  unfold django_imports.
  destruct (SHELL_PLUS_DJANGO_IMPORTS_setting conf); [|done].
  apply import_phase_raise.
Qed.

(** X13.  [import_objects] runs its six phases until one raises: the call
    raises what the first failing phase raises, and returns the bindings
    of all six, the later over the earlier, when none does. *)
Theorem import_objects_stops_at_first_failure opts conf :
  let q := quiet_load opts in
  let r_sub := perform_automatic_imports opts (subclasses_to_import conf) ∅ in
  let r_models := perform_automatic_imports opts (models_to_import opts conf) ∅ in
  result (import_objects opts conf)
  = match result (import_items (SHELL_PLUS_PRE_IMPORTS conf) q) with
    | Raise e => Raise e
    | Ok pre =>
    match result r_sub with
    | Raise e => Raise e
    | Ok _ =>
    match result r_models with
    | Raise e => Raise e
    | Ok _ =>
    match result (import_items (django_imports conf) q) with
    | Raise e => Raise e
    | Ok django =>
    match result (import_items (SHELL_PLUS_IMPORTS conf) q) with
    | Raise e => Raise e
    | Ok user =>
    match result (import_items (SHELL_PLUS_POST_IMPORTS conf) q) with
    | Raise e => Raise e
    | Ok post =>
        Ok (post ∪ (user ∪ (django ∪ (frame r_models ∪ (frame r_sub ∪ pre)))))
    end end end end end end.
Proof.
  intros q r_sub r_models. unfold import_objects. fold q.
  destruct (result (import_items (SHELL_PLUS_PRE_IMPORTS conf) q))
    as [pre|e] eqn:Hpre;
    [|by apply bind_result_raise, when_nonempty_phase_raise].
  destruct (when_nonempty_phase_run obj ast_parse find_module dir getattr q
              "# Shell Plus User Pre Imports" _ _ ∅ Hpre) as [Hr1 Hf1].
  rewrite (right_id_L ∅ (∪)) in Hf1.
  match goal with
  | |- result (bind ?c ?k ∅) = _ =>
      destruct (bind_result c k ∅ () Hr1) as [-> _]; rewrite Hf1
  end.
  destruct (import_subclasses_run obj import_string collect_subclasses
              opts conf pre) as [Hr2 Hf2].
  fold r_sub in Hr2, Hf2.
  destruct (result r_sub) as [[]|e] eqn:Hsub;
    [|by apply bind_result_raise].
  match goal with
  | |- result (bind ?c ?k pre) = _ =>
      destruct (bind_result c k pre () Hr2) as [-> _]; rewrite Hf2
  end.
  match goal with
  | |- result (bind ?c ?k ?f) = _ =>
      destruct (bind_result c k f ()) as [-> _]; [by destruct q|];
      assert (frame (c f) = f) as -> by (by destruct q)
  end.
  destruct (import_models_run obj import_string run_collision_resolver apps
              _document_registry opts conf (frame r_sub ∪ pre)) as [Hr3 Hf3].
  fold r_models in Hr3, Hf3.
  destruct (result r_models) as [[]|e] eqn:Hmodels;
    [|by apply bind_result_raise].
  match goal with
  | |- result (bind ?c ?k ?f) = _ =>
      destruct (bind_result c k f () Hr3) as [-> _]; rewrite Hf3
  end.
  destruct (result (import_items (django_imports conf) q))
    as [django|e] eqn:Hdjango;
    [|by apply bind_result_raise, django_phase_raise].
  destruct (django_phase_run obj ast_parse find_module dir getattr q conf _
              (frame r_models ∪ (frame r_sub ∪ pre)) Hdjango) as [Hr4 Hf4].
  match goal with
  | |- result (bind ?c ?k ?f) = _ =>
      destruct (bind_result c k f () Hr4) as [-> _]; rewrite Hf4
  end.
  destruct (result (import_items (SHELL_PLUS_IMPORTS conf) q))
    as [user|e] eqn:Huser;
    [|by apply bind_result_raise, when_nonempty_phase_raise].
  destruct (when_nonempty_phase_run obj ast_parse find_module dir getattr q
              "# Shell Plus User Imports" _ _
              (django ∪ (frame r_models ∪ (frame r_sub ∪ pre))) Huser)
    as [Hr5 Hf5].
  match goal with
  | |- result (bind ?c ?k ?f) = _ =>
      destruct (bind_result c k f () Hr5) as [-> _]; rewrite Hf5
  end.
  destruct (result (import_items (SHELL_PLUS_POST_IMPORTS conf) q))
    as [post|e] eqn:Hpost;
    [|by apply bind_result_raise, when_nonempty_phase_raise].
  destruct (when_nonempty_phase_run obj ast_parse find_module dir getattr q
              "# Shell Plus User Post Imports" _ _
              (user ∪ (django ∪ (frame r_models ∪ (frame r_sub ∪ pre))))
              Hpost) as [Hr6 Hf6].
  match goal with
  | |- result (bind ?c ?k ?f) = _ =>
      destruct (bind_result c k f () Hr6) as [-> _]; rewrite Hf6
  end.
  done.
Qed.

Lemma emits_exec_stmt tb body :
  emits (quiet_event tb) (exec_stmt obj find_module dir getattr body).
Proof.
  unfold exec_stmt, exec_import_name, exec_from_name, import_star, __import__,
    import_module, py_getattr, set_item.
  repeat (emits_step; cbv beta).
Qed.

Lemma emits_import_names tb module o names :
  emits (quiet_event tb) (import_names obj getattr true module o names).
Proof.
  induction names as [|name names IH]; [apply emits_ret|].
  rewrite import_names_cons. unfold py_getattr, set_item.
  apply emits_bind; [repeat (emits_step; cbv beta)|].
  intros found. apply emits_bind; [done|]. intros ?. apply emits_ret.
Qed.

Lemma emits_directives_quiet tb directives :
  emits (quiet_event tb) (for_each directives (run_directive true)).
Proof.
  apply emits_for_each. intros d.
  unfold run_directive, run_statement, run_legacy, read_node, set_node,
    import_star, __import__, py_getattr, set_item.
  change (negb true) with false. cbv beta iota.
  repeat first
    [ apply emits_exec_stmt | apply emits_import_names
    | emits_step; cbv beta iota ].
Qed.

Lemma quiet_items_printed tb directives :
  Forall (quiet_event tb) (printed (import_items directives true)).
Proof.
  unfold import_items.
  apply (emits_bind (quiet_event tb)); [apply emits_directives_quiet|].
  intros ?. by repeat emits_step.
Qed.

Lemma emits_import_phase_quiet tb title directives :
  emits (quiet_event tb) (import_phase true title directives).
Proof.
  unfold import_phase. repeat emits_step.
  intros m. apply quiet_items_printed.
Qed.

Lemma emits_perform_quiet opts modules_to_classes :
  quiet_load opts = true →
  emits (quiet_event (traceback opts))
    (perform_automatic_imports opts modules_to_classes).
Proof.
  intros Hq. unfold perform_automatic_imports. rewrite Hq.
  apply emits_for_each. intros [full_module_path models]. simpl.
  apply emits_bind; [|intros labels; emits_step].
  induction (Py.sorted Py.pair_le models) as [|[model_name alias] l IH];
    [apply emits_ret|].
  rewrite import_classes_cons, Hq.
  apply emits_bind; [|intros label; apply emits_bind; [done|]; intros ?;
                      apply emits_ret].
  apply emits_try_except; [repeat emits_step|]. intros e.
  apply emits_bind; [|intros ?; repeat emits_step].
  apply emits_when. intros Htb. apply emits_emit. right. right. eauto.
Qed.

(** X14.  With [quiet_load] the call prints no title, no echo and no error
    line: what is left is the warning of old-style directives, the line
    that lists what a module holds when a from-import name is missing,
    which no test of [quiet_load] guards, and the tracebacks when
    [traceback] is set. *)
Theorem quiet_output opts conf :
  quiet_load opts = true →
  Forall (quiet_event (traceback opts)) (printed (import_objects opts conf)).
Proof.
  intros Hq. unfold import_objects, import_subclasses, import_models.
  rewrite Hq.
  match goal with
  | |- Forall ?P (printed (?c ∅)) => assert (emits P c) as Hc; [|apply Hc]
  end.
  repeat first
    [ apply emits_import_phase_quiet | by apply emits_perform_quiet
    | apply emits_when_nonempty
    | emits_step
    | apply emits_when; intros _ ].
Qed.

End Outcomes.

(* ===================================================================== *)
(** ** More on the automatic imports *)
(* ===================================================================== *)

Lemma bind_returns_inv {F A B} (c : M F A) (k : A → M F B) f b :
  result (bind c k f) = Ok b →
  ∃ a, result (c f) = Ok a ∧ result (k a (frame (c f))) = Ok b.
Proof.
  unfold bind. destruct (c f) as [[a|e] f1 p1]; simpl; [|done].
  intros Hk. exists a. split; [done|]. by destruct (k a f1).
Qed.

Section PerformOutcome.

Context (obj : Type) (import_string : string → outcome obj).

Local Abbreviation import_classes := (import_classes obj import_string).
Local Abbreviation perform_automatic_imports :=
  (perform_automatic_imports obj import_string).
Local Abbreviation failures_are_import_errors :=
  (failures_are_import_errors obj import_string).

Implicit Types (m : gmap string obj) (opts : options).

(** When the loop over the models of a module returns, every import that
    failed in it raised an [ImportError]. *)
Lemma import_classes_returns opts full_module_path models m labels :
  result (import_classes opts full_module_path models m) = Ok labels →
  ∀ model_name alias e,
    (model_name, alias) ∈ models →
    import_string (dotted full_module_path model_name) = Raise e →
    e = ImportError.
Proof.
  revert m labels.
  induction models as [|[n0 a0] models IH]; intros m labels Hret n a e Hin Hraise.
  - by apply elem_of_nil in Hin.
  - rewrite import_classes_cons in Hret.
    apply bind_returns_inv in Hret as (label & Hhead & Hret).
    apply bind_returns_inv in Hret as (labels' & Htail & _).
    apply elem_of_cons in Hin as [[= -> ->]|Hin]; [|by eapply IH].
    unfold try_except, bind, lift in Hhead. rewrite Hraise in Hhead.
    simpl in Hhead. destruct e; try done.
Qed.

(** X15.  [perform_automatic_imports] returns exactly when every failure
    of [import_string] on one of its models is an [ImportError]: any
    other exception of a model leaves the handler and ends the call. *)
Theorem perform_returns_iff opts
    (modules_to_classes : list (string * list (string * string))) m :
  result (perform_automatic_imports opts modules_to_classes m) = Ok ()
  ↔ failures_are_import_errors modules_to_classes.
Proof.
  split.
  - unfold perform_automatic_imports, failures_are_import_errors. revert m.
    induction modules_to_classes as [|[p0 models0] rest IH];
      intros m Hret p models n a e Hp Hin Hraise.
    + by apply elem_of_nil in Hp.
    + cbn [for_each] in Hret.
      apply bind_returns_inv in Hret as ([] & Hhead & Hret).
      apply elem_of_cons in Hp as [[= -> ->]|Hp]; [|by eapply IH].
      apply bind_returns_inv in Hhead as (labels & Hclasses & _).
      simpl in Hclasses.
      eapply import_classes_returns; [exact Hclasses| |exact Hraise].
      by apply elem_of_sorted.
  - intros Hfail.
    destruct (perform_run obj import_string opts modules_to_classes m Hfail)
      as (events & -> & _).
    done.
Qed.

(** X16.  A name that no successful import of the call has as its alias
    keeps what it was bound to, or stays unbound: the models that fail to
    import, and the models of other aliases, leave it alone. *)
Theorem failed_alias_keeps_binding opts
    (modules_to_classes : list (string * list (string * string))) m
    (alias : string) :
  (∀ full_module_path models model_name v,
     (full_module_path, models) ∈ modules_to_classes →
     (model_name, alias) ∈ models →
     import_string (dotted full_module_path model_name) ≠ Ok v) →
  frame (perform_automatic_imports opts modules_to_classes m) !! alias
  = m !! alias.
Proof.
  intros Hfail.
  rewrite (layered_from_empty obj _ m
             (layered_perform obj import_string opts modules_to_classes)).
  simpl. apply lookup_union_r.
  destruct (frame _ !! alias) as [v|] eqn:Hv; [|done].
  destruct (perform_provenance obj import_string opts modules_to_classes
              ∅ alias v Hv) as [Hold|(p & models & n & Hp & Hin & Himport)].
  - by rewrite lookup_empty in Hold.
  - by destruct (Hfail p models n v Hp Hin).
Qed.

End PerformOutcome.

(* ===================================================================== *)
(** ** More on discovery *)
(* ===================================================================== *)

Section Candidates.

Implicit Types (dont_load : list string)
  (load_models d : list (string * list string)).

Lemma setdefault_append_keys {V} k (v : V) (d : list (string * list V)) :
  (Py.setdefault_append k v d).*1 = if decide (k ∈ d.*1) then d.*1 else d.*1 ++ [k].
Proof.
  induction d as [|[k' vs] d IH]; [done|].
  cbn [Py.setdefault_append].
  destruct (String.eqb_spec k' k) as [->|Hne]; rewrite !fmap_cons; cbn [fst].
  - by rewrite decide_True by apply list_elem_of_here.
  - rewrite IH. destruct (decide (k ∈ d.*1)) as [Hin|Hnin].
    + by rewrite decide_True by (by apply list_elem_of_further).
    + rewrite decide_False; [done|].
      intros [?|?]%elem_of_cons; done.
Qed.

Lemma setdefault_append_NoDup {V} k (v : V) (d : list (string * list V)) :
  NoDup d.*1 → NoDup (Py.setdefault_append k v d).*1.
Proof.
  intros Hd. rewrite setdefault_append_keys.
  destruct (decide (k ∈ d.*1)) as [Hin|Hnin]; [done|].
  apply NoDup_app. split; [done|]. split; [|apply NoDup_singleton].
  intros x Hx ->%list_elem_of_singleton. done.
Qed.

Lemma foldl_NoDup {A V} (step : list (string * list V) → A → list (string * list V))
    (l : list A) (d : list (string * list V)) :
  (∀ acc x, NoDup acc.*1 → NoDup (step acc x).*1) →
  NoDup d.*1 → NoDup (foldl step d l).*1.
Proof.
  intros Hstep. revert d. induction l as [|x l IH]; intros d Hd; [done|].
  simpl. apply IH. by apply Hstep.
Qed.

Lemma discover_NoDup apps registry dont_load :
  NoDup (discover apps registry dont_load).*1.
Proof.
  unfold discover.
  assert (Hdocs : ∀ d documents,
            NoDup d.*1 → NoDup (foldl (add_document dont_load) d documents).*1).
  { intros d documents. apply foldl_NoDup. intros d' item Hd'.
    unfold add_document. destruct (_ || _); [done|].
    by apply setdefault_append_NoDup. }
  assert (Happs : ∀ d, NoDup d.*1 → NoDup (foldl (add_app dont_load) d apps).*1).
  { intros d. apply foldl_NoDup. intros d' app Hd'.
    unfold add_app. destruct (models_module app); [|done].
    destruct (get_models app) as [|model models]; [done|].
    destruct (Py.contains _ _); [done|].
    apply foldl_NoDup; [|done]. intros d'' mod_ Hd''.
    unfold add_model. destruct (Py.contains _ _); [done|].
    destruct (__module__ mod_); [done|]. by apply setdefault_append_NoDup. }
  assert (Hnil : NoDup (@nil (string * list string)).*1) by apply NoDup_nil_2.
  destruct (negb _); [|by destruct registry].
  apply Happs. destruct registry; [by apply Hdocs|done].
Qed.

Lemma get_dict_NoDup dont_load model_aliases app_prefixes load_models :
  NoDup (get_dict_from_names_to_possible_models dont_load model_aliases
           app_prefixes load_models).*1.
Proof.
  unfold get_dict_from_names_to_possible_models.
  apply foldl_NoDup; [|apply NoDup_nil_2]. intros d item Hd.
  apply foldl_NoDup; [|done]. intros d' model_name Hd'.
  destruct (Py.contains _ _); [done|]. by apply setdefault_append_NoDup.
Qed.

(** In a dict, two values under one key are in one entry. *)
Lemma in_load_models_same_entry d key x y :
  NoDup d.*1 →
  in_load_models d key x → in_load_models d key y →
  ∃ values, (key, values) ∈ d ∧ x ∈ values ∧ y ∈ values.
Proof.
  intros Hd (xs & Hxs & Hx) (ys & Hys & Hy).
  assert (xs = ys) as ->.
  { pose proof (elem_of_list_to_map_1 (M := gmap string) d key xs Hd Hxs).
    pose proof (elem_of_list_to_map_1 (M := gmap string) d key ys Hd Hys).
    congruence. }
  eauto.
Qed.

(** X17.  Two models that discovery keeps and that get the same alias are
    candidates of one entry of the name-to-candidates dict, which has one
    entry per alias: the collision reaches the resolver as a list that
    holds both paths. *)
Theorem colliding_models_share_entry dont_load
    (model_aliases : gmap string (gmap string string))
    (app_prefixes : gmap string string) load_models
    (module1 name1 module2 name2 alias : string) :
  let candidates :=
    get_dict_from_names_to_possible_models dont_load model_aliases
      app_prefixes load_models in
  let alias_in module name :=
    alias_of (default ∅ (model_aliases !! get_app_name module))
      (app_prefixes !! get_app_name module) name in
  in_load_models load_models module1 name1 →
  in_load_models load_models module2 name2 →
  dotted (get_app_name module1) name1 ∉ dont_load →
  dotted (get_app_name module2) name2 ∉ dont_load →
  alias_in module1 name1 = alias →
  alias_in module2 name2 = alias →
  NoDup candidates.*1
  ∧ ∃ paths, (alias, paths) ∈ candidates
             ∧ dotted module1 name1 ∈ paths ∧ dotted module2 name2 ∈ paths.
Proof.
  intros candidates alias_in H1 H2 Hdeny1 Hdeny2 Halias1 Halias2.
  split; [apply get_dict_NoDup|].
  apply in_load_models_same_entry; [apply get_dict_NoDup|..];
    apply in_get_dict; eauto 10.
Qed.

(** X18.  A longer denylist discovers no more: every model that
    discovery keeps under a denylist is kept under each part of it, and
    so is every candidate of the name-to-candidates dict. *)
Theorem denylist_is_monotone apps registry
    (model_aliases : gmap string (gmap string string))
    (app_prefixes : gmap string string) dont_load dont_load' :
  dont_load ⊆ dont_load' →
  (∀ module name,
     in_load_models (discover apps registry dont_load') module name →
     in_load_models (discover apps registry dont_load) module name)
  ∧ (∀ alias path,
       in_load_models
         (get_dict_from_names_to_possible_models dont_load' model_aliases
            app_prefixes (discover apps registry dont_load')) alias path →
       in_load_models
         (get_dict_from_names_to_possible_models dont_load model_aliases
            app_prefixes (discover apps registry dont_load)) alias path).
Proof.
  intros Hsub.
  assert (Hload : ∀ module name,
            in_load_models (discover apps registry dont_load') module name →
            in_load_models (discover apps registry dont_load) module name).
  { intros module name. rewrite !in_discover.
    unfold admitted_model, admitted_document.
    intros [Hstar [Hin|Hin]]; (split; [by intros ?%Hsub|]).
    - left. destruct Hin as (app & app_mod & model & ? & ? & ? & ? & ? & ?).
      exists app, app_mod, model. repeat split; try tauto;
        intros ?%Hsub; tauto.
    - right. destruct Hin as (documents & key & doc & ? & ? & ? & ? & ? & ?).
      exists documents, key, doc. repeat split; try tauto;
        intros ?%Hsub; tauto. }
  split; [done|].
  intros alias path. rewrite !in_get_dict.
  intros (module & name & Hin & Hdeny & -> & ->).
  exists module, name. repeat split; [by apply Hload|by intros ?%Hsub].
Qed.

(** X19.  When every model is defined in the models module of its
    application and there is no document registry, the second test of the
    denylist, made on the module of the model while the candidates are
    named, removes nothing: every model that discovery keeps is a
    candidate under its alias. *)
Theorem standard_layout_keeps_candidates apps
    (model_aliases : gmap string (gmap string string))
    (app_prefixes : gmap string string) dont_load (module name : string) :
  standard_layout apps →
  in_load_models (discover apps None dont_load) module name →
  in_load_models
    (get_dict_from_names_to_possible_models dont_load model_aliases
       app_prefixes (discover apps None dont_load))
    (alias_of (default ∅ (model_aliases !! get_app_name module))
       (app_prefixes !! get_app_name module) name)
    (dotted module name).
Proof.
  intros Hlayout Hin. apply in_get_dict. exists module, name.
  repeat split; [done|].
  apply in_discover in Hin as [_ [Hin|Hin]].
  - destruct Hin as (app & app_mod & model & Happ & Hmod & Hmodel & _ & Hdeny
                     & _ & -> & ->).
    by rewrite (Hlayout app app_mod model Happ Hmod Hmodel).
  - by destruct Hin as (? & ? & ? & [=] & _).
Qed.

End Candidates.

(* ===================================================================== *)
(** ** The order of [sorted] *)
(* ===================================================================== *)

Section Orders.

Lemma ascii_compare_refl c : Ascii.compare c c = Eq.
Proof. unfold Ascii.compare. apply N.compare_refl. Qed.

Lemma ascii_compare_lt_trans a b c :
  Ascii.compare a b = Lt → Ascii.compare b c = Lt → Ascii.compare a c = Lt.
Proof. unfold Ascii.compare. rewrite !N.compare_lt_iff. lia. Qed.

Lemma compare_refl s : String.compare s s = Eq.
Proof. induction s as [|c s IH]; simpl; [done|]. by rewrite ascii_compare_refl. Qed.

Lemma compare_lt_trans s1 s2 s3 :
  String.compare s1 s2 = Lt → String.compare s2 s3 = Lt →
  String.compare s1 s3 = Lt.
Proof.
  revert s2 s3.
  induction s1 as [|c1 s1 IH]; intros [|c2 s2] [|c3 s3]; simpl; try done.
  destruct (Ascii.compare c1 c2) eqn:H12; try done;
    destruct (Ascii.compare c2 c3) eqn:H23; try done.
  - apply Ascii.compare_eq_iff in H12 as ->.
    apply Ascii.compare_eq_iff in H23 as ->.
    rewrite ascii_compare_refl. apply IH.
  - apply Ascii.compare_eq_iff in H12 as ->. by rewrite H23.
  - apply Ascii.compare_eq_iff in H23 as <-. by rewrite H12.
  - by rewrite (ascii_compare_lt_trans c1 c2 c3).
Qed.

Lemma leb_cases a b : String.leb a b = true ↔ String.ltb a b = true ∨ a = b.
Proof.
  unfold String.leb, String.ltb.
  destruct (String.compare a b) eqn:Hab.
  - apply String.compare_eq_iff in Hab. naive_solver.
  - naive_solver.
  - split; [done|]. intros [?| ->]; [done|]. by rewrite compare_refl in Hab.
Qed.

Lemma ltb_irrefl a : String.ltb a a = false.
Proof. unfold String.ltb. by rewrite compare_refl. Qed.

Lemma ltb_trans a b c :
  String.ltb a b = true → String.ltb b c = true → String.ltb a c = true.
Proof.
  unfold String.ltb. intros Hab Hbc.
  rewrite (compare_lt_trans a b c); [done|by destruct (String.compare a b)
                                     |by destruct (String.compare b c)].
Qed.

Lemma ltb_total a b : String.ltb a b = true ∨ a = b ∨ String.ltb b a = true.
Proof.
  unfold String.ltb. rewrite (String.compare_antisym b a).
  destruct (String.compare a b) eqn:Hab; simpl; auto.
  apply String.compare_eq_iff in Hab. auto.
Qed.

Lemma str_le_trans a b c :
  Py.str_le a b = true → Py.str_le b c = true → Py.str_le a c = true.
Proof.
  unfold Py.str_le. rewrite !leb_cases.
  intros [Hab| ->] [Hbc| ->]; eauto using ltb_trans.
Qed.

Lemma pair_le_cases (a b : string * string) :
  Py.pair_le a b = true
  ↔ String.ltb a.1 b.1 = true ∨ (a.1 = b.1 ∧ String.leb a.2 b.2 = true).
Proof.
  unfold Py.pair_le. rewrite orb_true_iff, andb_true_iff, String.eqb_eq. tauto.
Qed.

Lemma pair_le_total a b : Py.pair_le a b = true ∨ Py.pair_le b a = true.
Proof.
  rewrite !pair_le_cases.
  destruct (ltb_total a.1 b.1) as [?|[Heq|?]]; [tauto| |tauto].
  destruct (String.leb_total a.2 b.2); [left|right]; right; done.
Qed.

Lemma pair_le_trans a b c :
  Py.pair_le a b = true → Py.pair_le b c = true → Py.pair_le a c = true.
Proof.
  rewrite !pair_le_cases.
  intros [Hab|[Hab Hab']] [Hbc|[Hbc Hbc']].
  - left. by eapply ltb_trans.
  - left. by rewrite <- Hbc.
  - left. by rewrite Hab.
  - right. split; [congruence|]. by eapply (str_le_trans a.2 b.2 c.2).
Qed.

Lemma pair_le_antisym a b :
  Py.pair_le a b = true → Py.pair_le b a = true → a = b.
Proof.
  rewrite !pair_le_cases. destruct a as [a1 a2], b as [b1 b2]. simpl.
  intros [Hab|[-> Hab']] [Hba|[Hba Hba']].
  - pose proof (ltb_trans _ _ _ Hab Hba) as H. by rewrite ltb_irrefl in H.
  - subst. by rewrite ltb_irrefl in Hab.
  - by rewrite ltb_irrefl in Hba.
  - f_equal. by apply String.leb_antisym.
Qed.

Context {A : Type} (le : A → A → bool).

Hypothesis le_total : ∀ x y, le x y = true ∨ le y x = true.
Hypothesis le_trans : ∀ x y z, le x y = true → le y z = true → le x z = true.

Lemma insert_sorted_sorted x l :
  StronglySorted (λ a b, le a b = true) l →
  StronglySorted (λ a b, le a b = true) (Py.insert_sorted le x l).
Proof.
  induction 1 as [|y l Hl IH Hy]; simpl.
  - by repeat constructor.
  - destruct (le x y) eqn:Hxy.
    + constructor; [by constructor|]. constructor; [done|].
      eapply Forall_impl; [exact Hy|]. intros z Hz. by eapply le_trans.
    + constructor; [done|].
      assert (Hyx : le y x = true) by (destruct (le_total x y); congruence).
      rewrite insert_sorted_perm. by constructor.
Qed.

Lemma sorted_sorted l : StronglySorted (λ a b, le a b = true) (Py.sorted le l).
Proof.
  induction l as [|x l IH]; simpl; [constructor|].
  by apply insert_sorted_sorted.
Qed.

(** [sorted] of a list depends on its items only, not on their order,
    when no two different items are equal in the order. *)
Lemma sorted_unique l l' :
  (∀ x y, x ∈ l → y ∈ l → le x y = true → le y x = true → x = y) →
  l ≡ₚ l' → Py.sorted le l = Py.sorted le l'.
Proof.
  intros Hanti Hperm.
  apply (StronglySorted_unique_strong (λ a b, le a b = true));
    [|apply sorted_sorted..|by rewrite !sorted_perm].
  intros x y Hx Hy. apply Hanti.
  - by rewrite sorted_perm in Hx.
  - by rewrite sorted_perm, <- Hperm in Hy.
Qed.

End Orders.

Section SortedImports.

Context (obj : Type) (import_string : string → outcome obj).

Local Abbreviation perform_automatic_imports :=
  (perform_automatic_imports obj import_string).

(** X20.  The order in which the models of a module are listed does not
    matter to [perform_automatic_imports]: they are imported in sorted
    order, so the bindings, the output and the outcome are the same. *)
Theorem models_order_is_irrelevant (opts : options)
    (modules_to_classes modules_to_classes' :
       list (string * list (string * string)))
    (m : gmap string obj) :
  Forall2 (λ a b, a.1 = b.1 ∧ a.2 ≡ₚ b.2)
    modules_to_classes modules_to_classes' →
  perform_automatic_imports opts modules_to_classes m
  = perform_automatic_imports opts modules_to_classes' m.
Proof.
  intros Hsame. revert m.
  induction Hsame as [|[p ms] [p' ms'] l l' [Hp Hms] _ IH]; intros m; [done|].
  simpl in Hp, Hms. subst p'.
  unfold perform_automatic_imports. cbn [for_each].
  apply bind_ext; [|intros _; apply IH]. intros f. simpl.
  rewrite (sorted_unique Py.pair_le pair_le_total pair_le_trans ms ms');
    [done| |done].
  intros x y _ _. apply pair_le_antisym.
Qed.

End SortedImports.

Section RegistryOrder.

Implicit Types (dont_load : list string)
  (d load_models : list (string * list string)).

Lemma entries_cons (item : string * list string) d :
  entries (item :: d) = ((λ v, (item.1, v)) <$> item.2) ++ entries d.
Proof. done. Qed.

Lemma entries_setdefault_append k v d :
  entries (Py.setdefault_append k v d) ≡ₚ entries d ++ [(k, v)].
Proof.
  induction d as [|[k' vs] d IH]; [done|].
  cbn [Py.setdefault_append].
  destruct (String.eqb_spec k' k) as [->|Hne]; rewrite !entries_cons; simpl.
  - rewrite fmap_app. simpl. rewrite <- !app_assoc.
    f_equiv. apply Permutation_app_comm.
  - by rewrite IH, app_assoc.
Qed.

(** A loop whose steps only add entries adds what each step adds to the
    empty dict. *)
Lemma entries_foldl {X} (step : list (string * list string) → X → _)
    (l : list X) d :
  (∀ acc x, entries (step acc x) ≡ₚ entries acc ++ entries (step [] x)) →
  entries (foldl step d l) ≡ₚ entries d ++ (l ≫= λ x, entries (step [] x)).
Proof.
  intros Hstep. revert d. induction l as [|x l IH]; intros d; simpl.
  - by rewrite app_nil_r.
  - by rewrite IH, Hstep, app_assoc.
Qed.

Lemma entries_add_document dont_load d item :
  entries (add_document dont_load d item)
  ≡ₚ entries d ++ entries (add_document dont_load [] item).
Proof.
  unfold add_document. destruct (_ || _).
  - by rewrite app_nil_r.
  - by rewrite entries_setdefault_append.
Qed.

Lemma entries_add_model dont_load app_name d mod_ :
  entries (add_model dont_load app_name d mod_)
  ≡ₚ entries d ++ entries (add_model dont_load app_name [] mod_).
Proof.
  unfold add_model. destruct (Py.contains _ _); [by rewrite app_nil_r|].
  destruct (__module__ mod_); [by rewrite app_nil_r|].
  by rewrite entries_setdefault_append.
Qed.

Lemma entries_add_app dont_load d app :
  entries (add_app dont_load d app)
  ≡ₚ entries d ++ entries (add_app dont_load [] app).
Proof.
  unfold add_app. destruct (models_module app); [|by rewrite app_nil_r].
  destruct (get_models app) as [|model models]; [by rewrite app_nil_r|].
  destruct (Py.contains _ _); [by rewrite app_nil_r|].
  rewrite (entries_foldl _ _ d) by apply entries_add_model.
  by rewrite (entries_foldl _ _ []) by apply entries_add_model.
Qed.

(** The entries of [load_models] are the same, up to their order, when
    the registries list the same applications and documents. *)
Lemma entries_discover apps apps' registry registry' dont_load :
  apps ≡ₚ apps' →
  option_Forall2 (≡ₚ) registry registry' →
  entries (discover apps registry dont_load)
  ≡ₚ entries (discover apps' registry' dont_load).
Proof.
  intros Happs Hregistry. unfold discover.
  destruct (negb _); [|by destruct Hregistry].
  rewrite !(entries_foldl (add_app dont_load)) by apply entries_add_app.
  f_equiv; [|by rewrite Happs].
  destruct Hregistry as [documents documents' Hdocuments|]; [|done].
  rewrite !(entries_foldl (add_document dont_load))
    by apply entries_add_document.
  by rewrite Hdocuments.
Qed.

Lemma bind_pointwise_perm {X Y} (f g : X → list Y) (l : list X) :
  (∀ x, f x ≡ₚ g x) → l ≫= f ≡ₚ l ≫= g.
Proof.
  intros Hfg. induction l as [|x l IH]; [done|].
  rewrite !bind_cons. by rewrite IH, Hfg.
Qed.

Lemma bind_after_fmap {X Y Z} (f : X → Y) (g : Y → list Z) (l : list X) :
  (f <$> l) ≫= g = l ≫= (g ∘ f).
Proof.
  induction l as [|x l IH]; [done|].
  by rewrite fmap_cons, !bind_cons, IH.
Qed.

(** The entries of a dict whose keys and lists are sorted are sorted as
    pairs. *)
Lemma entries_sorted d :
  StronglySorted (λ a b : string * list string, Py.key_le a b = true) d →
  NoDup d.*1 →
  Forall (λ item, StronglySorted (λ a b, Py.str_le a b = true) item.2) d →
  StronglySorted (λ a b, Py.pair_le a b = true) (entries d).
Proof.
  induction 1 as [|[k vs] d Hd IH Hk]; intros Hdup Hvalues; [constructor|].
  apply NoDup_cons in Hdup as [Hfresh Hdup].
  apply Forall_cons in Hvalues as [Hvs Hvalues].
  rewrite entries_cons. apply StronglySorted_app_2.
  - intros x1 x2 Hx1 Hx2. simpl in Hx1.
    apply list_elem_of_fmap in Hx1 as (v & -> & Hv).
    apply list_elem_of_bind in Hx2 as ([k' vs'] & Hx2 & Hitem).
    apply list_elem_of_fmap in Hx2 as (v' & -> & Hv').
    apply pair_le_cases. left. simpl.
    rewrite Forall_forall in Hk. specialize (Hk _ Hitem).
    unfold Py.key_le in Hk. simpl in Hk.
    apply leb_cases in Hk as [Hlt| ->]; [done|].
    destruct Hfresh. apply list_elem_of_fmap. by exists (k', vs').
  - simpl. eapply StronglySorted_fmap; [|exact Hvs].
    intros x y Hxy. apply pair_le_cases. right. by split.
  - by apply IH.
Qed.

Lemma key_le_total {V} (a b : string * V) :
  Py.key_le a b = true ∨ Py.key_le b a = true.
Proof. apply String.leb_total. Qed.

Lemma key_le_trans {V} (a b c : string * V) :
  Py.key_le a b = true → Py.key_le b c = true → Py.key_le a c = true.
Proof. apply str_le_trans. Qed.

(** The name-to-candidates dict is a loop over the sorted entries of
    [load_models]. *)
Lemma get_dict_entries dont_load
    (model_aliases : gmap string (gmap string string))
    (app_prefixes : gmap string string) load_models :
  NoDup load_models.*1 →
  get_dict_from_names_to_possible_models dont_load model_aliases
    app_prefixes load_models
  = foldl
      (λ models_to_import (entry : string * string),
         if Py.contains (dotted (get_app_name entry.1) entry.2) dont_load
         then models_to_import
         else Py.setdefault_append
                (alias_of (default ∅ (model_aliases !! get_app_name entry.1))
                   (app_prefixes !! get_app_name entry.1) entry.2)
                (dotted entry.1 entry.2) models_to_import)
      [] (Py.sorted Py.pair_le (entries load_models)).
Proof.
  intros Hdup. unfold get_dict_from_names_to_possible_models.
  set (step := λ (models_to_import : list (string * list string))
                 (entry : string * string), _).
  set (items := (λ item : string * list string,
                   (item.1, Py.sorted Py.str_le item.2))
                <$> Py.sorted Py.key_le load_models).
  assert (Hflat : ∀ (l : list (string * list string)) acc,
            foldl (λ acc item,
                     foldl (λ acc model_name, step acc (item.1, model_name))
                       acc (Py.sorted Py.str_le item.2)) acc l
            = foldl step acc
                (entries ((λ item : string * list string,
                             (item.1, Py.sorted Py.str_le item.2)) <$> l))).
  { induction l as [|item l IH]; intros acc; [done|].
    rewrite fmap_cons, entries_cons, foldl_app. simpl.
    rewrite IH. f_equal.
    generalize (Py.sorted Py.str_le item.2). intros vs. revert acc.
    induction vs as [|v vs IHvs]; intros acc; [done|]. simpl. by rewrite IHvs. }
  transitivity (foldl step [] (entries items)); [apply Hflat|].
  f_equal.
  apply (StronglySorted_unique_strong (λ a b, Py.pair_le a b = true)).
  - intros x y _ _. apply pair_le_antisym.
  - apply entries_sorted.
    + unfold items. eapply StronglySorted_fmap;
        [|apply (sorted_sorted Py.key_le key_le_total key_le_trans)].
      by intros x y.
    + unfold items. rewrite <- list_fmap_compose.
      rewrite (list_fmap_ext _ fst) by done. by rewrite sorted_perm.
    + unfold items. apply Forall_fmap, Forall_forall. intros item _. simpl.
      apply (sorted_sorted Py.str_le String.leb_total str_le_trans).
  - apply (sorted_sorted Py.pair_le pair_le_total pair_le_trans).
  - rewrite sorted_perm. unfold items, entries.
    rewrite bind_after_fmap. rewrite sorted_perm.
    apply bind_pointwise_perm. intros item. simpl. by rewrite sorted_perm.
Qed.

Lemma get_dict_registry_order
    (apps apps' : list app_config)
    (registry registry' : option (list (string * model_class)))
    (model_aliases : gmap string (gmap string string))
    (app_prefixes : gmap string string) dont_load :
  apps ≡ₚ apps' →
  option_Forall2 (≡ₚ) registry registry' →
  get_dict_from_names_to_possible_models dont_load model_aliases app_prefixes
    (discover apps registry dont_load)
  = get_dict_from_names_to_possible_models dont_load model_aliases app_prefixes
      (discover apps' registry' dont_load).
Proof.
  intros Happs Hregistry.
  rewrite !get_dict_entries by apply discover_NoDup.
  f_equal.
  apply (sorted_unique Py.pair_le pair_le_total pair_le_trans).
  - intros x y _ _. apply pair_le_antisym.
  - by apply entries_discover.
Qed.

End RegistryOrder.

Section RegistryOrderObjects.

Context (obj : Type) (ast_parse : string → option (list stmt))
  (find_module : string → outcome obj)
  (dir : obj → list string) (getattr : obj → string → option obj)
  (import_string : string → outcome obj)
  (run_collision_resolver :
     list (string * list string) → list (string * list (string * string)))
  (collect_subclasses : list pyval → list (string * list (string * string))).

Local Abbreviation import_objects :=
  (import_objects obj ast_parse find_module dir getattr import_string
     run_collision_resolver collect_subclasses).

(** X21.  The name-to-candidates dict that the collision resolver is
    given does not depend on the order in which the registry lists the
    applications, nor on the order of the document registry: the modules
    and the models of a module are visited in sorted order.  So
    [import_objects] does the same under every such order. *)
Theorem candidates_ignore_registry_order
    (apps apps' : list app_config)
    (registry registry' : option (list (string * model_class)))
    (opts : options) (conf : settings) :
  apps ≡ₚ apps' →
  option_Forall2 (≡ₚ) registry registry' →
  (∀ dont_load,
     get_dict_from_names_to_possible_models dont_load
       (SHELL_PLUS_MODEL_ALIASES conf) (SHELL_PLUS_APP_PREFIXES conf)
       (discover apps registry dont_load)
     = get_dict_from_names_to_possible_models dont_load
         (SHELL_PLUS_MODEL_ALIASES conf) (SHELL_PLUS_APP_PREFIXES conf)
         (discover apps' registry' dont_load))
  ∧ import_objects apps registry opts conf
    = import_objects apps' registry' opts conf.
Proof.
  intros Happs Hregistry. split.
  - intros dont_load. by apply get_dict_registry_order.
  - unfold import_objects, import_models.
    by rewrite (get_dict_registry_order apps apps' registry registry').
Qed.

End RegistryOrderObjects.

(* ===================================================================== *)
(** ** The further properties on the concrete world *)
(* ===================================================================== *)

(** X4 on the concrete world, in quiet mode. *)
Lemma directives_compose_witness :
  result (Demo.import_items
            ([PStr "import os"] ++ [PStr "from json import loads"]) true)
  = Ok ({[ "loads" := Demo.Value "json.loads" ]} ∪ {[ "os" := Demo.Module "os" ]}).
Proof.
  destruct (directives_compose Demo.obj Demo.ast_parse Demo.find_module
              Demo.dir Demo.getattr true
              [PStr "import os"] [PStr "from json import loads"]
              {[ "os" := Demo.Module "os" ]}) as [Hresult _].
  - apply Forall_cons_2; [|apply Forall_nil_2]. right. intros _. by eexists.
  - reflexivity.
  - exact Hresult.
Defined.

(** X5 on the concrete world: the second directive does not parse. *)
Lemma quiet_parse_failure_repeats_witness :
  Demo.import_items
    ([PStr "import json"] ++ PStr "import os" :: PStr "import 9lives" :: []) true
  = Demo.import_items
      ([PStr "import json"] ++ PStr "import os" :: PStr "import os" :: []) true.
Proof.
  apply (quiet_parse_failure_repeats Demo.obj Demo.ast_parse Demo.find_module
           Demo.dir Demo.getattr [PStr "import json"] [] "import os"
           "import 9lives" [Import [Alias "os" None]]); reflexivity.
Defined.

(** X6 on the concrete world: a triple, and a pair whose module is a
    number, between two statements. *)
Lemma malformed_directive_quiet_witness :
  result (Demo.import_items
            ([PStr "import os"]
             ++ PTuple [PStr "json"; PStr "loads"; PStr "dumps"]
             :: [PStr "import json"]) true)
  = result (Demo.import_items ([PStr "import os"] ++ [PStr "import json"]) true)
  ∧ result (Demo.import_items
              ([] ++ PList [PObject "3"; PStr "loads"] :: [PStr "import json"])
              true)
    = result (Demo.import_items ([] ++ [PStr "import json"]) true).
Proof.
  split.
  - apply (malformed_directive_quiet Demo.obj Demo.ast_parse Demo.find_module
             Demo.dir Demo.getattr [PStr "import os"] [PStr "import json"]
             (PTuple [PStr "json"; PStr "loads"; PStr "dumps"])).
    by split.
  - apply (malformed_directive_quiet Demo.obj Demo.ast_parse Demo.find_module
             Demo.dir Demo.getattr [] [PStr "import json"]
             (PList [PObject "3"; PStr "loads"])).
    split; [done|]. by left.
Defined.

(** X7 on the concrete world: a triple as a list and as a tuple. *)
Lemma wrong_length_is_reported_or_raises_witness :
  result (Demo.import_items
            [PList [PStr "os"; PStr "sep"; PStr "path"]; PStr "import json"]
            false)
  = result (Demo.import_items [PStr "import json"] false)
  ∧ result (Demo.import_items
              [PTuple [PStr "os"; PStr "sep"; PStr "path"]; PStr "import json"]
              false)
    = Raise TypeError.
Proof.
  destruct (wrong_length_is_reported_or_raises Demo.obj Demo.ast_parse
              Demo.find_module Demo.dir Demo.getattr
              [PStr "os"; PStr "sep"; PStr "path"] [PStr "import json"])
    as ([Hlist _] & _ & Htuple).
  - simpl. lia.
  - split; [exact Hlist|]. apply Htuple. simpl. lia.
Defined.


(** X9 on the concrete world: one name with an alias, one without. *)
Lemma from_import_binds_declared_names_witness :
  ∃ m, result (Demo.import_items [PStr "from os import sep as s, path"] false)
       = Ok m
       ∧ (∀ k, is_Some (m !! k) ↔ k ∈ ["s"; "path"])
       ∧ m !! "s" = Some (Demo.Value "os.sep").
Proof.
  destruct (from_import_binds_declared_names Demo.obj Demo.ast_parse
              Demo.find_module Demo.dir Demo.getattr false
              "from os import sep as s, path" "os"
              [Alias "sep" (Some "s"); Alias "path" None] 0 (Demo.Module "os"))
    as (m & Hresult & Hbound & Hvalue); [reflexivity|reflexivity|done|reflexivity| |].
  - repeat constructor; (discriminate || by eexists).
  - exists m. split; [exact Hresult|]. split; [exact Hbound|].
    apply (Hvalue ltac:(by repeat constructor; list_notin)
             (Alias "sep" (Some "s"))).
    apply list_elem_of_here.
Defined.

(** X10 on the concrete world: the second of three names is missing. *)
Lemma missing_from_name_keeps_earlier_witness :
  result (Demo.import_items [PStr "from os import sep, nope, path"] true)
  = Ok {[ "sep" := Demo.Value "os.sep" ]}
  ∧ printed (Demo.import_items [PStr "from os import sep, nope, path"] true)
    = [Print PLAIN (Couldnt_find "nope" (Some "os") ["getcwd"; "path"; "sep"])].
Proof.
  apply (missing_from_name_keeps_earlier Demo.obj Demo.ast_parse
           Demo.find_module Demo.dir Demo.getattr true
           "from os import sep, nope, path" "os"
           [Alias "sep" None] [Alias "path" None] (Alias "nope" None) 0
           (Demo.Module "os")); try reflexivity.
  - repeat constructor; (discriminate || by eexists).
  - discriminate.
Defined.

(** X11 on the concrete world: a module that does not exist. *)
Lemma import_items_catches_import_errors_witness :
  result (Demo.import_items [PStr "import missing"] true) ≠ Raise ImportError.
Proof.
  apply (import_items_catches_import_errors Demo.obj Demo.ast_parse
           Demo.find_module Demo.dir Demo.getattr).
Defined.


(** X14 on the concrete world: a model that does not exist, an old-style
    directive and a from-import of a missing name, with tracebacks. *)
Lemma quiet_output_witness :
  Forall (quiet_event true)
    (printed
       (Demo.import_objects
          [App_config (Some "library.models")
             [Model_class "Absent" "library.models"]]
          None (Options [] true true)
          (Settings [] ∅ ∅ [PStr "os"] [] false
             [PStr "from os import nope"] []))).
Proof.
  apply (quiet_output Demo.obj Demo.ast_parse Demo.find_module Demo.dir
           Demo.getattr Demo.import_string Demo.run_collision_resolver
           Demo.collect_subclasses
           [App_config (Some "library.models")
              [Model_class "Absent" "library.models"]]
           None (Options [] true true)).
  reflexivity.
Defined.

(** X16 on the concrete world: the only model aliased [Book] fails to
    import, and [Book] stays what it was. *)
Lemma failed_alias_keeps_binding_witness :
  frame (Demo.perform_automatic_imports (Options [] true false)
           [("library.models", [("Absent", "Book"); ("Author", "Author")])]
           {[ "Book" := Demo.Value "helpers.Book" ]}) !! "Book"
  = Some (Demo.Value "helpers.Book").
Proof.
  rewrite (failed_alias_keeps_binding Demo.obj Demo.import_string
             (Options [] true false)
             [("library.models", [("Absent", "Book"); ("Author", "Author")])]
             {[ "Book" := Demo.Value "helpers.Book" ]} "Book").
  - reflexivity.
  - intros p models n v Hp Hin.
    apply list_elem_of_singleton in Hp as [= -> ->].
    apply elem_of_cons in Hin as [[= ->]|Hin]; [discriminate|].
    apply list_elem_of_singleton in Hin. discriminate Hin.
Defined.

(** X17 on the concrete world: the two applications have a [Book]. *)
Lemma colliding_models_share_entry_witness :
  ∃ paths,
    ("Book", paths)
    ∈ get_dict_from_names_to_possible_models [] ∅ ∅
        [("library.models", ["Author"; "Book"]); ("helpers", ["Book"])]
    ∧ "library.models.Book" ∈ paths ∧ "helpers.Book" ∈ paths.
Proof.
  destruct (colliding_models_share_entry [] ∅ ∅
              [("library.models", ["Author"; "Book"]); ("helpers", ["Book"])]
              "library.models" "Book" "helpers" "Book" "Book")
    as [_ Hentry]; [| |apply not_elem_of_nil|apply not_elem_of_nil
                    |reflexivity|reflexivity|exact Hentry].
  - exists ["Author"; "Book"].
    split; [apply list_elem_of_here|apply list_elem_of_further, list_elem_of_here].
  - exists ["Book"].
    split; [apply list_elem_of_further, list_elem_of_here|apply list_elem_of_here].
Defined.

(** X18 on the concrete world: a model kept with two entries is kept
    with the first of them. *)
Lemma denylist_is_monotone_witness :
  in_load_models (discover Demo.apps None ["helpers"]) "library.models" "Author".
Proof.
  destruct (denylist_is_monotone Demo.apps None ∅ ∅
              ["helpers"] ["helpers"; "library.Book"]) as [Hload _].
  - intros x ->%list_elem_of_singleton. apply list_elem_of_here.
  - apply Hload. exists ["Author"]. split; [|apply list_elem_of_here].
    vm_compute. apply list_elem_of_here.
Defined.

(** X19 on the concrete world: an application whose models are defined
    in its models module. *)
Lemma standard_layout_keeps_candidates_witness :
  let apps :=
    [App_config (Some "library.models")
       [Model_class "Author" "library.models";
        Model_class "Book" "library.models"]] in
  in_load_models
    (get_dict_from_names_to_possible_models ["library.Author"] ∅ ∅
       (discover apps None ["library.Author"]))
    "Book" "library.models.Book".
Proof.
  intros apps.
  assert (Hlayout : standard_layout apps).
  { intros app app_mod model Happ Hmod Hmodel.
    apply list_elem_of_singleton in Happ as ->.
    injection Hmod as <-. simpl in Hmodel.
    apply elem_of_cons in Hmodel as [->|Hmodel]; [reflexivity|].
    by apply list_elem_of_singleton in Hmodel as ->. }
  assert (Hkept : in_load_models (discover apps None ["library.Author"])
                    "library.models" "Book").
  { exists ["Book"]. split; [|apply list_elem_of_here].
    vm_compute. apply list_elem_of_here. }
  exact (standard_layout_keeps_candidates apps ∅ ∅ ["library.Author"]
           "library.models" "Book" Hlayout Hkept).
Defined.

(** Without that layout the second test can remove a model that
    discovery kept: a model of the application [shop] that is defined in
    [vendor.catalog] passes the test on [shop.Book] and is removed by the
    entry [vendor.Book]. *)
Lemma second_denylist_test_can_remove :
  let apps :=
    [App_config (Some "shop.models") [Model_class "Book" "vendor.catalog"]] in
  discover apps None ["vendor.Book"] = [("vendor.catalog", ["Book"])]
  ∧ get_dict_from_names_to_possible_models ["vendor.Book"] ∅ ∅
      (discover apps None ["vendor.Book"]) = [].
Proof. split; reflexivity. Qed.

(** X20 on the concrete world: two models listed in either order. *)
Lemma models_order_is_irrelevant_witness :
  Demo.perform_automatic_imports (Options [] false false)
    [("library.models", [("Book", "Book"); ("Author", "Writer")])] ∅
  = Demo.perform_automatic_imports (Options [] false false)
      [("library.models", [("Author", "Writer"); ("Book", "Book")])] ∅.
Proof.
  apply (models_order_is_irrelevant Demo.obj Demo.import_string).
  apply Forall2_cons. split; [|constructor].
  split; [reflexivity|]. simpl. apply Permutation_swap.
Defined.

(** X21 on the concrete world: two applications listed in either order. *)
Lemma candidates_ignore_registry_order_witness :
  let library :=
    App_config (Some "library.models")
      [Model_class "Author" "library.models";
       Model_class "Book" "library.models"] in
  let helpers := App_config (Some "helpers.models") [Model_class "Book" "helpers"] in
  Demo.import_objects [library; helpers] None (Options [] false false)
    Demo.no_settings
  = Demo.import_objects [helpers; library] None (Options [] false false)
      Demo.no_settings.
Proof.
  intros library helpers.
  destruct (candidates_ignore_registry_order Demo.obj Demo.ast_parse
              Demo.find_module Demo.dir Demo.getattr Demo.import_string
              Demo.run_collision_resolver Demo.collect_subclasses
              [library; helpers] [helpers; library] None None
              (Options [] false false) Demo.no_settings) as [_ Hobjects].
  - apply Permutation_swap.
  - constructor.
  - exact Hobjects.
Defined.

(** X22 on the concrete world: the first of two names is missing. *)
Lemma name_sequence_skips_missing_witness :
  result (Demo.import_items
            [PTuple [PStr "os"; PTuple [PStr "nope"; PStr "sep"]]] false)
  = Ok {[ "sep" := Demo.Value "os.sep" ]}
  ∧ printed (Demo.import_items
               [PTuple [PStr "os"; PTuple [PStr "nope"; PStr "sep"]]] false)
    = [Warn_deprecated; Print ERROR (Does_not_exist "nope" "os");
       Print SQL_COLTYPE (From_import_echo "os" "sep")].
Proof.
  destruct (name_sequence_skips_missing Demo.obj Demo.ast_parse
              Demo.find_module Demo.dir Demo.getattr false
              (PTuple [PStr "os"; PTuple [PStr "nope"; PStr "sep"]])
              (PTuple [PStr "nope"; PStr "sep"]) "os" ["nope"; "sep"]
              (Demo.Module "os")) as [Hresult Hprinted];
    [reflexivity|reflexivity|done|reflexivity|].
  split; (etransitivity; [eassumption|reflexivity]).
Defined.
